(** * SoftwareAnalyzer: the rule-based classification engine of server.js

    A shallow embedding of [class SoftwareAnalyzer] (loadRules, shouldExclude,
    findMapping, analyze), of the [POST /api/analyze] handler from the rows
    of the sheets on (column and agency detection, extraction of
    [softwareList], includedArray, disposition enrichment, history logging,
    the two sorts of the response), and of the handlers of
    [GET /api/categories] and [POST /api/export/csv].

    Conventions of the embedding.
    - JavaScript strings are [string]s of ASCII characters: on them
      [toLowerCase] is the map A-Z to a-z and [trim] removes TAB, LF, VT, FF,
      CR and SPACE.  Characters above 127 are left alone by both.
    - JavaScript numbers are the integers ([Z]); NaN is [None] of [option Z].
      Rounding of doubles is not modelled.
    - A cell of a sheet, and so a property of an entry, is a text, a number
      or nothing ([JS.value]).  A method called on a value that does not
      have it throws a TypeError: [analyze] trims the name of an entry, and
      throws on a name that is a number.
    - [RegExp], [String.prototype.localeCompare] and the text that the
      console prints for an Error object are built-ins of the runtime, not
      code of the repository: they are parameters (the class [Runtime]) of
      everything that calls them.
    - [pool.query], [console.warn], [console.error] and the fields of the
      [analyzer] object are effects on a [World]; the methods and the handler
      are computations of the monad [M], which threads the world and
      propagates exceptions.
    - Reading the upload into rows, the agency read off the file name and
      deleting the file are outside. *)

From Stdlib Require Import List String Ascii ZArith Lia Bool Arith.
From Stdlib Require Import Permutation Sorted DecimalString DecimalPos.
From Stdlib Require OrderedTypeEx.
Import ListNotations.

Local Open Scope string_scope.
Local Open Scope list_scope.

(** ** Built-ins of the JavaScript runtime that the code calls *)

Module JS.

(** [String.prototype.toLowerCase], one code unit. *)
Definition toLowerCase_char (c : ascii) : ascii :=
  let n := nat_of_ascii c in
  if ((65 <=? n) && (n <=? 90))%nat then ascii_of_nat (n + 32) else c.

Definition toUpperCase_char (c : ascii) : ascii :=
  let n := nat_of_ascii c in
  if ((97 <=? n) && (n <=? 122))%nat then ascii_of_nat (n - 32) else c.

Fixpoint toLowerCase (s : string) : string :=
  match s with
  | EmptyString => EmptyString
  | String c s' => String (toLowerCase_char c) (toLowerCase s')
  end.

(** WhiteSpace and LineTerminator code units below 128. *)
Definition isWhiteSpace (c : ascii) : bool :=
  let n := nat_of_ascii c in
  (((9 <=? n) && (n <=? 13)) || (n =? 32))%nat.

Fixpoint trimStart (s : string) : string :=
  match s with
  | EmptyString => EmptyString
  | String c s' => if isWhiteSpace c then trimStart s' else s
  end.

Fixpoint trimEnd (s : string) : string :=
  match s with
  | EmptyString => EmptyString
  | String c s' =>
      match trimEnd s' with
      | EmptyString => if isWhiteSpace c then EmptyString else String c EmptyString
      | t => String c t
      end
  end.

(** [String.prototype.trim]. *)
Definition trim (s : string) : string := trimStart (trimEnd s).

(** [s.startsWith(p)]. *)
Fixpoint startsWith (s p : string) : bool :=
  match p with
  | EmptyString => true
  | String pc p' =>
      match s with
      | EmptyString => false
      | String sc s' => Ascii.eqb sc pc && startsWith s' p'
      end
  end.

(** [s.includes(p)]. *)
Fixpoint includes (s p : string) : bool :=
  startsWith s p ||
  match s with
  | EmptyString => false
  | String _ s' => includes s' p
  end.

(** [s.endsWith(p)]. *)
Definition endsWith (s p : string) : bool :=
  (String.length p <=? String.length s)%nat &&
  String.eqb (substring (String.length s - String.length p) (String.length p) s) p.

(** The values an entry's [deviceCount] can hold: a spreadsheet cell is a
    number or a text, and the property may be absent. *)
Inductive value : Type :=
| undefined : value
| Num (z : Z) : value
| Str (s : string) : value.

(** ToBoolean. *)
Definition truthy (v : value) : bool :=
  match v with
  | undefined => false
  | Num z => negb (z =? 0)%Z
  | Str s => negb (String.eqb s "")
  end.

(** [a || b]. *)
Definition or (a b : value) : value := if truthy a then a else b.

(** [o || d] for a nullable text column [o] and a string literal [d]. *)
Definition or_string (o : option string) (d : string) : string :=
  match o with
  | Some s => if String.eqb s "" then d else s
  | None => d
  end.

(** [n || d] for a number [n] and a number literal [d]: NaN and 0 are
    falsy. *)
Definition or_number (n : option Z) (d : Z) : Z :=
  match n with
  | Some z => if (z =? 0)%Z then d else z
  | None => d
  end.

(** [o || null] for a nullable text and for a nullable number. *)
Definition or_null (o : option string) : option string :=
  match o with
  | Some s => if String.eqb s "" then None else Some s
  | None => None
  end.

Definition or_null_number (o : option Z) : option Z :=
  match o with
  | Some z => if (z =? 0)%Z then None else Some z
  | None => None
  end.

(** ToString. *)
Definition ToString (v : value) : string :=
  match v with
  | undefined => "undefined"
  | Num z => NilZero.string_of_int (Z.to_int z)
  | Str s => s
  end.

(** The value of a digit in the given radix, if it is one. *)
Definition digit_value (radix : Z) (c : ascii) : option Z :=
  let n := Z.of_nat (nat_of_ascii c) in
  let d :=
    if (48 <=? n)%Z && (n <=? 57)%Z then Some (n - 48)%Z
    else if (97 <=? n)%Z && (n <=? 122)%Z then Some (n - 87)%Z
    else if (65 <=? n)%Z && (n <=? 90)%Z then Some (n - 55)%Z
    else None in
  match d with
  | Some k => if (k <? radix)%Z then Some k else None
  | None => None
  end.

(** The longest prefix of digits, read in the radix; [None] when it is
    empty.  [acc] is the value read so far, [seen] whether a digit was. *)
Fixpoint read_digits (radix : Z) (s : string) (acc : Z) (seen : bool) : option Z :=
  match s with
  | EmptyString => if seen then Some acc else None
  | String c s' =>
      match digit_value radix c with
      | Some d => read_digits radix s' (acc * radix + d)%Z true
      | None => if seen then Some acc else None
      end
  end.

(** [parseInt(string)] with the radix left out: leading white space is
    skipped, a sign is read, [0x]/[0X] selects radix 16, and the longest
    prefix of digits gives the result; NaN when there is none. *)
Definition parseInt_string (inputString : string) : option Z :=
  let s := trimStart inputString in
  let '(sign, s1) :=
    match s with
    | String "-" r => ((-1)%Z, r)
    | String "+" r => (1%Z, r)
    | _ => (1%Z, s)
    end in
  let '(radix, s2) :=
    match s1 with
    | String "0" (String "x" r) => (16%Z, r)
    | String "0" (String "X" r) => (16%Z, r)
    | _ => (10%Z, s1)
    end in
  match read_digits radix s2 0%Z false with
  | Some n => Some (sign * n)%Z
  | None => None
  end.

(** [parseInt(v)]. *)
Definition parseInt (v : value) : option Z := parseInt_string (ToString v).

(** Every character a digit of the radix, and at least one. *)
Fixpoint read_all_digits (radix : Z) (s : string) (acc : Z) (seen : bool) : option Z :=
  match s with
  | EmptyString => if seen then Some acc else None
  | String c s' =>
      match digit_value radix c with
      | Some d => read_all_digits radix s' (acc * radix + d)%Z true
      | None => None
      end
  end.

(** StringToNumber on the integer literals: surrounding white space is
    dropped, the empty string is 0, then an unsigned [0x], [0o] or [0b]
    literal or an optionally signed decimal integer; any other text is NaN
    here.  (A fraction or an exponent denotes a number that the integers of
    this embedding do not represent; no statement below is applied to such
    a text.) *)
Definition StringToNumber (str : string) : option Z :=
  match trim str with
  | EmptyString => Some 0%Z
  | String "0" (String "x" r) | String "0" (String "X" r) => read_all_digits 16 r 0%Z false
  | String "0" (String "o" r) | String "0" (String "O" r) => read_all_digits 8 r 0%Z false
  | String "0" (String "b" r) | String "0" (String "B" r) => read_all_digits 2 r 0%Z false
  | String "-" r => option_map Z.opp (read_all_digits 10 r 0%Z false)
  | String "+" r => read_all_digits 10 r 0%Z false
  | s => read_all_digits 10 s 0%Z false
  end.

(** ToNumber. *)
Definition ToNumber (v : value) : option Z :=
  match v with
  | undefined => None
  | Num z => Some z
  | Str s => StringToNumber s
  end.

(** [a - b]: NaN as soon as one side is. *)
Definition minus (a b : value) : option Z :=
  match ToNumber a, ToNumber b with
  | Some x, Some y => Some (x - y)%Z
  | _, _ => None
  end.

End JS.

(** The Error objects that the code can see thrown: by [new RegExp], by a
    call of something that is not a function, and by [pool.query]. *)
Inductive Exn : Type :=
| SyntaxError (message : string)
| TypeError (message : string)
| DatabaseError (message : string).

(** The built-ins taken as parameters.  [RegExp_new pattern flags] is
    [new RegExp(pattern, flags)], [None] when the constructor throws a
    SyntaxError; [RegExp_test re s] is [re.test(s)] for a regular expression
    without the global or sticky flag; [localeCompare a b] is
    [a.localeCompare(b)]; [inspect e] is the text that the console prints for
    the Error object [e] passed as an argument of its own: its stack, which
    begins with its name and message, and its further properties. *)
Class Runtime : Type := {
  RegExp : Type;
  RegExp_new : string -> string -> option RegExp;
  RegExp_test : RegExp -> string -> bool;
  localeCompare : string -> string -> Z;
  inspect : Exn -> string
}.

(** [Map]: keys in insertion order, compared as strings. *)
Module JSMap.
Definition t (V : Type) : Type := list (string * V).

Definition empty {V} : t V := [].

Fixpoint get {V} (k : string) (m : t V) : option V :=
  match m with
  | [] => None
  | (k', v) :: m' => if String.eqb k' k then Some v else get k m'
  end.

Definition has {V} (k : string) (m : t V) : bool :=
  match get k m with Some _ => true | None => false end.

(** [m.set(k, v)]: an existing key keeps its place. *)
Fixpoint set {V} (k : string) (v : V) (m : t V) : t V :=
  match m with
  | [] => [(k, v)]
  | (k', v') :: m' => if String.eqb k' k then (k', v) :: m' else (k', v') :: set k v m'
  end.

(** The object stored under [k] is mutated in place by [f]. *)
Fixpoint mutate {V} (k : string) (f : V -> V) (m : t V) : t V :=
  match m with
  | [] => []
  | (k', v) :: m' => if String.eqb k' k then (k', f v) :: m' else (k', v) :: mutate k f m'
  end.

Definition values {V} (m : t V) : list V := map snd m.
End JSMap.

(** [Array.prototype.sort(comparefn)].  A NaN returned by the comparator counts
    as 0.  ECMAScript fixes the result only for a consistent comparator, for
    which it is the stable sorted permutation; this stable insertion sort
    computes that permutation, and on other comparators it is one of the
    orders an implementation may produce. *)
Module JSArray.
Section Sort.
Context {A : Type} (comparefn : A -> A -> option Z).

Definition SortCompare (x y : A) : Z :=
  match comparefn x y with Some v => v | None => 0%Z end.

(** [x] may stand before [y]. *)
Definition before (x y : A) : Prop := (SortCompare x y <= 0)%Z.

Fixpoint insert (x : A) (l : list A) : list A :=
  match l with
  | [] => [x]
  | y :: l' => if (0 <? SortCompare x y)%Z then y :: insert x l' else x :: l
  end.

Fixpoint sort (l : list A) : list A :=
  match l with
  | [] => []
  | x :: l' => insert x (sort l')
  end.
End Sort.
End JSArray.

(** ** Rows of the tables (schema.sql) *)

Module ExclusionRule.
Record t : Type := mk {
  id : Z;
  pattern_type : string;
  pattern_value : string;
  category : string;
  reason : option string;
  is_active : bool
}.
End ExclusionRule.

Module MappingRule.
Record t : Type := mk {
  id : Z;
  original_pattern : string;
  pattern_type : string;
  canonical_name : string;
  category : option string;
  deployment_type : option string;
  description : option string;
  is_active : bool
}.
End MappingRule.

(** Modelled from the spec: the table [disposition_mappings] has no CREATE
    TABLE in schema.sql.  A row is the DispositionRecord of the specification,
    keyed by its canonical name, with the columns that the queries of the
    handler name. *)
Module DispositionMapping.
Record t : Type := mk {
  canonical_name : string;
  disposition : option string;
  approved_software_id : option Z;
  notes : option string;
  updated_by : option string
}.
End DispositionMapping.

(** Modelled from the spec: the table [approved_software], the
    approved-software record that a disposition refers to, has no CREATE
    TABLE in schema.sql either; the columns are those the handler selects. *)
Module ApprovedSoftware.
Record t : Type := mk {
  id : Z;
  name : string;
  category : option string
}.
End ApprovedSoftware.

Module AnalysisHistory.
Record t : Type := mk {
  upload_filename : string;
  agency_name : option string;
  input_count : nat;
  output_count : nat;
  excluded_count : nat;
  status : string
}.
End AnalysisHistory.

(** The tables, each a list of rows in the order of their [id]. *)
Record Database : Type := mkDatabase {
  exclusion_rules : list ExclusionRule.t;
  software_mappings : list MappingRule.t;
  disposition_mappings : list DispositionMapping.t;
  approved_software : list ApprovedSoftware.t;
  analysis_history : list AnalysisHistory.t
}.

(** The fields of the [analyzer] object that [loadRules] assigns. *)
Record Analyzer : Type := mkAnalyzer {
  exclusionRules : list ExclusionRule.t;
  mappingRules : list MappingRule.t
}.

(** What a run acts on: the database behind [pool], the availability of the
    store for the queries to come ([true]: the next query is rejected; past
    the end of the list every query succeeds), the analyzer object and the
    lines written to the console. *)
Record World : Type := mkWorld {
  db : Database;
  outages : list bool;
  analyzer : Analyzer;
  console : list string
}.

Inductive Outcome (A : Type) : Type :=
| Normal (a : A)
| Throw (e : Exn).
Arguments Normal {A} a.
Arguments Throw {A} e.

(** ** The monad of effectful code *)

Definition M (A : Type) : Type := World -> Outcome A * World.

Definition ret {A} (a : A) : M A := fun w => (Normal a, w).

Definition bind {A B} (m : M A) (k : A -> M B) : M B :=
  fun w => match m w with
           | (Normal a, w') => k a w'
           | (Throw e, w') => (Throw e, w')
           end.

Definition throw {A} (e : Exn) : M A := fun w => (Throw e, w).

(** [try { body } catch (e) { handler }]. *)
Definition try_catch {A} (body : M A) (handler : Exn -> M A) : M A :=
  fun w => match body w with
           | (Throw e, w') => handler e w'
           | r => r
           end.

Declare Scope js_scope.
Delimit Scope js_scope with js.
Notation "x <- m ;; k" := (bind m (fun x => k))
  (at level 100, m at next level, right associativity) : js_scope.
Notation "m ;;; k" := (bind m (fun _ => k))
  (at level 100, right associativity) : js_scope.
Local Open Scope js_scope.

Definition warn (w : World) (lines : list string) : World :=
  mkWorld (db w) (outages w) (analyzer w) (console w ++ lines).

Definition console_warn (line : string) : M unit :=
  fun w => (Normal tt, warn w [line]).

(** [await pool.query(...)]: the statement [run] is executed on the database
    unless the store rejects the query. *)
Definition pool_query {A} (run : Database -> A * Database) : M A :=
  fun w =>
    match outages w with
    | true :: rest =>
        (Throw (DatabaseError "connection refused"),
         mkWorld (db w) rest (analyzer w) (console w))
    | false :: rest =>
        let '(a, d) := run (db w) in (Normal a, mkWorld d rest (analyzer w) (console w))
    | [] =>
        let '(a, d) := run (db w) in (Normal a, mkWorld d [] (analyzer w) (console w))
    end.

(** A for-of loop whose body returns the next value of the local variables. *)
Fixpoint for_of {A S} (l : list A) (body : A -> S -> M S) (s : S) : M S :=
  match l with
  | [] => ret s
  | x :: l' => s' <- body x s ;; for_of l' body s'
  end.

(** ** Objects of an analysis run *)

(** An element of [softwareList]: its three properties as the handler sets
    them, each a cell of the sheet or a default, so a text, a number or
    nothing. *)
Module Item.
Record t : Type := mk {
  name : JS.value;
  publisher : JS.value;
  deviceCount : JS.value
}.
End Item.

(** [{ name, publisher, deviceCount }], as pushed to [originalEntries] and to
    [unmapped]. *)
Module Entry.
Record t : Type := mk {
  name : string;
  publisher : JS.value;
  deviceCount : JS.value
}.
End Entry.

(** [{ name, reason, ruleReason }], as pushed to [excluded]. *)
Module Excluded.
Record t : Type := mk {
  name : string;
  reason : string;
  ruleReason : option string
}.
End Excluded.

Module Aggregate.
Record t : Type := mk {
  canonicalName : string;
  category : string;
  deploymentType : string;
  description : string;
  originalEntries : list Entry.t
}.

(** [aggregate.originalEntries.push(e)]. *)
Definition push (e : Entry.t) (a : t) : t :=
  mk (canonicalName a) (category a) (deploymentType a) (description a)
     (originalEntries a ++ [e]).
End Aggregate.

Record Results : Type := mkResults {
  included : JSMap.t Aggregate.t;
  excluded : list Excluded.t;
  unmapped : list Entry.t
}.

(** What [shouldExclude] returns: [{ excluded: true, rule }] or
    [{ excluded: false }]. *)
Inductive ExclusionCheck : Type :=
| IsExcluded (rule : ExclusionRule.t)
| NotExcluded.

(** ** class SoftwareAnalyzer *)

Section SoftwareAnalyzer.
Context {runtime : Runtime}.

Definition set_exclusionRules (rows : list ExclusionRule.t) : M unit :=
  fun w => (Normal tt,
            mkWorld (db w) (outages w) (mkAnalyzer rows (mappingRules (analyzer w))) (console w)).

Definition set_mappingRules (rows : list MappingRule.t) : M unit :=
  fun w => (Normal tt,
            mkWorld (db w) (outages w) (mkAnalyzer (exclusionRules (analyzer w)) rows) (console w)).

Definition this : M Analyzer := fun w => (Normal (analyzer w), w).

(** [SELECT * FROM exclusion_rules WHERE is_active = true ORDER BY id]. *)
Definition select_active_exclusion_rules (d : Database) : list ExclusionRule.t * Database :=
  (filter ExclusionRule.is_active (exclusion_rules d), d).

(** [SELECT * FROM software_mappings WHERE is_active = true ORDER BY id]. *)
Definition select_active_software_mappings (d : Database) : list MappingRule.t * Database :=
  (filter MappingRule.is_active (software_mappings d), d).

Definition loadRules : M unit :=
  exclusionResult <- pool_query select_active_exclusion_rules ;;
  set_exclusionRules exclusionResult ;;;
  mappingResult <- pool_query select_active_software_mappings ;;
  set_mappingRules mappingResult.

(** [new RegExp(pattern, flags)]. *)
Definition new_RegExp (pattern flags : string) : M RegExp :=
  match RegExp_new pattern flags with
  | Some regex => ret regex
  | None => throw (SyntaxError ("Invalid regular expression: /" ++ pattern ++ "/"))
  end.

(** The case [regex] of both switches. *)
Definition regex_case (pattern name : string) : M bool :=
  try_catch
    (regex <- new_RegExp pattern "i" ;;
     ret (RegExp_test regex name))
    (fun e =>
       console_warn ("Invalid regex pattern: " ++ pattern) ;;;
       ret false).

(** The switch of [shouldExclude]: the value of [matches] after it. *)
Definition exclusion_switch (rule : ExclusionRule.t) (name : string) : M bool :=
  let pattern := ExclusionRule.pattern_value rule in
  let pattern_type := ExclusionRule.pattern_type rule in
  if String.eqb pattern_type "exact" then
    ret (String.eqb (JS.toLowerCase name) (JS.toLowerCase pattern))
  else if String.eqb pattern_type "contains" then
    ret (JS.includes (JS.toLowerCase name) (JS.toLowerCase pattern))
  else if String.eqb pattern_type "startswith" then
    ret (JS.startsWith (JS.toLowerCase name) (JS.toLowerCase pattern))
  else if String.eqb pattern_type "endswith" then
    ret (JS.endsWith (JS.toLowerCase name) (JS.toLowerCase pattern))
  else if String.eqb pattern_type "regex" then
    regex_case pattern name
  else ret false.

Fixpoint shouldExclude_loop (rules : list ExclusionRule.t) (name : string) : M ExclusionCheck :=
  match rules with
  | [] => ret NotExcluded
  | rule :: rest =>
      matches <- exclusion_switch rule name ;;
      if (matches : bool) then ret (IsExcluded rule)
      else shouldExclude_loop rest name
  end.

Definition shouldExclude (softwareName : string) : M ExclusionCheck :=
  let name := JS.trim softwareName in
  self <- this ;;
  shouldExclude_loop (exclusionRules self) name.

(** The switch of [findMapping]; it has no case [endswith]. *)
Definition mapping_switch (rule : MappingRule.t) (name : string) : M bool :=
  let pattern := MappingRule.original_pattern rule in
  let pattern_type := MappingRule.pattern_type rule in
  if String.eqb pattern_type "exact" then
    ret (String.eqb (JS.toLowerCase name) (JS.toLowerCase pattern))
  else if String.eqb pattern_type "contains" then
    ret (JS.includes (JS.toLowerCase name) (JS.toLowerCase pattern))
  else if String.eqb pattern_type "startswith" then
    ret (JS.startsWith (JS.toLowerCase name) (JS.toLowerCase pattern))
  else if String.eqb pattern_type "regex" then
    regex_case pattern name
  else ret false.

Fixpoint findMapping_loop (rules : list MappingRule.t) (name : string) : M (option MappingRule.t) :=
  match rules with
  | [] => ret None
  | rule :: rest =>
      matches <- mapping_switch rule name ;;
      if (matches : bool) then ret (Some rule)
      else findMapping_loop rest name
  end.

Definition findMapping (softwareName : string) : M (option MappingRule.t) :=
  let name := JS.trim softwareName in
  self <- this ;;
  findMapping_loop (mappingRules self) name.

(** The object that seeds a new aggregate. *)
Definition new_aggregate (mapping : MappingRule.t) : Aggregate.t :=
  Aggregate.mk (MappingRule.canonical_name mapping)
    (JS.or_string (MappingRule.category mapping) "Uncategorized")
    (JS.or_string (MappingRule.deployment_type mapping) "Desktop")
    (JS.or_string (MappingRule.description mapping) "")
    [].

(** The body of the loop of [analyze].  [item.name?.trim()] is undefined for
    a missing name and the trimmed text for a text; a number has no method
    [trim], and the call throws the TypeError of a callee that is not a
    function. *)
Definition analyze_item (item : Item.t) (results : Results) : M Results :=
  match Item.name item with
  | JS.undefined => ret results
  | JS.Num _ => throw (TypeError "item.name?.trim is not a function")
  | JS.Str text =>
      let name := JS.trim text in
      if String.eqb name "" then ret results
      else
        exclusionCheck <- shouldExclude name ;;
        match exclusionCheck with
        | IsExcluded rule =>
            ret (mkResults (included results)
                   (excluded results ++
                      [Excluded.mk name (ExclusionRule.category rule) (ExclusionRule.reason rule)])
                   (unmapped results))
        | NotExcluded =>
            mapping <- findMapping name ;;
            match mapping with
            | Some mapping =>
                let canonicalName := MappingRule.canonical_name mapping in
                let seeded :=
                  if negb (JSMap.has canonicalName (included results))
                  then JSMap.set canonicalName (new_aggregate mapping) (included results)
                  else included results in
                ret (mkResults
                       (JSMap.mutate canonicalName
                          (Aggregate.push
                             (Entry.mk name (Item.publisher item) (Item.deviceCount item)))
                          seeded)
                       (excluded results)
                       (unmapped results))
            | None =>
                ret (mkResults (included results) (excluded results)
                       (unmapped results ++
                          [Entry.mk name (Item.publisher item) (Item.deviceCount item)]))
            end
        end
  end.

Definition analyze (softwareList : list Item.t) : M Results :=
  loadRules ;;;
  for_of softwareList analyze_item (mkResults JSMap.empty [] []).

End SoftwareAnalyzer.

(** ** The handler of POST /api/analyze, from [softwareList] on *)

(** An element of [includedArray]: the aggregate spread, and the two derived
    fields. *)
Module Included.
Record t : Type := mk {
  item : Aggregate.t;
  originalCount : nat;
  totalDevices : Z
}.
Definition canonicalName (i : t) : string := Aggregate.canonicalName (item i).
End Included.

(** A value of [dispositionMap]. *)
Module Disposition.
Record t : Type := mk {
  disposition : option string;
  replacementId : option Z;
  replacementName : option string;
  replacementCategory : option string;
  notes : option string
}.
End Disposition.

(** A row of the SELECT that joins [disposition_mappings] to
    [approved_software]. *)
Module DispositionRow.
Record t : Type := mk {
  dm : DispositionMapping.t;
  replacement_name : option string;
  replacement_category : option string
}.
End DispositionRow.

(** An element of [includedWithDisposition]. *)
Module Enriched.
Record t : Type := mk {
  item : Included.t;
  disposition : string;
  replacementId : option Z;
  replacementName : option string;
  dispositionNotes : option string
}.
Definition canonicalName (i : t) : string := Included.canonicalName (item i).
End Enriched.

Record Summary : Type := mkSummary {
  totalInput : nat;
  totalOutput : nat;
  summary_excluded : nat;
  summary_unmapped : nat;
  pendingDisposition : nat
}.

(** The body passed to [res.json]. *)
Module Response.
Record t : Type := mk {
  success : bool;
  agency : option string;
  summary : Summary;
  included : list Enriched.t;
  excluded : list Excluded.t;
  unmapped : list Entry.t
}.
End Response.

Inductive HttpResponse : Type :=
| Json (body : Response.t)
| Status500 (error : string).

Definition message (e : Exn) : string :=
  match e with SyntaxError m => m | TypeError m => m | DatabaseError m => m end.

(** [entries.reduce((sum, e) => sum + (parseInt(e.deviceCount) || 1), 0)]. *)
Definition sum_devices (entries : list Entry.t) : Z :=
  fold_left (fun sum e => (sum + JS.or_number (JS.parseInt (Entry.deviceCount e)) 1)%Z)
            entries 0%Z.

Definition includedArray (results : Results) : list Included.t :=
  map (fun item =>
         Included.mk item
           (List.length (Aggregate.originalEntries item))
           (sum_devices (Aggregate.originalEntries item)))
      (JSMap.values (included results)).

(** The LEFT JOIN of one row of [disposition_mappings]. *)
Definition left_join (d : Database) (dm : DispositionMapping.t) : list DispositionRow.t :=
  let unmatched := [DispositionRow.mk dm None None] in
  match DispositionMapping.approved_software_id dm with
  | None => unmatched
  | Some k =>
      match filter (fun aps => (ApprovedSoftware.id aps =? k)%Z) (approved_software d) with
      | [] => unmatched
      | matched =>
          map (fun aps =>
                 DispositionRow.mk dm (Some (ApprovedSoftware.name aps))
                   (ApprovedSoftware.category aps))
              matched
      end
  end.

(** [SELECT dm.*, aps.name, aps.category FROM disposition_mappings dm LEFT
    JOIN approved_software aps ... WHERE dm.canonical_name = ANY($1)]. *)
Definition select_dispositions (canonicalNames : list string) (d : Database)
  : list DispositionRow.t * Database :=
  (flat_map (left_join d)
     (filter (fun dm => existsb (String.eqb (DispositionMapping.canonical_name dm)) canonicalNames)
        (disposition_mappings d)),
   d).

(** [INSERT INTO disposition_mappings (canonical_name, disposition,
    updated_by) VALUES ($1, 'pending', 'system') ON CONFLICT (canonical_name)
    DO NOTHING]. *)
Definition insert_pending (name : string) (d : Database) : unit * Database :=
  if existsb (fun dm => String.eqb (DispositionMapping.canonical_name dm) name)
       (disposition_mappings d)
  then (tt, d)
  else (tt,
        mkDatabase (exclusion_rules d) (software_mappings d)
          (disposition_mappings d ++
             [DispositionMapping.mk name (Some "pending") None None (Some "system")])
          (approved_software d) (analysis_history d)).

Definition insert_history (row : AnalysisHistory.t) (d : Database) : unit * Database :=
  (tt,
   mkDatabase (exclusion_rules d) (software_mappings d) (disposition_mappings d)
     (approved_software d) (analysis_history d ++ [row])).

Section Handler.
Context {runtime : Runtime}.

(** The body of [dispResult.rows.forEach]. *)
Definition set_row (dispositionMap : JSMap.t Disposition.t) (row : DispositionRow.t)
  : JSMap.t Disposition.t :=
  JSMap.set (DispositionMapping.canonical_name (DispositionRow.dm row))
    (Disposition.mk
       (DispositionMapping.disposition (DispositionRow.dm row))
       (DispositionMapping.approved_software_id (DispositionRow.dm row))
       (DispositionRow.replacement_name row)
       (DispositionRow.replacement_category row)
       (DispositionMapping.notes (DispositionRow.dm row)))
    dispositionMap.

Definition set_rows (rows : list DispositionRow.t) : JSMap.t Disposition.t :=
  fold_left set_row rows JSMap.empty.

Definition fetch_dispositions (canonicalNames : list string) : M (JSMap.t Disposition.t) :=
  if (0 <? List.length canonicalNames)%nat then
    try_catch
      (dispResult <- pool_query (select_dispositions canonicalNames) ;;
       ret (set_rows dispResult))
      (fun dispErr =>
         console_warn ("Could not fetch dispositions: " ++ message dispErr) ;;;
         ret JSMap.empty)
  else ret JSMap.empty.

Definition pending : Disposition.t :=
  Disposition.mk (Some "pending") None None None None.

(** The body of the loop over [missingDispositions]. *)
Definition create_pending (name : string) (dispositionMap : JSMap.t Disposition.t)
  : M (JSMap.t Disposition.t) :=
  try_catch
    (pool_query (insert_pending name) ;;;
     ret (JSMap.set name pending dispositionMap))
    (fun insertErr => ret dispositionMap).

Definition create_missing (missingDispositions : list string)
    (dispositionMap : JSMap.t Disposition.t) : M (JSMap.t Disposition.t) :=
  for_of missingDispositions create_pending dispositionMap.

Definition with_disposition (dispositionMap : JSMap.t Disposition.t) (item : Included.t)
  : Enriched.t :=
  let found := JSMap.get (Included.canonicalName item) dispositionMap in
  Enriched.mk item
    (JS.or_string (match found with Some d => Disposition.disposition d | None => None end)
       "pending")
    (JS.or_null_number (match found with Some d => Disposition.replacementId d | None => None end))
    (JS.or_null (match found with Some d => Disposition.replacementName d | None => None end))
    (JS.or_null (match found with Some d => Disposition.notes d | None => None end)).

(** Lines 307-356 of the handler: from [includedArray] to
    [includedWithDisposition]. *)
Definition enrich (includedArray : list Included.t) : M (list Enriched.t) :=
  let canonicalNames := map Included.canonicalName includedArray in
  dispositionMap <- fetch_dispositions canonicalNames ;;
  let missingDispositions :=
    filter (fun name => negb (JSMap.has name dispositionMap)) canonicalNames in
  dispositionMap <- create_missing missingDispositions dispositionMap ;;
  ret (map (with_disposition dispositionMap) includedArray).

Definition log_history (row : AnalysisHistory.t) : M unit :=
  try_catch
    (pool_query (insert_history row))
    (fun dbErr => console_warn ("Could not log to history: " ++ message dbErr)).

(** The comparator of the sort of [included]. *)
Definition by_canonicalName (a b : Enriched.t) : option Z :=
  Some (localeCompare (Enriched.canonicalName a) (Enriched.canonicalName b)).

(** The comparator of the sort of [unmapped]:
    [(b.deviceCount || 0) - (a.deviceCount || 0)]. *)
Definition by_deviceCount_desc (a b : Entry.t) : option Z :=
  JS.minus (JS.or (Entry.deviceCount b) (JS.Num 0))
           (JS.or (Entry.deviceCount a) (JS.Num 0)).

(** [console.error(label, error)] with an Error object: the label, a space
    and the object as the console prints it. *)
Definition console_error (label : string) (error : Exn) : M unit :=
  console_warn (label ++ " " ++ inspect error).

(** The handler once [softwareList] is extracted from the upload. *)
Definition analyze_handler (originalname : string) (agencyName : option string)
    (softwareList : list Item.t) : M HttpResponse :=
  try_catch
    (results <- analyze softwareList ;;
     let includedArray := includedArray results in
     includedWithDisposition <- enrich includedArray ;;
     log_history
       (AnalysisHistory.mk originalname agencyName (List.length softwareList)
          (List.length includedArray) (List.length (excluded results)) "completed") ;;;
     ret (Json
            (Response.mk true agencyName
               (mkSummary (List.length softwareList)
                  (List.length includedWithDisposition)
                  (List.length (excluded results))
                  (List.length (unmapped results))
                  (List.length
                     (filter (fun i => String.eqb (Enriched.disposition i) "pending")
                        includedWithDisposition)))
               (JSArray.sort by_canonicalName includedWithDisposition)
               (excluded results)
               (JSArray.sort by_deviceCount_desc (unmapped results)))))
    (fun error =>
       console_error "Analysis error:" error ;;;
       ret (Status500 ("Analysis failed: " ++ message error))).

End Handler.

(** ** The handler of POST /api/analyze, from the sheet to [softwareList] *)

(** A row of [XLSX.utils.sheet_to_json]: the properties of the object in the
    order in which [Object.keys] enumerates them, each a header and the value
    of its cell, a number or a text. *)
Definition Row : Type := list (string * JS.value).

(** [Object.keys(row)]. *)
Definition keys (row : Row) : list string := map fst row.

(** [row[k]]. *)
Fixpoint property (row : Row) (k : string) : JS.value :=
  match row with
  | [] => JS.undefined
  | (k', v) :: row' => if String.eqb k' k then v else property row' k
  end.

(** The two tests that [findColumn] passes to [keys.find]. *)
Definition exact_key (name k : string) : bool :=
  String.eqb (JS.trim (JS.toLowerCase k)) (JS.toLowerCase name).

Definition partial_key (name k : string) : bool :=
  JS.includes (JS.toLowerCase k) (JS.toLowerCase name).

(** [if (match && row[match]) return row[match]]: the cell returned, if any,
    for the result [match] of [keys.find]. *)
Definition found_cell (row : Row) (found : option string) : option JS.value :=
  match found with
  | Some k =>
      if String.eqb k "" then None
      else if JS.truthy (property row k) then Some (property row k) else None
  | None => None
  end.

(** [findColumn(row, possibleNames)]; [None] is null. *)
Fixpoint findColumn (row : Row) (possibleNames : list string) : option JS.value :=
  match possibleNames with
  | [] => None
  | name :: rest =>
      match found_cell row (find (exact_key name) (keys row)) with
      | Some cell => Some cell
      | None =>
          match found_cell row (find (partial_key name) (keys row)) with
          | Some cell => Some cell
          | None => findColumn row rest
          end
      end
  end.

Definition customerColumns : list string :=
  ["customer name"; "customer"; "client name"; "client"; "agency name"; "agency"; "company";
   "organization"; "account name"; "account"].

(** [findAgencyInSheet(sheetData)]. *)
Definition findAgencyInSheet (sheetData : list Row) : option string :=
  match sheetData with
  | [] => None
  | firstRow :: _ =>
      match findColumn firstRow customerColumns with
      | Some agency =>
          if JS.truthy agency then Some (JS.trim (JS.ToString agency)) else None
      | None => None
      end
  end.

(** The loop over the sheets that looks for the agency: the value of
    [agencyName] after it, from its value before. *)
Fixpoint agency_of_sheets (sheets : list (list Row)) (agencyName : option string)
  : option string :=
  match sheets with
  | [] => agencyName
  | sheetData :: rest =>
      match findAgencyInSheet sheetData with
      | Some found => if String.eqb found "" then agency_of_sheets rest (Some found)
                      else Some found
      | None => agency_of_sheets rest None
      end
  end.

(** [found || fallback] for the result of [findColumn]. *)
Definition or_else (found : option JS.value) (fallback : JS.value) : JS.value :=
  match found with
  | Some cell => JS.or cell fallback
  | None => fallback
  end.

(** [Object.values(row)[0]]. *)
Definition first_value (row : Row) : JS.value :=
  match row with
  | [] => JS.undefined
  | (_, v) :: _ => v
  end.

(** The function mapped over the rows of the sheet. *)
Definition extract_item (row : Row) : Item.t :=
  let name := findColumn row ["software name"; "name"; "application"; "app name"; "program"] in
  let publisher := findColumn row ["publisher"; "software publisher"; "vendor"; "manufacturer"] in
  let deviceCount :=
    findColumn row ["number of devices"; "device count"; "count"; "devices"; "quantity"] in
  Item.mk (or_else name (first_value row))
             (or_else publisher (JS.Str ""))
             (or_else deviceCount (JS.Num 1)).

(** [data.map(...).filter(item => item.name)]. *)
Definition extract_softwareList (data : list Row) : list Item.t :=
  filter (fun item => JS.truthy (Item.name item)) (map extract_item data).

(** The handler from the rows of the chosen sheet on. *)
Definition analyze_sheet {runtime : Runtime} (originalname : string)
    (agencyName : option string) (data : list Row) : M HttpResponse :=
  analyze_handler originalname agencyName (extract_softwareList data).

(** ** The handler of POST /api/export/csv *)

(** An element of [data], as the client posts it: any of its properties may
    be missing. *)
Module ExportItem.
Record t : Type := mk {
  canonicalName : JS.value;
  category : JS.value;
  deploymentType : JS.value;
  disposition : JS.value;
  replacementName : JS.value;
  description : JS.value;
  originalCount : JS.value;
  totalDevices : JS.value;
  dispositionNotes : JS.value
}.
End ExportItem.

Definition csv_headers : list string :=
  ["Application Name"; "Category"; "Deployment Type"; "Disposition";
   "Hub Standard Replacement"; "Description"; "Original Entries"; "Total Devices"; "Notes"].

(** The cells of the row of an item. *)
Definition csv_row (item : ExportItem.t) : list JS.value :=
  [ExportItem.canonicalName item;
   ExportItem.category item;
   ExportItem.deploymentType item;
   JS.or (ExportItem.disposition item) (JS.Str "pending");
   JS.or (ExportItem.replacementName item) (JS.Str "");
   ExportItem.description item;
   ExportItem.originalCount item;
   ExportItem.totalDevices item;
   JS.or (ExportItem.dispositionNotes item) (JS.Str "")].

(** The double quote and the line feed. *)
Definition dquote : ascii := ascii_of_nat 34.
Definition line_feed : ascii := ascii_of_nat 10.

(** The [replace] of the cell, with the global pattern of the double quote:
    every double quote of the text is doubled. *)
Fixpoint double_quotes (s : string) : string :=
  match s with
  | EmptyString => EmptyString
  | String c s' =>
      if Ascii.eqb c dquote then String dquote (String dquote (double_quotes s'))
      else String c (double_quotes s')
  end.

(** [(cell || '').toString()]. *)
Definition cell_text (cell : JS.value) : string := JS.ToString (JS.or cell (JS.Str "")).

(** The cell between double quotes. *)
Definition csv_cell (cell : JS.value) : string :=
  String dquote (double_quotes (cell_text cell) ++ String dquote EmptyString).

(** [Array.prototype.join] on texts. *)
Fixpoint join (separator : string) (l : list string) : string :=
  match l with
  | [] => EmptyString
  | [x] => x
  | x :: l' => x ++ separator ++ join separator l'
  end.

Definition csv_line (row : list JS.value) : string := join "," (map csv_cell row).

(** [csvContent]; [today] is [new Date().toLocaleDateString()]. *)
Definition csv_content (agency : option string) (today : string) (data : list ExportItem.t)
  : string :=
  (match agency with
   | Some a =>
       if String.eqb a "" then ""
       else "Agency: " ++ a ++ String line_feed ("Export Date: " ++ today ++
            String line_feed (String line_feed ""))
   | None => ""
   end) ++
  join (String line_feed "") (join "," csv_headers :: map csv_line (map csv_row data)).

(** [agency.replace(/[^a-z0-9]/gi, '_')], one character. *)
Definition safe_char (c : ascii) : ascii :=
  let n := nat_of_ascii c in
  if (((48 <=? n) && (n <=? 57)) || ((65 <=? n) && (n <=? 90)) ||
      ((97 <=? n) && (n <=? 122)))%nat
  then c else "_"%char.

Fixpoint sanitize (s : string) : string :=
  match s with
  | EmptyString => EmptyString
  | String c s' => String (safe_char c) (sanitize s')
  end.

(** The file name of the Content-Disposition header; [isoDate] is
    [new Date().toISOString().split('T')[0]]. *)
Definition csv_filename (agency : option string) (isoDate : string) : string :=
  "software_analysis_" ++
  (match agency with
   | Some a => if String.eqb a "" then "" else sanitize a ++ "_"
   | None => ""
   end) ++ isoDate ++ ".csv".

(** ** The handler of GET /api/categories *)

(** [Array.from(new Set(l))]: the elements of [l] in the order of their first
    occurrence; [seen] holds the elements that the set has already. *)
Fixpoint Set_values (l seen : list string) : list string :=
  match l with
  | [] => []
  | x :: l' =>
      if existsb (String.eqb x) seen then Set_values l' seen
      else x :: Set_values l' (x :: seen)
  end.

(** The comparison of [Array.prototype.sort] called without a comparator, on
    texts: by code units. *)
Definition default_compare (x y : string) : option Z :=
  Some (match String.compare x y with
        | Lt => (-1)%Z
        | Eq => 0%Z
        | Gt => 1%Z
        end).

(** The values of a nullable column that are not null. *)
Definition not_null (l : list (option string)) : list string :=
  flat_map (fun o => match o with Some c => [c] | None => [] end) l.

Inductive CategoriesResponse : Type :=
| CategoriesJson (body : list string)
| CategoriesStatus500 (error : string).

Section Categories.

(** [SELECT DISTINCT category ... ORDER BY category] on the values of the
    column: which of two equal values stays and in what order they come is
    for the store and its collation to say. *)
Variable select_distinct_ordered : list string -> list string.

Definition select_exclusion_categories (d : Database) : list string * Database :=
  (select_distinct_ordered (map ExclusionRule.category (exclusion_rules d)), d).

Definition select_mapping_categories (d : Database) : list string * Database :=
  (select_distinct_ordered (not_null (map MappingRule.category (software_mappings d))), d).

Definition categories_handler : M CategoriesResponse :=
  try_catch
    (exclusionCats <- pool_query select_exclusion_categories ;;
     mappingCats <- pool_query select_mapping_categories ;;
     let allCats := Set_values (exclusionCats ++ mappingCats) [] in
     ret (CategoriesJson (JSArray.sort default_compare allCats)))
    (fun error => ret (CategoriesStatus500 (message error))).

End Categories.

(** ** What the loops compute, as functions

    The views below say what [shouldExclude], [findMapping] and the body of
    the loop of [analyze] return and what they write to the console; the
    lemmas [shouldExclude_run], [findMapping_run] and [analyze_item_run] prove
    that the code above computes exactly these. *)

Section Views.
Context {runtime : Runtime}.

Definition regex_matches (pattern name : string) : bool :=
  match RegExp_new pattern "i" with
  | Some regex => RegExp_test regex name
  | None => false
  end.

Definition regex_warnings (pattern : string) : list string :=
  match RegExp_new pattern "i" with
  | Some _ => []
  | None => [("Invalid regex pattern: " ++ pattern)%string]
  end.

Definition exclusion_matches (rule : ExclusionRule.t) (name : string) : bool :=
  let pattern := ExclusionRule.pattern_value rule in
  let pattern_type := ExclusionRule.pattern_type rule in
  if String.eqb pattern_type "exact" then
    String.eqb (JS.toLowerCase name) (JS.toLowerCase pattern)
  else if String.eqb pattern_type "contains" then
    JS.includes (JS.toLowerCase name) (JS.toLowerCase pattern)
  else if String.eqb pattern_type "startswith" then
    JS.startsWith (JS.toLowerCase name) (JS.toLowerCase pattern)
  else if String.eqb pattern_type "endswith" then
    JS.endsWith (JS.toLowerCase name) (JS.toLowerCase pattern)
  else if String.eqb pattern_type "regex" then
    regex_matches pattern name
  else false.

Definition exclusion_warnings (rule : ExclusionRule.t) : list string :=
  if String.eqb (ExclusionRule.pattern_type rule) "regex"
  then regex_warnings (ExclusionRule.pattern_value rule)
  else [].

Fixpoint first_exclusion (rules : list ExclusionRule.t) (name : string) : ExclusionCheck :=
  match rules with
  | [] => NotExcluded
  | rule :: rest =>
      if exclusion_matches rule name then IsExcluded rule else first_exclusion rest name
  end.

Fixpoint exclusion_log (rules : list ExclusionRule.t) (name : string) : list string :=
  match rules with
  | [] => []
  | rule :: rest =>
      exclusion_warnings rule ++
      (if exclusion_matches rule name then [] else exclusion_log rest name)
  end.

Definition mapping_matches (rule : MappingRule.t) (name : string) : bool :=
  let pattern := MappingRule.original_pattern rule in
  let pattern_type := MappingRule.pattern_type rule in
  if String.eqb pattern_type "exact" then
    String.eqb (JS.toLowerCase name) (JS.toLowerCase pattern)
  else if String.eqb pattern_type "contains" then
    JS.includes (JS.toLowerCase name) (JS.toLowerCase pattern)
  else if String.eqb pattern_type "startswith" then
    JS.startsWith (JS.toLowerCase name) (JS.toLowerCase pattern)
  else if String.eqb pattern_type "regex" then
    regex_matches pattern name
  else false.

Definition mapping_warnings (rule : MappingRule.t) : list string :=
  if String.eqb (MappingRule.pattern_type rule) "regex"
  then regex_warnings (MappingRule.original_pattern rule)
  else [].

Fixpoint first_mapping (rules : list MappingRule.t) (name : string) : option MappingRule.t :=
  match rules with
  | [] => None
  | rule :: rest =>
      if mapping_matches rule name then Some rule else first_mapping rest name
  end.

Fixpoint mapping_log (rules : list MappingRule.t) (name : string) : list string :=
  match rules with
  | [] => []
  | rule :: rest =>
      mapping_warnings rule ++
      (if mapping_matches rule name then [] else mapping_log rest name)
  end.

(** Where the loop of [analyze] puts an item. *)
Inductive Bucket : Type :=
| Skipped
| ToExcluded (rule : ExclusionRule.t)
| ToIncluded (mapping : MappingRule.t)
| ToUnmapped.

(** The name under which an item is classified, when it has one: its name
    trimmed, when that is a text and not blank. *)
Definition trimmed_name (item : Item.t) : option string :=
  match Item.name item with
  | JS.Str text => if String.eqb (JS.trim text) "" then None else Some (JS.trim text)
  | _ => None
  end.

Definition classify_name (a : Analyzer) (name : string) : Bucket :=
  match first_exclusion (exclusionRules a) name with
  | IsExcluded rule => ToExcluded rule
  | NotExcluded =>
      match first_mapping (mappingRules a) name with
      | Some mapping => ToIncluded mapping
      | None => ToUnmapped
      end
  end.

Definition classify (a : Analyzer) (item : Item.t) : Bucket :=
  match trimmed_name item with
  | None => Skipped
  | Some name => classify_name a name
  end.

(** The lines that classifying an item writes. *)
Definition item_log (a : Analyzer) (item : Item.t) : list string :=
  match trimmed_name item with
  | None => []
  | Some name =>
      exclusion_log (exclusionRules a) name ++
      match first_exclusion (exclusionRules a) name with
      | IsExcluded _ => []
      | NotExcluded => mapping_log (mappingRules a) name
      end
  end.

Definition entry_of (name : string) (item : Item.t) : Entry.t :=
  Entry.mk name (Item.publisher item) (Item.deviceCount item).

Definition add_contributor (mapping : MappingRule.t) (e : Entry.t)
    (m : JSMap.t Aggregate.t) : JSMap.t Aggregate.t :=
  let canonicalName := MappingRule.canonical_name mapping in
  JSMap.mutate canonicalName (Aggregate.push e)
    (if negb (JSMap.has canonicalName m)
     then JSMap.set canonicalName (new_aggregate mapping) m
     else m).

(** The results after an item. *)
Definition place (a : Analyzer) (item : Item.t) (results : Results) : Results :=
  match trimmed_name item with
  | None => results
  | Some name =>
      match classify a item with
      | Skipped => results
      | ToExcluded rule =>
          mkResults (included results)
            (excluded results ++
               [Excluded.mk name (ExclusionRule.category rule) (ExclusionRule.reason rule)])
            (unmapped results)
      | ToIncluded mapping =>
          mkResults (add_contributor mapping (entry_of name item) (included results))
            (excluded results) (unmapped results)
      | ToUnmapped =>
          mkResults (included results) (excluded results)
            (unmapped results ++ [entry_of name item])
      end
  end.

Definition place_all (a : Analyzer) (items : list Item.t) (results : Results) : Results :=
  fold_left (fun r item => place a item r) items results.

Definition log_all (a : Analyzer) (items : list Item.t) : list string :=
  flat_map (item_log a) items.

End Views.

(** ** Vocabulary of the statements *)

(** The name of the item is a text or is missing: what [analyze] can
    trim. *)
Definition text_name (item : Item.t) : Prop :=
  match Item.name item with
  | JS.Num _ => False
  | _ => True
  end.



(** The names under which the entries of a list are classified: the trimmed,
    non-empty ones, in order. *)
Definition classified_names (items : list Item.t) : list string :=
  flat_map (fun item => match trimmed_name item with Some n => [n] | None => [] end) items.

Definition excluded_names (r : Results) : list string :=
  map Excluded.name (excluded r).

(** The contributors of all the aggregates. *)
Definition contributors (r : Results) : list Entry.t :=
  flat_map Aggregate.originalEntries (JSMap.values (included r)).

Definition contributor_names (r : Results) : list string :=
  map Entry.name (contributors r).

Definition unmapped_names (r : Results) : list string :=
  map Entry.name (unmapped r).

Definition all_names (r : Results) : list string :=
  excluded_names r ++ contributor_names r ++ unmapped_names r.


Definition bucket_tag (b : Bucket) : nat :=
  match b with
  | Skipped => 0
  | ToExcluded _ => 1
  | ToIncluded _ => 2
  | ToUnmapped => 3
  end.

(** Every name in a bucket is one that the rules send there. *)
Definition well_placed {runtime : Runtime} (a : Analyzer) (r : Results) : Prop :=
  Forall (fun n => bucket_tag (classify_name a n) = 1) (excluded_names r) /\
  Forall (fun n => bucket_tag (classify_name a n) = 2) (contributor_names r) /\
  Forall (fun n => bucket_tag (classify_name a n) = 3) (unmapped_names r).

(** The world with other mapping rules in the analyzer. *)
Definition with_mappingRules (rows : list MappingRule.t) (w : World) : World :=
  mkWorld (db w) (outages w) (mkAnalyzer (exclusionRules (analyzer w)) rows) (console w).

(** The three fields that seed an aggregate. *)
Definition seeded_by (mapping : MappingRule.t) (a : Aggregate.t) : Prop :=
  Aggregate.category a = JS.or_string (MappingRule.category mapping) "Uncategorized" /\
  Aggregate.deploymentType a = JS.or_string (MappingRule.deployment_type mapping) "Desktop" /\
  Aggregate.description a = JS.or_string (MappingRule.description mapping) "".

(** The store accepts the two queries of [loadRules]. *)
Definition rules_load (w : World) : Prop :=
  hd false (outages w) = false /\ hd false (tl (outages w)) = false.

(** The analyzer object once [loadRules] has run. *)
Definition loaded_analyzer (w : World) : Analyzer :=
  mkAnalyzer (filter ExclusionRule.is_active (exclusion_rules (db w)))
             (filter MappingRule.is_active (software_mappings (db w))).

Definition after_load (w : World) : World :=
  mkWorld (db w) (tl (tl (outages w))) (loaded_analyzer w) (console w).

(** The same letter or not a letter: [d] is [c] with its case altered or
    kept. *)
Definition alter_case (c d : ascii) : Prop :=
  d = c \/ d = JS.toUpperCase_char c \/ d = JS.toLowerCase_char c.

(** Two strings that differ in the case of letters only. *)
Inductive case_variant : string -> string -> Prop :=
| cv_empty : case_variant EmptyString EmptyString
| cv_char (c d : ascii) (s t : string) :
    alter_case c d -> case_variant s t -> case_variant (String c s) (String d t).

(** Proves [case_variant] of two given strings. *)
Ltac same_letters :=
  repeat (apply cv_char;
          [first [left; reflexivity | right; left; reflexivity | right; right; reflexivity]|]);
  apply cv_empty.

(** An exclusion rule whose pattern, unless it is a regular expression, has
    the case of letters altered. *)
Definition exclusion_rule_variant (r r' : ExclusionRule.t) : Prop :=
  ExclusionRule.pattern_type r' = ExclusionRule.pattern_type r /\
  ExclusionRule.pattern_type r <> "regex" /\
  case_variant (ExclusionRule.pattern_value r) (ExclusionRule.pattern_value r').

Definition mapping_rule_variant (r r' : MappingRule.t) : Prop :=
  MappingRule.pattern_type r' = MappingRule.pattern_type r /\
  MappingRule.pattern_type r <> "regex" /\
  case_variant (MappingRule.original_pattern r) (MappingRule.original_pattern r').

(** The flag [i] of the runtime: a regular expression compiled with it does
    not tell letters of different case apart in the subject. *)
Definition ignoreCase_flag (runtime : Runtime) : Prop :=
  forall pattern regex, RegExp_new pattern "i" = Some regex ->
  forall s t, case_variant s t -> RegExp_test regex s = RegExp_test regex t.

(** [localeCompare] orders the strings: any two are comparable, and the
    order is transitive. *)
Definition collation (runtime : Runtime) : Prop :=
  (forall a b, (0 < localeCompare a b)%Z -> (localeCompare b a <= 0)%Z) /\
  (forall a b c, (localeCompare a b <= 0)%Z -> (localeCompare b c <= 0)%Z ->
                 (localeCompare a c <= 0)%Z).

(** What one entry adds to [totalDevices]: its parsed deviceCount, and 1
    when parsing gives NaN or 0. *)
Definition contribution (e : Entry.t) : Z :=
  match JS.parseInt (Entry.deviceCount e) with
  | None => 1%Z
  | Some 0%Z => 1%Z
  | Some z => z
  end.

(** The number that a decimal numeral denotes, most significant digit first,
    after the digits already read as [acc]. *)
Fixpoint uint_value (d : Decimal.uint) (acc : Z) : Z :=
  match d with
  | Decimal.Nil => acc
  | Decimal.D0 l => uint_value l (acc * 10 + 0)
  | Decimal.D1 l => uint_value l (acc * 10 + 1)
  | Decimal.D2 l => uint_value l (acc * 10 + 2)
  | Decimal.D3 l => uint_value l (acc * 10 + 3)
  | Decimal.D4 l => uint_value l (acc * 10 + 4)
  | Decimal.D5 l => uint_value l (acc * 10 + 5)
  | Decimal.D6 l => uint_value l (acc * 10 + 6)
  | Decimal.D7 l => uint_value l (acc * 10 + 7)
  | Decimal.D8 l => uint_value l (acc * 10 + 8)
  | Decimal.D9 l => uint_value l (acc * 10 + 9)
  end%Z.

(** The value the specification sums for an entry: its deviceCount, and 1
    when that is missing or not numeric. *)
Definition spec_deviceCount (v : JS.value) : Z :=
  match v with
  | JS.undefined => 1%Z
  | JS.Num z => z
  | JS.Str s => match JS.StringToNumber s with Some z => z | None => 1%Z end
  end.

Definition spec_totalDevices (entries : list Entry.t) : Z :=
  fold_right (fun e sum => (spec_deviceCount (Entry.deviceCount e) + sum)%Z) 0%Z entries.

(** The key of the sort of [unmapped]: the deviceCount, 0 when it is missing
    or zero; defined on the entries whose deviceCount is a number or
    missing. *)
Definition count_key (e : Entry.t) : option Z :=
  match Entry.deviceCount e with
  | JS.undefined => Some 0%Z
  | JS.Num z => Some z
  | JS.Str _ => None
  end.

Definition has_count_key (e : Entry.t) : Prop := count_key e <> None.

Definition count_desc (a b : Entry.t) : Prop :=
  match count_key a, count_key b with
  | Some x, Some y => (y <= x)%Z
  | _, _ => True
  end.

(** ** A runtime to run examples on

    It knows the patterns without a metacharacter, which match as
    substrings, and rejects every other pattern; it compares strings by their
    code units. *)
Module Literal.
Definition metacharacter (c : ascii) : bool :=
  existsb (Ascii.eqb c)
    ["\"; "^"; "$"; "."; "|"; "?"; "*"; "+"; "("; ")"; "["; "]"; "{"; "}"]%char.

Fixpoint literal (s : string) : bool :=
  match s with
  | EmptyString => true
  | String c s' => negb (metacharacter c) && literal s'
  end.

(** A compiled pattern: the text, and whether case is ignored. *)
Definition compile (pattern flags : string) : option (string * bool) :=
  if literal pattern then Some (pattern, String.eqb flags "i") else None.

Definition test (regex : string * bool) (s : string) : bool :=
  if snd regex then JS.includes (JS.toLowerCase s) (JS.toLowerCase (fst regex))
  else JS.includes s (fst regex).

Definition compare (a b : string) : Z :=
  match String.compare a b with
  | Lt => (-1)%Z
  | Eq => 0%Z
  | Gt => 1%Z
  end.

(** The first line of the stack: the name and the message. *)
Definition first_line (e : Exn) : string :=
  match e with
  | SyntaxError m => "SyntaxError: " ++ m
  | TypeError m => "TypeError: " ++ m
  | DatabaseError m => "error: " ++ m
  end.

Definition runtime : Runtime :=
  Build_Runtime (string * bool) compile test compare first_line.
End Literal.

(** ** A store and an upload to run examples on

    Rules taken from the defaults of schema.sql, with one inactive rule and,
    in each table, one rule whose regular expression is invalid. *)
Module Sample.
Definition security_update : ExclusionRule.t :=
  ExclusionRule.mk 1 "startswith" "Security Update for Microsoft" "Windows Updates"
    (Some "Microsoft security patches - not business applications") true.
Definition kb_article : ExclusionRule.t :=
  ExclusionRule.mk 4 "contains" "(KB" "Windows Updates"
    (Some "KB article updates - not business applications") true.
Definition dell : ExclusionRule.t :=
  ExclusionRule.mk 7 "startswith" "Dell " "OEM Tools"
    (Some "Dell manufacturer management software") true.
Definition spanish : ExclusionRule.t :=
  ExclusionRule.mk 17 "endswith" "- es-es" "Language Packs"
    (Some "Spanish language pack variant") true.
Definition driver : ExclusionRule.t :=
  ExclusionRule.mk 33 "contains" "Driver" "Drivers" (Some "Hardware driver packages") false.
Definition broken_exclusion : ExclusionRule.t :=
  ExclusionRule.mk 60 "regex" "(" "Custom" None true.

Definition ams360_client : MappingRule.t :=
  MappingRule.mk 1 "AMS360 Client Rev" "startswith" "AMS360" (Some "Industry / LOB")
    (Some "Both") (Some "Insurance agency management system by Vertafore") true.
Definition ams_transactnow : MappingRule.t :=
  MappingRule.mk 2 "AMS TransactNOW" "contains" "AMS360" (Some "Industry / LOB")
    (Some "Both") (Some "AMS360 transaction processing component") true.
Definition chrome : MappingRule.t :=
  MappingRule.mk 30 "Google Chrome" "startswith" "Google Chrome" (Some "Browser")
    (Some "Desktop") (Some "Google web browser") true.
Definition zoom : MappingRule.t :=
  MappingRule.mk 36 "Zoom Workplace" "startswith" "Zoom" None None None true.
Definition broken_mapping : MappingRule.t :=
  MappingRule.mk 70 "[" "regex" "Broken" None None None true.
Definition viewer : MappingRule.t :=
  MappingRule.mk 71 "Viewer" "endswith" "Viewers" None None None true.

Definition database : Database :=
  mkDatabase
    [security_update; kb_article; dell; spanish; driver; broken_exclusion]
    [ams360_client; ams_transactnow; chrome; zoom; broken_mapping]
    [DispositionMapping.mk "AMS360" (Some "replace") (Some 1%Z) (Some "moving to Epic")
       (Some "admin")]
    [ApprovedSoftware.mk 1 "Applied Epic" (Some "Industry / LOB")]
    [].

(** The store is up. *)
Definition world : World := mkWorld database [] (mkAnalyzer [] []) [].

(** The store goes down once the rules are loaded. *)
Definition world_down : World :=
  mkWorld database [false; false; true; true; true; true; true; true]
    (mkAnalyzer [] []) [].

Definition update_item : Item.t :=
  Item.mk (JS.Str "  Security Update for Microsoft Office (KB123) ") (JS.Str "Microsoft") (JS.Num 4).
Definition dell_item : Item.t :=
  Item.mk (JS.Str "Dell Command Update - es-es") (JS.Str "Dell") (JS.Num 2).
Definition transactnow_item : Item.t :=
  Item.mk (JS.Str "AMS TransactNOW 2.1") (JS.Str "Vertafore") (JS.Num 7).
Definition rev9_item : Item.t :=
  Item.mk (JS.Str "AMS360 Client Rev 9") (JS.Str "Vertafore") (JS.Num 3).
Definition rev10_item : Item.t :=
  Item.mk (JS.Str "AMS360 Client Rev 10") (JS.Str "Vertafore") (JS.Str "abc").
Definition unknown_item : Item.t :=
  Item.mk (JS.Str "TotallyUnknownApp") (JS.Str "") JS.undefined.
Definition nameless_item : Item.t := Item.mk JS.undefined (JS.Str "") (JS.Num 1).
Definition blank_item : Item.t := Item.mk (JS.Str "   ") (JS.Str "") (JS.Num 1).
Definition zoom_item : Item.t :=
  Item.mk (JS.Str "Zoom Workplace") (JS.Str "Zoom") (JS.Str "0").
Definition chrome_item : Item.t :=
  Item.mk (JS.Str "GOOGLE CHROME") (JS.Str "Google") (JS.Str "12abc").

Definition softwareList : list Item.t :=
  [update_item; dell_item; transactnow_item; rev9_item; rev10_item; unknown_item;
   nameless_item; blank_item; zoom_item; chrome_item].

(** Three entries that no rule matches, the second with a text for its
    deviceCount. *)
Definition unknownList : list Item.t :=
  [Item.mk (JS.Str "Unknown A") (JS.Str "") (JS.Num 3);
   Item.mk (JS.Str "Unknown B") (JS.Str "") (JS.Str "abc");
   Item.mk (JS.Str "Unknown C") (JS.Str "") (JS.Num 5)].

Definition no_results : Results := mkResults JSMap.empty [] [].

(** The analyzer once the rules of [world] are loaded, and the results of
    the loop of [analyze] over [softwareList]. *)
Definition loaded : World := after_load world.
Definition results : Results :=
  place_all (runtime := Literal.runtime) (loaded_analyzer world) softwareList no_results.

Definition zoom_entry : Entry.t := Entry.mk "Zoom Workplace" (JS.Str "Zoom") (JS.Str "0").
Definition zoom_included : Included.t :=
  Included.mk (Aggregate.mk "Zoom" "Uncategorized" "Desktop" "" [zoom_entry]) 1 1.
Definition chrome_included : Included.t :=
  Included.mk
    (Aggregate.mk "Google Chrome" "Browser" "Desktop" "Google web browser"
       [Entry.mk "GOOGLE CHROME" (JS.Str "Google") (JS.Str "12abc")])
    1 12.
End Sample.

(** ** A sheet and further uploads to run examples on *)
Module Upload.
Definition zoom_row : Row :=
  [("Software Name ", JS.Str "Zoom Workplace"); ("Publisher", JS.Str "Zoom");
   ("Device Count", JS.Num 3); ("Customer", JS.Str " Acme Insurance ")].

(** The same row under headers in upper case. *)
Definition zoom_row_upper : Row :=
  [("SOFTWARE NAME ", JS.Str "Zoom Workplace"); ("PUBLISHER", JS.Str "Zoom");
   ("DEVICE COUNT", JS.Num 3); ("CUSTOMER", JS.Str " Acme Insurance ")].

(** A row whose name cell is a number. *)
Definition year_row : Row :=
  [("Software Name", JS.Num 2024); ("Publisher", JS.Str "Acme"); ("Device Count", JS.Num 2)].

(** Entries whose deviceCount is a number or is missing. *)
Definition counted_list : list Item.t :=
  [Sample.unknown_item; Sample.rev9_item; Sample.transactnow_item; Sample.update_item;
   Item.mk (JS.Str "Another Unknown App") (JS.Str "") (JS.Num 5)].

(** The store rejects the second query of [loadRules]. *)
Definition world_half_loaded : World :=
  mkWorld Sample.database [false; true] (mkAnalyzer [] []) [].

Definition ams360_row : DispositionMapping.t :=
  DispositionMapping.mk "AMS360" (Some "replace") (Some 1%Z) (Some "moving to Epic")
    (Some "admin").

Definition ams360_included : Included.t :=
  Included.mk
    (Aggregate.mk "AMS360" "Industry / LOB" "Both"
       "Insurance agency management system by Vertafore"
       [Entry.mk "AMS360 Client Rev 9" (JS.Str "Vertafore") (JS.Num 3)])
    1 3.
End Upload.

(** ** Vocabulary of the further statements *)

(** What one item adds to [excluded], to [unmapped] and to the aggregate of
    the canonical name [c]. *)
Definition excluded_of {runtime : Runtime} (a : Analyzer) (item : Item.t) : list Excluded.t :=
  match trimmed_name item, classify a item with
  | Some name, ToExcluded rule =>
      [Excluded.mk name (ExclusionRule.category rule) (ExclusionRule.reason rule)]
  | _, _ => []
  end.

Definition unmapped_of {runtime : Runtime} (a : Analyzer) (item : Item.t) : list Entry.t :=
  match trimmed_name item, classify a item with
  | Some name, ToUnmapped => [entry_of name item]
  | _, _ => []
  end.

Definition contributed_to {runtime : Runtime} (a : Analyzer) (c : string) (item : Item.t)
  : list Entry.t :=
  match trimmed_name item, classify a item with
  | Some name, ToIncluded mapping =>
      if String.eqb (MappingRule.canonical_name mapping) c then [entry_of name item] else []
  | _, _ => []
  end.

(** The entries collected under a key of the Map, none when the key is
    absent. *)
Definition entries_at (c : string) (m : JSMap.t Aggregate.t) : list Entry.t :=
  match JSMap.get c m with
  | Some agg => Aggregate.originalEntries agg
  | None => []
  end.

(** The Map of aggregates is well formed: the keys are distinct, and under a
    key sits an aggregate of that canonical name with at least one entry. *)
Definition aggregates_wf (m : JSMap.t Aggregate.t) : Prop :=
  NoDup (map fst m) /\
  Forall (fun kv => Aggregate.canonicalName (snd kv) = fst kv /\
                    Aggregate.originalEntries (snd kv) <> []) m.

(** The row that the handler inserts for a canonical name without a
    disposition. *)
Definition pending_row (name : string) : DispositionMapping.t :=
  DispositionMapping.mk name (Some "pending") None None (Some "system").

(** The deviceCount of the item is a number or is missing. *)
Definition counted (item : Item.t) : Prop :=
  match Item.deviceCount item with
  | JS.Str _ => False
  | _ => True
  end.

(** From [d] to [d'] nothing happened to the tables but rows added to
    [disposition_mappings]: each a pending row for one of the [names] that
    had no row, and no two for the same name. *)
Definition only_pending_added (names : list string) (d d' : Database) : Prop :=
  exclusion_rules d' = exclusion_rules d /\
  software_mappings d' = software_mappings d /\
  approved_software d' = approved_software d /\
  analysis_history d' = analysis_history d /\
  exists added,
    disposition_mappings d' = disposition_mappings d ++ added /\
    Forall (fun row => exists c, In c names /\ row = pending_row c /\
                                 ~ In c (map DispositionMapping.canonical_name
                                           (disposition_mappings d))) added /\
    NoDup (map DispositionMapping.canonical_name added).

(** The name of the approved software that a disposition row refers to, as
    the LEFT JOIN of the fetch leaves it in [dispositionMap]: none without a
    reference or without a row of that id, and that of the last such row. *)
Definition joined_name (d : Database) (dm : DispositionMapping.t) : option string :=
  match DispositionMapping.approved_software_id dm with
  | None => None
  | Some k =>
      match filter (fun aps => (ApprovedSoftware.id aps =? k)%Z) (approved_software d) with
      | [] => None
      | aps :: rest => Some (ApprovedSoftware.name (last rest aps))
      end
  end.

(** The store accepts every query to come. *)
Definition store_up (w : World) : Prop := Forall (fun rejected => rejected = false) (outages w).

(** Two rows with the same cells under headers that differ in the case of
    letters only. *)
Definition row_variant (row row' : Row) : Prop :=
  Forall2 (fun kv kv' => case_variant (fst kv) (fst kv') /\ snd kv = snd kv') row row'.

(** The deviceCount of the item does not read as a negative number. *)
Definition no_negative_count (item : Item.t) : Prop :=
  match JS.parseInt (Item.deviceCount item) with
  | Some z => (0 <= z)%Z
  | None => True
  end.

(** The store answers a SELECT DISTINCT with the values of the column, each
    one at least once, and with nothing else. *)
Definition selects_values (select : list string -> list string) : Prop :=
  forall l x, In x (select l) <-> In x l.

(** Strictly ascending by code units. *)
Definition ascending (l : list string) : Prop :=
  StronglySorted (fun a b => String.compare a b = Lt) l.

(** A reader of one record of quoted fields, after RFC 4180: a field
    stands between double quotes, a doubled double quote inside is one double
    quote, fields are separated by commas; every other character, a comma or a
    line feed too, belongs to the field.  [None] for a text that is not such
    a record. *)
Inductive reader_state : Type := AtStart | InField | AfterQuote.

Fixpoint read_record (st : reader_state) (field : string) (s : string) : option (list string) :=
  match s with
  | EmptyString =>
      match st with
      | AfterQuote => Some [field]
      | _ => None
      end
  | String c s' =>
      match st with
      | AtStart =>
          if Ascii.eqb c dquote then read_record InField EmptyString s' else None
      | InField =>
          if Ascii.eqb c dquote then read_record AfterQuote field s'
          else read_record InField (field ++ String c EmptyString) s'
      | AfterQuote =>
          if Ascii.eqb c dquote
          then read_record InField (field ++ String dquote EmptyString) s'
          else if Ascii.eqb c ","%char
               then option_map (cons field) (read_record AtStart EmptyString s')
               else None
      end
  end.

(** A letter, a digit or the underscore. *)
Definition filename_safe (c : ascii) : Prop :=
  let n := nat_of_ascii c in
  (48 <= n <= 57) \/ (65 <= n <= 90) \/ (97 <= n <= 122) \/ n = 95.

Fixpoint all_chars (P : ascii -> Prop) (s : string) : Prop :=
  match s with
  | EmptyString => True
  | String c s' => P c /\ all_chars P s'
  end.

(** A line that [console.warn] writes for the pattern of an active rule of
    type regex that the constructor rejects. *)
Definition invalid_regex_line {runtime : Runtime} (a : Analyzer) (line : string) : Prop :=
  exists pattern,
    line = ("Invalid regex pattern: " ++ pattern)%string /\
    RegExp_new pattern "i" = None /\
    ((exists rule, In rule (exclusionRules a) /\ ExclusionRule.pattern_type rule = "regex" /\
                   ExclusionRule.pattern_value rule = pattern) \/
     (exists rule, In rule (mappingRules a) /\ MappingRule.pattern_type rule = "regex" /\
                   MappingRule.original_pattern rule = pattern)).

(** ** Facts about the built-ins *)

Lemma trimEnd_idempotent (s : string) : JS.trimEnd (JS.trimEnd s) = JS.trimEnd s.
Proof.
  induction s as [|c s IH]; simpl; [reflexivity|].
  destruct (JS.trimEnd s) as [|d t] eqn:E.
  - destruct (JS.isWhiteSpace c) eqn:W; simpl; [reflexivity|].
    rewrite W. reflexivity.
  - change (JS.trimEnd (String c (String d t))) with
      (match JS.trimEnd (String d t) with
       | EmptyString => if JS.isWhiteSpace c then EmptyString else String c EmptyString
       | u => String c u
       end).
    rewrite IH. reflexivity.
Qed.

Lemma trimEnd_tail (c : ascii) (t : string) :
  JS.trimEnd (String c t) = String c t -> JS.trimEnd t = t.
Proof.
  simpl. destruct (JS.trimEnd t) as [|d u] eqn:E.
  - destruct (JS.isWhiteSpace c); intros H; [discriminate|].
    injection H as H. exact H.
  - intros H. injection H as H. exact H.
Qed.

Lemma trimEnd_trimStart (t : string) :
  JS.trimEnd t = t -> JS.trimEnd (JS.trimStart t) = JS.trimStart t.
Proof.
  induction t as [|c t IH]; intros H; [reflexivity|].
  cbn [JS.trimStart]. destruct (JS.isWhiteSpace c); [|exact H].
  apply IH. exact (trimEnd_tail c t H).
Qed.

Lemma trimStart_idempotent (t : string) : JS.trimStart (JS.trimStart t) = JS.trimStart t.
Proof.
  induction t as [|c t IH]; [reflexivity|].
  cbn [JS.trimStart]. destruct (JS.isWhiteSpace c) eqn:W; [exact IH|].
  cbn [JS.trimStart]. rewrite W. reflexivity.
Qed.

(** Trimming a trimmed string changes nothing: [shouldExclude] and
    [findMapping] trim again the name that [analyze] has trimmed. *)
Lemma trim_idempotent (s : string) : JS.trim (JS.trim s) = JS.trim s.
Proof.
  unfold JS.trim.
  rewrite (trimEnd_trimStart (JS.trimEnd s) (trimEnd_idempotent s)).
  apply trimStart_idempotent.
Qed.

Lemma trimmed_name_trim (item : Item.t) (name : string) :
  trimmed_name item = Some name -> JS.trim name = name /\ name <> "".
Proof.
  unfold trimmed_name. destruct (Item.name item) as [|z|s]; simpl; try discriminate.
  destruct (String.eqb (JS.trim s) "") eqn:E; [discriminate|].
  intros H. injection H as <-. split; [apply trim_idempotent|].
  apply String.eqb_neq. exact E.
Qed.

Lemma trimmed_name_text (item : Item.t) (name : string) :
  trimmed_name item = Some name -> text_name item.
Proof.
  unfold trimmed_name, text_name. destruct (Item.name item); [discriminate|discriminate|].
  intros _. exact I.
Qed.


(** A list with a name that is not a text has a first such item. *)
Lemma first_numeric_name (items : list Item.t) :
  ~ Forall text_name items ->
  exists pre item post z,
    items = pre ++ item :: post /\ Forall text_name pre /\ Item.name item = JS.Num z.
Proof.
  induction items as [|item items IH]; intros N; [exfalso; apply N; constructor|].
  destruct (Item.name item) as [|z|text] eqn:E.
  - destruct IH as (pre & it & post & z & -> & F & Hz).
    { intros F. apply N. constructor; [unfold text_name; rewrite E; exact I|exact F]. }
    exists (item :: pre), it, post, z. split; [reflexivity|]. split; [|exact Hz].
    constructor; [unfold text_name; rewrite E; exact I|exact F].
  - exists [], item, items, z. split; [reflexivity|]. split; [constructor|exact E].
  - destruct IH as (pre & it & post & z & -> & F & Hz).
    { intros F. apply N. constructor; [unfold text_name; rewrite E; exact I|exact F]. }
    exists (item :: pre), it, post, z. split; [reflexivity|]. split; [|exact Hz].
    constructor; [unfold text_name; rewrite E; exact I|exact F].
Qed.

(** ** Running the code: each function computes its view *)

Lemma warn_nil (w : World) : warn w [] = w.
Proof. destruct w. unfold warn. simpl. rewrite app_nil_r. reflexivity. Qed.

Lemma warn_warn (w : World) (a b : list string) : warn (warn w a) b = warn w (a ++ b).
Proof. unfold warn. simpl. rewrite app_assoc. reflexivity. Qed.

Lemma analyzer_warn (w : World) (a : list string) : analyzer (warn w a) = analyzer w.
Proof. reflexivity. Qed.

Section Runs.
Context {runtime : Runtime}.

Lemma regex_case_run (pattern name : string) (w : World) :
  regex_case pattern name w =
  (Normal (regex_matches pattern name), warn w (regex_warnings pattern)).
Proof.
  unfold regex_case, try_catch, bind, new_RegExp, regex_matches, regex_warnings.
  destruct (RegExp_new pattern "i") as [regex|]; simpl.
  - rewrite warn_nil. reflexivity.
  - reflexivity.
Qed.

Lemma exclusion_switch_run (rule : ExclusionRule.t) (name : string) (w : World) :
  exclusion_switch rule name w =
  (Normal (exclusion_matches rule name), warn w (exclusion_warnings rule)).
Proof.
  unfold exclusion_switch, exclusion_matches, exclusion_warnings.
  destruct (String.eqb (ExclusionRule.pattern_type rule) "regex") eqn:R.
  - apply String.eqb_eq in R. rewrite R. simpl. apply regex_case_run.
  - repeat match goal with
           | |- context [String.eqb ?a ?b] =>
               destruct (String.eqb a b); [unfold ret; rewrite warn_nil; reflexivity|]
           end.
    unfold ret. rewrite warn_nil. reflexivity.
Qed.

Lemma mapping_switch_run (rule : MappingRule.t) (name : string) (w : World) :
  mapping_switch rule name w =
  (Normal (mapping_matches rule name), warn w (mapping_warnings rule)).
Proof.
  unfold mapping_switch, mapping_matches, mapping_warnings.
  destruct (String.eqb (MappingRule.pattern_type rule) "regex") eqn:R.
  - apply String.eqb_eq in R. rewrite R. simpl. apply regex_case_run.
  - repeat match goal with
           | |- context [String.eqb ?a ?b] =>
               destruct (String.eqb a b); [unfold ret; rewrite warn_nil; reflexivity|]
           end.
    unfold ret. rewrite warn_nil. reflexivity.
Qed.

Lemma shouldExclude_loop_run (rules : list ExclusionRule.t) (name : string) (w : World) :
  shouldExclude_loop rules name w =
  (Normal (first_exclusion rules name), warn w (exclusion_log rules name)).
Proof.
  revert w. induction rules as [|rule rest IH]; intros w; simpl.
  - unfold ret. rewrite warn_nil. reflexivity.
  - unfold bind. rewrite exclusion_switch_run.
    destruct (exclusion_matches rule name).
    + unfold ret. rewrite app_nil_r. reflexivity.
    + rewrite IH, warn_warn. reflexivity.
Qed.

Lemma findMapping_loop_run (rules : list MappingRule.t) (name : string) (w : World) :
  findMapping_loop rules name w =
  (Normal (first_mapping rules name), warn w (mapping_log rules name)).
Proof.
  revert w. induction rules as [|rule rest IH]; intros w; simpl.
  - unfold ret. rewrite warn_nil. reflexivity.
  - unfold bind. rewrite mapping_switch_run.
    destruct (mapping_matches rule name).
    + unfold ret. rewrite app_nil_r. reflexivity.
    + rewrite IH, warn_warn. reflexivity.
Qed.

Lemma shouldExclude_run (softwareName : string) (w : World) :
  shouldExclude softwareName w =
  (Normal (first_exclusion (exclusionRules (analyzer w)) (JS.trim softwareName)),
   warn w (exclusion_log (exclusionRules (analyzer w)) (JS.trim softwareName))).
Proof. unfold shouldExclude, bind, this. apply shouldExclude_loop_run. Qed.

Lemma findMapping_run (softwareName : string) (w : World) :
  findMapping softwareName w =
  (Normal (first_mapping (mappingRules (analyzer w)) (JS.trim softwareName)),
   warn w (mapping_log (mappingRules (analyzer w)) (JS.trim softwareName))).
Proof. unfold findMapping, bind, this. apply findMapping_loop_run. Qed.

Lemma analyze_item_run (item : Item.t) (results : Results) (w : World) :
  text_name item ->
  analyze_item item results w =
  (Normal (place (analyzer w) item results), warn w (item_log (analyzer w) item)).
Proof.
  intros Text.
  unfold analyze_item, place, item_log, classify, classify_name.
  destruct (trimmed_name item) as [name|] eqn:T.
  - destruct (trimmed_name_trim item name T) as [Htrim Hne].
    unfold trimmed_name in T.
    destruct (Item.name item) as [|z|text]; try discriminate.
    cbv zeta.
    destruct (String.eqb (JS.trim text) "") eqn:E; [discriminate|].
    injection T as T. rewrite T.
    unfold bind. rewrite shouldExclude_run, Htrim.
    destruct (first_exclusion (exclusionRules (analyzer w)) name) as [rule|].
    + unfold ret. rewrite app_nil_r. reflexivity.
    + rewrite findMapping_run, Htrim, warn_warn, analyzer_warn.
      destruct (first_mapping (mappingRules (analyzer w)) name); reflexivity.
  - unfold trimmed_name in T. unfold text_name in Text.
    destruct (Item.name item) as [|z|text].
    + unfold ret. rewrite warn_nil. reflexivity.
    + contradiction.
    + cbv zeta. destruct (String.eqb (JS.trim text) ""); [|discriminate].
      unfold ret. rewrite warn_nil. reflexivity.
Qed.

(** A name that is a number: the call of [trim] throws, and nothing else
    happens. *)
Lemma analyze_item_throws (item : Item.t) (z : Z) (results : Results) (w : World) :
  Item.name item = JS.Num z ->
  analyze_item item results w =
  (Throw (TypeError "item.name?.trim is not a function"), w).
Proof. intros E. unfold analyze_item. rewrite E. reflexivity. Qed.

Lemma analyze_loop_run (items : list Item.t) (results : Results) (w : World) :
  Forall text_name items ->
  for_of items analyze_item results w =
  (Normal (place_all (analyzer w) items results), warn w (log_all (analyzer w) items)).
Proof.
  intros Text. revert results w.
  induction Text as [|item items T _ IH]; intros results w; simpl.
  - unfold ret. rewrite warn_nil. reflexivity.
  - unfold bind. rewrite (analyze_item_run item results w T), IH, warn_warn, analyzer_warn.
    reflexivity.
Qed.

Lemma analyze_loop_throws (pre post : list Item.t) (item : Item.t) (z : Z)
    (results : Results) (w : World) :
  Forall text_name pre -> Item.name item = JS.Num z ->
  for_of (pre ++ item :: post) analyze_item results w =
  (Throw (TypeError "item.name?.trim is not a function"),
   warn w (log_all (analyzer w) pre)).
Proof.
  intros Text E. revert results w.
  induction Text as [|first pre T _ IH]; intros results w; simpl.
  - unfold bind. rewrite (analyze_item_throws item z results w E).
    rewrite warn_nil. reflexivity.
  - unfold bind. rewrite (analyze_item_run first results w T), IH, warn_warn, analyzer_warn.
    reflexivity.
Qed.

End Runs.

Lemma pool_query_up {A} (run : Database -> A * Database) (w : World) :
  hd false (outages w) = false ->
  pool_query run w =
  (Normal (fst (run (db w))),
   mkWorld (snd (run (db w))) (tl (outages w)) (analyzer w) (console w)).
Proof.
  unfold pool_query. destruct (outages w) as [|[|] rest]; simpl; intros H;
    try discriminate; destruct (run (db w)); reflexivity.
Qed.

Lemma pool_query_down {A} (run : Database -> A * Database) (w : World) :
  hd false (outages w) = true ->
  pool_query run w =
  (Throw (DatabaseError "connection refused"),
   mkWorld (db w) (tl (outages w)) (analyzer w) (console w)).
Proof.
  unfold pool_query. destruct (outages w) as [|[|] rest]; simpl; intros H;
    try discriminate; reflexivity.
Qed.

Section AnalyzeRuns.
Context {runtime : Runtime}.

Lemma loadRules_run (w : World) :
  rules_load w -> loadRules w = (Normal tt, after_load w).
Proof.
  intros [H1 H2]. unfold loadRules, bind.
  rewrite (pool_query_up _ w H1). simpl.
  rewrite pool_query_up by exact H2. reflexivity.
Qed.

Lemma analyze_run (softwareList : list Item.t) (w : World) :
  rules_load w ->
  Forall text_name softwareList ->
  analyze softwareList w =
  (Normal (place_all (loaded_analyzer w) softwareList (mkResults JSMap.empty [] [])),
   warn (after_load w) (log_all (loaded_analyzer w) softwareList)).
Proof.
  intros H T. unfold analyze, bind. rewrite (loadRules_run w H).
  rewrite (analyze_loop_run _ _ _ T). reflexivity.
Qed.

Lemma analyze_throws (pre post : list Item.t) (item : Item.t) (z : Z) (w : World) :
  rules_load w ->
  Forall text_name pre -> Item.name item = JS.Num z ->
  analyze (pre ++ item :: post) w =
  (Throw (TypeError "item.name?.trim is not a function"),
   warn (after_load w) (log_all (loaded_analyzer w) pre)).
Proof.
  intros H T E. unfold analyze, bind. rewrite (loadRules_run w H).
  rewrite (analyze_loop_throws pre post item z _ _ T E). reflexivity.
Qed.

End AnalyzeRuns.

(** ** The Map of aggregates *)

Lemma JSMap_has_get {V} (k : string) (m : JSMap.t V) :
  JSMap.has k m = false -> JSMap.get k m = None.
Proof. unfold JSMap.has. destruct (JSMap.get k m); [discriminate|reflexivity]. Qed.

Lemma JSMap_set_fresh {V} (k : string) (v : V) (m : JSMap.t V) :
  JSMap.get k m = None -> JSMap.set k v m = m ++ [(k, v)].
Proof.
  induction m as [|[k' v'] m IH]; simpl; [reflexivity|].
  destruct (String.eqb k' k); [discriminate|].
  intros H. rewrite (IH H). reflexivity.
Qed.

Lemma JSMap_mutate_fresh {V} (k : string) (f : V -> V) (v : V) (m : JSMap.t V) :
  JSMap.get k m = None -> JSMap.mutate k f (m ++ [(k, v)]) = m ++ [(k, f v)].
Proof.
  induction m as [|[k' v'] m IH]; simpl.
  - rewrite String.eqb_refl. reflexivity.
  - destruct (String.eqb k' k); [discriminate|].
    intros H. rewrite (IH H). reflexivity.
Qed.

Lemma JSMap_get_mutate {V} (k k' : string) (f : V -> V) (m : JSMap.t V) :
  JSMap.get k' (JSMap.mutate k f m) =
  if String.eqb k k' then option_map f (JSMap.get k' m) else JSMap.get k' m.
Proof.
  induction m as [|[k0 v0] m IH]; simpl.
  - destruct (String.eqb k k'); reflexivity.
  - destruct (String.eqb k0 k) eqn:E0; simpl.
    + apply String.eqb_eq in E0. subst k0.
      destruct (String.eqb k k'); reflexivity.
    + destruct (String.eqb k0 k') eqn:E1.
      * apply String.eqb_eq in E1. subst k0.
        rewrite String.eqb_sym, E0. reflexivity.
      * exact IH.
Qed.

Lemma JSMap_get_set {V} (k k' : string) (v : V) (m : JSMap.t V) :
  JSMap.get k' (JSMap.set k v m) = if String.eqb k k' then Some v else JSMap.get k' m.
Proof.
  induction m as [|[k0 v0] m IH]; simpl.
  - reflexivity.
  - destruct (String.eqb k0 k) eqn:E0; simpl.
    + apply String.eqb_eq in E0. subst k0.
      destruct (String.eqb k k'); reflexivity.
    + destruct (String.eqb k0 k') eqn:E1.
      * apply String.eqb_eq in E1. subst k0.
        rewrite String.eqb_sym, E0. reflexivity.
      * exact IH.
Qed.

(** Pushing an entry adds it, and nothing else, to the contributors. *)
Lemma mutate_push_contributors (k : string) (e : Entry.t) (m : JSMap.t Aggregate.t) :
  JSMap.get k m <> None ->
  Permutation
    (flat_map Aggregate.originalEntries (JSMap.values (JSMap.mutate k (Aggregate.push e) m)))
    (flat_map Aggregate.originalEntries (JSMap.values m) ++ [e]).
Proof.
  induction m as [|[k' v] m IH]; simpl; [congruence|].
  destruct (String.eqb k' k); simpl; intros H.
  - rewrite <- !app_assoc. apply Permutation_app_head, Permutation_app_comm.
  - rewrite <- app_assoc. apply Permutation_app_head, IH, H.
Qed.

Section Contributors.
Context {runtime : Runtime}.

Lemma add_contributor_contributors (mapping : MappingRule.t) (e : Entry.t)
    (m : JSMap.t Aggregate.t) :
  Permutation
    (flat_map Aggregate.originalEntries (JSMap.values (add_contributor mapping e m)))
    (flat_map Aggregate.originalEntries (JSMap.values m) ++ [e]).
Proof.
  unfold add_contributor.
  destruct (JSMap.has (MappingRule.canonical_name mapping) m) eqn:H; simpl.
  - apply mutate_push_contributors. unfold JSMap.has in H.
    destruct (JSMap.get (MappingRule.canonical_name mapping) m); congruence.
  - apply JSMap_has_get in H.
    rewrite (JSMap_set_fresh _ _ _ H), (JSMap_mutate_fresh _ _ _ _ H).
    unfold JSMap.values. rewrite map_app, !flat_map_app. simpl.
    apply Permutation_refl.
Qed.

Lemma classify_name_not_skipped (a : Analyzer) (name : string) :
  classify_name a name <> Skipped.
Proof.
  unfold classify_name.
  destruct (first_exclusion (exclusionRules a) name); [discriminate|].
  destruct (first_mapping (mappingRules a) name); discriminate.
Qed.

(** An item adds its classified name, if it has one, to the names in the
    buckets. *)
Lemma place_names (a : Analyzer) (item : Item.t) (r : Results) :
  Permutation (all_names (place a item r))
    (all_names r ++ match trimmed_name item with Some n => [n] | None => [] end).
Proof.
  unfold place, classify.
  destruct (trimmed_name item) as [name|]; [|rewrite app_nil_r; apply Permutation_refl].
  pose proof (classify_name_not_skipped a name) as NS.
  destruct (classify_name a name) as [|rule|mapping|]; [congruence| | |];
    unfold all_names, excluded_names, contributor_names, unmapped_names, contributors; simpl.
  - rewrite map_app. simpl. rewrite <- !app_assoc.
    apply Permutation_app_head. simpl.
    rewrite app_assoc. apply Permutation_cons_append.
  - rewrite <- !app_assoc. apply Permutation_app_head.
    rewrite (app_assoc _ _ [name]).
    apply Permutation_trans with
      (map Entry.name (flat_map Aggregate.originalEntries (JSMap.values (included r)) ++
                       [entry_of name item]) ++ map Entry.name (unmapped r)).
    + apply Permutation_app_tail, Permutation_map, add_contributor_contributors.
    + rewrite map_app. simpl. rewrite <- !app_assoc.
      apply Permutation_app_head. simpl. apply Permutation_cons_append.
  - rewrite map_app, !app_assoc. apply Permutation_refl.
Qed.
End Contributors.

Section Partition.
Context {runtime : Runtime}.

Lemma place_well_placed (a : Analyzer) (item : Item.t) (r : Results) :
  well_placed a r -> well_placed a (place a item r).
Proof.
  intros (HE & HC & HU). unfold place, classify.
  destruct (trimmed_name item) as [name|]; [|repeat split; assumption].
  destruct (classify_name a name) as [|rule|mapping|] eqn:K;
    unfold well_placed, excluded_names, contributor_names, unmapped_names, contributors in *;
    simpl.
  - repeat split; assumption.
  - repeat split; try assumption.
    rewrite map_app. apply Forall_app. split; [assumption|].
    constructor; [|constructor]. simpl. rewrite K. reflexivity.
  - repeat split; try assumption.
    eapply Permutation_Forall.
    + apply Permutation_sym, Permutation_map, add_contributor_contributors.
    + rewrite map_app. apply Forall_app. split; [assumption|].
      constructor; [|constructor]. simpl. rewrite K. reflexivity.
  - repeat split; try assumption.
    rewrite map_app. apply Forall_app. split; [assumption|].
    constructor; [|constructor]. simpl. rewrite K. reflexivity.
Qed.

Lemma place_all_well_placed (a : Analyzer) (items : list Item.t) (r : Results) :
  well_placed a r -> well_placed a (place_all a items r).
Proof.
  revert r. induction items as [|item items IH]; intros r H; simpl; [exact H|].
  apply IH, place_well_placed, H.
Qed.

Lemma place_all_names (a : Analyzer) (items : list Item.t) (r : Results) :
  Permutation (all_names (place_all a items r)) (all_names r ++ classified_names items).
Proof.
  revert r. induction items as [|item items IH]; intros r; simpl.
  - rewrite app_nil_r. apply Permutation_refl.
  - eapply Permutation_trans; [apply IH|].
    rewrite app_assoc. apply Permutation_app_tail, place_names.
Qed.


Lemma classified_names_in (items : list Item.t) (item : Item.t) (n : string) :
  In item items -> trimmed_name item = Some n -> In n (classified_names items).
Proof.
  intros HI T. unfold classified_names. rewrite in_flat_map.
  exists item. split; [exact HI|]. rewrite T. left. reflexivity.
Qed.


End Partition.


Section FirstMatch.
Context {runtime : Runtime}.

Lemma first_exclusion_app (pre post : list ExclusionRule.t) (rule : ExclusionRule.t)
    (name : string) :
  (forall r, In r pre -> exclusion_matches r name = false) ->
  exclusion_matches rule name = true ->
  first_exclusion (pre ++ rule :: post) name = IsExcluded rule.
Proof.
  induction pre as [|r pre IH]; simpl; intros Hpre Hrule.
  - rewrite Hrule. reflexivity.
  - rewrite (Hpre r (or_introl eq_refl)). apply IH; [|exact Hrule].
    intros r' Hr'. apply Hpre. right. exact Hr'.
Qed.

End FirstMatch.

(** C2.  First match wins among the exclusion rules.  Let the analyzer hold
    the exclusion rules [pre ++ rule :: post] in stored order, where no rule
    of [pre] matches the trimmed name of an entry and [rule] does (rules of
    [post] may match too).  Then [shouldExclude] returns [rule]; the loop of
    [analyze] pushes the record with the category and the reason of [rule];
    and the mapping rules are not consulted: the world is left as
    [shouldExclude] alone leaves it, and the same happens whatever the
    mapping rules are.  The rules the analyzer holds are the active rows of
    the table, in the order of the table. *)
Theorem first_exclusion_rule_wins {runtime : Runtime} (w : World)
    (pre post : list ExclusionRule.t) (rule : ExclusionRule.t)
    (item : Item.t) (name : string) (results : Results) :
  exclusionRules (analyzer w) = pre ++ rule :: post ->
  trimmed_name item = Some name ->
  (forall r, In r pre -> exclusion_matches r name = false) ->
  exclusion_matches rule name = true ->
  let pushed :=
    mkResults (included results)
      (excluded results ++
         [Excluded.mk name (ExclusionRule.category rule) (ExclusionRule.reason rule)])
      (unmapped results) in
  fst (shouldExclude name w) = Normal (IsExcluded rule) /\
  analyze_item item results w = (Normal pushed, snd (shouldExclude name w)) /\
  (forall rows : list MappingRule.t,
     analyze_item item results (with_mappingRules rows w) =
     (Normal pushed, with_mappingRules rows (snd (shouldExclude name w)))) /\
  (forall w0, rules_load w0 ->
     exists w1, loadRules w0 = (Normal tt, w1) /\
       exclusionRules (analyzer w1) =
       filter ExclusionRule.is_active (exclusion_rules (db w0))).
Proof.
  intros Hrules Hname Hpre Hrule pushed.
  assert (Load : forall w0, rules_load w0 ->
            exists w1, loadRules w0 = (Normal tt, w1) /\
              exclusionRules (analyzer w1) =
              filter ExclusionRule.is_active (exclusion_rules (db w0))).
  { intros w0 L. exists (after_load w0). split; [apply loadRules_run, L|reflexivity]. }
  destruct (trimmed_name_trim item name Hname) as [Htrim _].
  assert (F : first_exclusion (exclusionRules (analyzer w)) name = IsExcluded rule).
  { rewrite Hrules. apply first_exclusion_app; assumption. }
  assert (P : forall w0, exclusionRules (analyzer w0) = exclusionRules (analyzer w) ->
                place (analyzer w0) item results = pushed).
  { intros w0 E. unfold place, classify, classify_name. rewrite Hname, E, F. reflexivity. }
  assert (L : forall w0, exclusionRules (analyzer w0) = exclusionRules (analyzer w) ->
                item_log (analyzer w0) item =
                exclusion_log (exclusionRules (analyzer w)) name).
  { intros w0 E. unfold item_log. rewrite Hname, E, F. apply app_nil_r. }
  rewrite shouldExclude_run, Htrim. simpl. split; [rewrite F; reflexivity|].
  split; [|split; [|exact Load]].
  - rewrite (analyze_item_run item results w (trimmed_name_text item name Hname)).
    rewrite (P w eq_refl), (L w eq_refl). reflexivity.
  - intros rows.
    rewrite (analyze_item_run item results _ (trimmed_name_text item name Hname)).
    rewrite (P (with_mappingRules rows w) eq_refl), (L (with_mappingRules rows w) eq_refl).
    reflexivity.
Qed.

Section Seeding.
Context {runtime : Runtime}.

Lemma get_add_contributor (mapping : MappingRule.t) (e : Entry.t)
    (m : JSMap.t Aggregate.t) (k : string) :
  JSMap.get k (add_contributor mapping e m) =
  if String.eqb (MappingRule.canonical_name mapping) k
  then Some (Aggregate.push e
               (match JSMap.get k m with Some a => a | None => new_aggregate mapping end))
  else JSMap.get k m.
Proof.
  unfold add_contributor. rewrite JSMap_get_mutate.
  destruct (String.eqb (MappingRule.canonical_name mapping) k) eqn:E.
  - apply String.eqb_eq in E. subst k. unfold JSMap.has.
    destruct (JSMap.get (MappingRule.canonical_name mapping) m) as [a|] eqn:G; simpl.
    + rewrite G. reflexivity.
    + rewrite JSMap_get_set, String.eqb_refl. reflexivity.
  - destruct (negb (JSMap.has (MappingRule.canonical_name mapping) m)); [|reflexivity].
    rewrite JSMap_get_set, E. reflexivity.
Qed.

Lemma place_included (a : Analyzer) (item : Item.t) (r : Results) :
  included (place a item r) =
  match trimmed_name item, classify a item with
  | Some name, ToIncluded mapping =>
      add_contributor mapping (entry_of name item) (included r)
  | _, _ => included r
  end.
Proof.
  unfold place. destruct (trimmed_name item); [|reflexivity].
  destruct (classify a item); reflexivity.
Qed.

Lemma place_keeps_absent (a : Analyzer) (item : Item.t) (r : Results) (c : string) :
  JSMap.get c (included r) = None ->
  (forall m, classify a item = ToIncluded m -> MappingRule.canonical_name m <> c) ->
  JSMap.get c (included (place a item r)) = None.
Proof.
  intros G H. rewrite place_included.
  destruct (trimmed_name item); [|exact G].
  destruct (classify a item) as [| |m|]; try exact G.
  rewrite get_add_contributor.
  destruct (String.eqb (MappingRule.canonical_name m) c) eqn:E; [|exact G].
  apply String.eqb_eq in E. exfalso. exact (H m eq_refl E).
Qed.

Lemma place_seeds (a : Analyzer) (item : Item.t) (r : Results) (mapping : MappingRule.t) :
  classify a item = ToIncluded mapping ->
  JSMap.get (MappingRule.canonical_name mapping) (included r) = None ->
  exists agg,
    JSMap.get (MappingRule.canonical_name mapping) (included (place a item r)) = Some agg /\
    seeded_by mapping agg.
Proof.
  intros K G. rewrite place_included, K.
  destruct (trimmed_name item) as [name|] eqn:T.
  - rewrite get_add_contributor, String.eqb_refl, G.
    eexists. split; [reflexivity|]. repeat split.
  - unfold classify in K. rewrite T in K. discriminate.
Qed.

Lemma place_keeps_seed (a : Analyzer) (item : Item.t) (r : Results) (c : string)
    (mapping : MappingRule.t) (agg : Aggregate.t) :
  JSMap.get c (included r) = Some agg -> seeded_by mapping agg ->
  exists agg', JSMap.get c (included (place a item r)) = Some agg' /\ seeded_by mapping agg'.
Proof.
  intros G S. rewrite place_included.
  destruct (trimmed_name item); [|exists agg; split; assumption].
  destruct (classify a item) as [| |m|]; try (exists agg; split; assumption).
  rewrite get_add_contributor, G.
  destruct (String.eqb (MappingRule.canonical_name m) c).
  - eexists. split; [reflexivity|]. exact S.
  - exists agg. split; [reflexivity|exact S].
Qed.

Lemma place_all_keeps_absent (a : Analyzer) (items : list Item.t) (r : Results) (c : string) :
  JSMap.get c (included r) = None ->
  (forall item m, In item items -> classify a item = ToIncluded m ->
                  MappingRule.canonical_name m <> c) ->
  JSMap.get c (included (place_all a items r)) = None.
Proof.
  revert r. induction items as [|item items IH]; intros r G H; simpl; [exact G|].
  apply IH.
  - apply place_keeps_absent; [exact G|]. intros m. apply H. left. reflexivity.
  - intros it m Hit. apply H. right. exact Hit.
Qed.

Lemma place_all_keeps_seed (a : Analyzer) (items : list Item.t) (r : Results) (c : string)
    (mapping : MappingRule.t) (agg : Aggregate.t) :
  JSMap.get c (included r) = Some agg -> seeded_by mapping agg ->
  exists agg',
    JSMap.get c (included (place_all a items r)) = Some agg' /\ seeded_by mapping agg'.
Proof.
  revert r agg. induction items as [|item items IH]; intros r agg G S; simpl.
  - exists agg. split; assumption.
  - destruct (place_keeps_seed a item r c mapping agg G S) as (agg1 & G1 & S1).
    exact (IH _ agg1 G1 S1).
Qed.

Lemma place_all_app (a : Analyzer) (l1 l2 : list Item.t) (r : Results) :
  place_all a (l1 ++ l2) r = place_all a l2 (place_all a l1 r).
Proof. unfold place_all. apply fold_left_app. Qed.

End Seeding.

(** C3.  An aggregate is seeded once.  In a run over
    [pre ++ item :: post], entries whose names are texts or missing, let
    [item] be the first entry that maps to the canonical name of [mapping],
    through [mapping].  Then the result has an aggregate under that name
    whose category, deploymentType and description are those of [mapping]
    (with the defaults "Uncategorized", "Desktop" and the empty string),
    whatever the entries of [post] are and whichever rules map them to the
    same canonical name. *)
Theorem aggregate_seeded_by_first_match {runtime : Runtime} (w : World)
    (pre post : list Item.t) (item : Item.t) (mapping : MappingRule.t) :
  rules_load w ->
  Forall text_name pre ->
  Forall text_name post ->
  classify (loaded_analyzer w) item = ToIncluded mapping ->
  (forall earlier m, In earlier pre -> classify (loaded_analyzer w) earlier = ToIncluded m ->
     MappingRule.canonical_name m <> MappingRule.canonical_name mapping) ->
  exists r w' agg,
    analyze (pre ++ item :: post) w = (Normal r, w') /\
    JSMap.get (MappingRule.canonical_name mapping) (included r) = Some agg /\
    Aggregate.category agg = JS.or_string (MappingRule.category mapping) "Uncategorized" /\
    Aggregate.deploymentType agg = JS.or_string (MappingRule.deployment_type mapping) "Desktop" /\
    Aggregate.description agg = JS.or_string (MappingRule.description mapping) "".
Proof.
  intros L Tpre Tpost K Hpre.
  assert (Text : Forall text_name (pre ++ item :: post)).
  { apply Forall_app. split; [exact Tpre|]. constructor; [|exact Tpost].
    unfold classify in K. destruct (trimmed_name item) as [name|] eqn:T; [|discriminate].
    exact (trimmed_name_text item name T). }
  set (a := loaded_analyzer w) in *.
  set (c := MappingRule.canonical_name mapping) in *.
  pose proof (place_all_keeps_absent a pre (mkResults JSMap.empty [] []) c eq_refl Hpre) as G0.
  destruct (place_seeds a item _ mapping K G0) as (agg1 & G1 & S1).
  destruct (place_all_keeps_seed a post _ c mapping agg1 G1 S1) as (agg & G & S).
  eexists. eexists. exists agg. split; [exact (analyze_run _ w L Text)|]. split.
  - fold a. rewrite place_all_app. simpl. exact G.
  - exact S.
Qed.

(** ** Case of letters *)

Lemma alter_case_toLowerCase (c d : ascii) :
  alter_case c d -> JS.toLowerCase_char c = JS.toLowerCase_char d.
Proof.
  intros [H|[H|H]]; subst d;
    destruct c as [[] [] [] [] [] [] [] []]; reflexivity.
Qed.

Lemma alter_case_isWhiteSpace (c d : ascii) :
  alter_case c d -> JS.isWhiteSpace c = JS.isWhiteSpace d.
Proof.
  intros [H|[H|H]]; subst d;
    destruct c as [[] [] [] [] [] [] [] []]; reflexivity.
Qed.

Lemma case_variant_toLowerCase (s t : string) :
  case_variant s t -> JS.toLowerCase s = JS.toLowerCase t.
Proof.
  induction 1 as [|c d s t A _ IH]; simpl; [reflexivity|].
  rewrite (alter_case_toLowerCase c d A), IH. reflexivity.
Qed.

Lemma case_variant_trimStart (s t : string) :
  case_variant s t -> case_variant (JS.trimStart s) (JS.trimStart t).
Proof.
  induction 1 as [|c d s t A V IH]; simpl; [constructor|].
  rewrite <- (alter_case_isWhiteSpace c d A).
  destruct (JS.isWhiteSpace c); [exact IH|]. constructor; assumption.
Qed.

Lemma case_variant_trimEnd (s t : string) :
  case_variant s t -> case_variant (JS.trimEnd s) (JS.trimEnd t).
Proof.
  induction 1 as [|c d s t A V IH]; simpl; [constructor|].
  rewrite <- (alter_case_isWhiteSpace c d A).
  inversion IH as [E1 E2|c' d' s' t' A' V' E1 E2].
  - destruct (JS.isWhiteSpace c); [constructor|].
    constructor; [exact A|constructor].
  - constructor; [exact A|]. constructor; assumption.
Qed.

Lemma case_variant_trim (s t : string) :
  case_variant s t -> case_variant (JS.trim s) (JS.trim t).
Proof. intros V. apply case_variant_trimStart, case_variant_trimEnd, V. Qed.

Section CaseInsensitive.
Context {runtime : Runtime}.
Hypothesis ignoreCase : ignoreCase_flag runtime.

Lemma regex_matches_case (pattern s t : string) :
  case_variant s t -> regex_matches pattern s = regex_matches pattern t.
Proof.
  intros V. unfold regex_matches.
  destruct (RegExp_new pattern "i") as [regex|] eqn:E; [|reflexivity].
  exact (ignoreCase pattern regex E s t V).
Qed.

Lemma exclusion_matches_case (rule : ExclusionRule.t) (s t : string) :
  case_variant s t -> exclusion_matches rule s = exclusion_matches rule t.
Proof.
  intros V. unfold exclusion_matches.
  rewrite (case_variant_toLowerCase s t V), (regex_matches_case _ s t V). reflexivity.
Qed.

Lemma mapping_matches_case (rule : MappingRule.t) (s t : string) :
  case_variant s t -> mapping_matches rule s = mapping_matches rule t.
Proof.
  intros V. unfold mapping_matches.
  rewrite (case_variant_toLowerCase s t V), (regex_matches_case _ s t V). reflexivity.
Qed.

Lemma first_exclusion_case (rules : list ExclusionRule.t) (s t : string) :
  case_variant s t ->
  first_exclusion rules s = first_exclusion rules t /\
  exclusion_log rules s = exclusion_log rules t.
Proof.
  intros V. induction rules as [|rule rules [IH1 IH2]]; simpl; [split; reflexivity|].
  rewrite (exclusion_matches_case rule s t V), IH1, IH2. split; reflexivity.
Qed.

Lemma first_mapping_case (rules : list MappingRule.t) (s t : string) :
  case_variant s t ->
  first_mapping rules s = first_mapping rules t /\
  mapping_log rules s = mapping_log rules t.
Proof.
  intros V. induction rules as [|rule rules [IH1 IH2]]; simpl; [split; reflexivity|].
  rewrite (mapping_matches_case rule s t V), IH1, IH2. split; reflexivity.
Qed.

End CaseInsensitive.

Section PatternCase.
Context {runtime : Runtime}.

Lemma exclusion_switch_pattern_case (rule rule' : ExclusionRule.t) (name : string) (w : World) :
  exclusion_rule_variant rule rule' ->
  exclusion_switch rule' name w = exclusion_switch rule name w.
Proof.
  intros (T & NR & V). rewrite !exclusion_switch_run.
  unfold exclusion_matches, exclusion_warnings. rewrite T.
  apply String.eqb_neq in NR. rewrite NR.
  rewrite (case_variant_toLowerCase _ _ V). reflexivity.
Qed.

Lemma mapping_switch_pattern_case (rule rule' : MappingRule.t) (name : string) (w : World) :
  mapping_rule_variant rule rule' ->
  mapping_switch rule' name w = mapping_switch rule name w.
Proof.
  intros (T & NR & V). rewrite !mapping_switch_run.
  unfold mapping_matches, mapping_warnings. rewrite T.
  apply String.eqb_neq in NR. rewrite NR.
  rewrite (case_variant_toLowerCase _ _ V). reflexivity.
Qed.

End PatternCase.

(** C4.  Matching ignores the case of letters.  On a runtime whose flag [i]
    makes regular expressions ignore case: [shouldExclude] and [findMapping]
    return the same rule and write the same lines for two names that differ
    in case only, whatever the types of the rules (exact, contains,
    startswith, endswith, regex); altering the case of the pattern of a rule
    that is not a regular expression does not change what its switch
    computes; and "GOOGLE CHROME", "Google Chrome" and "google chrome" all
    match a startswith rule with the pattern "Google Chrome", in both
    stages. *)
Theorem matching_ignores_case {runtime : Runtime} :
  ignoreCase_flag runtime ->
  (forall (name name' : string) (w : World), case_variant name name' ->
     shouldExclude name' w = shouldExclude name w /\
     findMapping name' w = findMapping name w) /\
  (forall (rule rule' : ExclusionRule.t) (name : string) (w : World),
     exclusion_rule_variant rule rule' ->
     exclusion_switch rule' name w = exclusion_switch rule name w) /\
  (forall (rule rule' : MappingRule.t) (name : string) (w : World),
     mapping_rule_variant rule rule' ->
     mapping_switch rule' name w = mapping_switch rule name w) /\
  (forall (e : ExclusionRule.t) (m : MappingRule.t) (name : string) (w : World),
     ExclusionRule.pattern_type e = "startswith" ->
     ExclusionRule.pattern_value e = "Google Chrome" ->
     MappingRule.pattern_type m = "startswith" ->
     MappingRule.original_pattern m = "Google Chrome" ->
     In name ["GOOGLE CHROME"; "Google Chrome"; "google chrome"] ->
     exclusion_switch e name w = (Normal true, w) /\
     mapping_switch m name w = (Normal true, w)).
Proof.
  intros I. split; [|split; [|split]].
  - intros name name' w V. split.
    + rewrite !shouldExclude_run.
      destruct (first_exclusion_case I (exclusionRules (analyzer w)) _ _
                  (case_variant_trim _ _ V)) as [E1 E2].
      rewrite E1, E2. reflexivity.
    + rewrite !findMapping_run.
      destruct (first_mapping_case I (mappingRules (analyzer w)) _ _
                  (case_variant_trim _ _ V)) as [E1 E2].
      rewrite E1, E2. reflexivity.
  - intros rule rule' name w V. apply exclusion_switch_pattern_case, V.
  - intros rule rule' name w V. apply mapping_switch_pattern_case, V.
  - intros e m name w Te Pe Tm Pm Hn. split.
    + rewrite exclusion_switch_run. unfold exclusion_matches, exclusion_warnings.
      rewrite Te, Pe. simpl in Hn.
      destruct Hn as [<-|[<-|[<-|[]]]]; simpl; rewrite warn_nil; reflexivity.
    + rewrite mapping_switch_run. unfold mapping_matches, mapping_warnings.
      rewrite Tm, Pm. simpl in Hn.
      destruct Hn as [<-|[<-|[<-|[]]]]; simpl; rewrite warn_nil; reflexivity.
Qed.

(** C5.  An invalid regular expression fails closed.  For a rule of type
    regex whose pattern the constructor rejects, in either stage: the switch
    leaves [matches] false and writes the warning; the loop goes on with the
    remaining rules (after the warning, the rule counts for nothing); and a
    run of [analyze] whose rules load, over entries whose names are texts or
    missing, returns its results whatever the rules are: no such rule aborts
    it. *)
Theorem invalid_regex_fails_closed {runtime : Runtime}
    (e : ExclusionRule.t) (erest : list ExclusionRule.t)
    (m : MappingRule.t) (mrest : list MappingRule.t)
    (name : string) (w : World) (softwareList : list Item.t) (w0 : World) :
  ExclusionRule.pattern_type e = "regex" ->
  RegExp_new (ExclusionRule.pattern_value e) "i" = None ->
  MappingRule.pattern_type m = "regex" ->
  RegExp_new (MappingRule.original_pattern m) "i" = None ->
  rules_load w0 ->
  Forall text_name softwareList ->
  let ewarned := warn w [("Invalid regex pattern: " ++ ExclusionRule.pattern_value e)%string] in
  let mwarned := warn w [("Invalid regex pattern: " ++ MappingRule.original_pattern m)%string] in
  exclusion_switch e name w = (Normal false, ewarned) /\
  shouldExclude_loop (e :: erest) name w = shouldExclude_loop erest name ewarned /\
  mapping_switch m name w = (Normal false, mwarned) /\
  findMapping_loop (m :: mrest) name w = findMapping_loop mrest name mwarned /\
  exists r w', analyze softwareList w0 = (Normal r, w').
Proof.
  intros Te Ie Tm Im L Text ewarned mwarned.
  assert (E : exclusion_switch e name w = (Normal false, ewarned)).
  { rewrite exclusion_switch_run. unfold exclusion_matches, exclusion_warnings.
    rewrite Te. simpl. unfold regex_matches, regex_warnings. rewrite Ie. reflexivity. }
  assert (M0 : mapping_switch m name w = (Normal false, mwarned)).
  { rewrite mapping_switch_run. unfold mapping_matches, mapping_warnings.
    rewrite Tm. simpl. unfold regex_matches, regex_warnings. rewrite Im. reflexivity. }
  split; [exact E|]. split; [simpl; unfold bind; rewrite E; reflexivity|].
  split; [exact M0|]. split; [simpl; unfold bind; rewrite M0; reflexivity|].
  eexists. eexists. exact (analyze_run softwareList w0 L Text).
Qed.

(** C9.  A pattern type without a case in the switch never matches.  An
    exclusion rule whose type is none of exact, contains, startswith,
    endswith, regex, and a mapping rule whose type is endswith or none of
    exact, contains, startswith, regex: the switch leaves [matches] false for
    every name, nothing is written, nothing is thrown, and the loop goes on
    with the remaining rules. *)
Theorem unhandled_pattern_type_never_matches {runtime : Runtime}
    (e : ExclusionRule.t) (erest : list ExclusionRule.t)
    (m : MappingRule.t) (mrest : list MappingRule.t)
    (name : string) (w : World) :
  ~ In (ExclusionRule.pattern_type e) ["exact"; "contains"; "startswith"; "endswith"; "regex"] ->
  (MappingRule.pattern_type m = "endswith" \/
   ~ In (MappingRule.pattern_type m) ["exact"; "contains"; "startswith"; "regex"]) ->
  exclusion_switch e name w = (Normal false, w) /\
  shouldExclude_loop (e :: erest) name w = shouldExclude_loop erest name w /\
  mapping_switch m name w = (Normal false, w) /\
  findMapping_loop (m :: mrest) name w = findMapping_loop mrest name w.
Proof.
  intros He Hm.
  assert (Hm' : ~ In (MappingRule.pattern_type m) ["exact"; "contains"; "startswith"; "regex"]).
  { destruct Hm as [Hm|Hm]; [|exact Hm]. rewrite Hm. simpl.
    intros [H|[H|[H|[H|[]]]]]; discriminate. }
  assert (E : exclusion_switch e name w = (Normal false, w)).
  { unfold exclusion_switch.
    repeat match goal with
           | |- context [String.eqb ?a ?b] =>
               destruct (String.eqb a b) eqn:?X;
               [apply String.eqb_eq in X; exfalso; apply He; rewrite X; simpl; tauto|clear X]
           end.
    reflexivity. }
  assert (M0 : mapping_switch m name w = (Normal false, w)).
  { unfold mapping_switch.
    repeat match goal with
           | |- context [String.eqb ?a ?b] =>
               destruct (String.eqb a b) eqn:?X;
               [apply String.eqb_eq in X; exfalso; apply Hm'; rewrite X; simpl; tauto|clear X]
           end.
    reflexivity. }
  split; [exact E|]. split; [simpl; unfold bind; rewrite E; reflexivity|].
  split; [exact M0|]. simpl. unfold bind. rewrite M0. reflexivity.
Qed.

(** ** parseInt reads back the numbers that ToString prints *)

Lemma read_digits_numeral (d : Decimal.uint) (acc : Z) :
  JS.read_digits 10 (NilEmpty.string_of_uint d) acc true = Some (uint_value d acc).
Proof.
  revert acc. induction d; intros acc; simpl; try reflexivity; apply IHd.
Qed.

Lemma read_digits_numeral_start (d : Decimal.uint) :
  d <> Decimal.Nil ->
  JS.read_digits 10 (NilEmpty.string_of_uint d) 0 false = Some (uint_value d 0).
Proof.
  destruct d; intros H; try congruence; simpl; apply read_digits_numeral.
Qed.

Lemma of_uint_acc_value (d : Decimal.uint) (p : positive) :
  Z.pos (Pos.of_uint_acc d p) = uint_value d (Z.pos p).
Proof.
  revert p. induction d; intros p; cbn [Pos.of_uint_acc uint_value]; try reflexivity;
    rewrite IHd; f_equal; lia.
Qed.

Lemma of_uint_value (d : Decimal.uint) : Z.of_N (Pos.of_uint d) = uint_value d 0.
Proof.
  induction d; cbn [Pos.of_uint uint_value Z.of_N]; try reflexivity; try exact IHd;
    rewrite of_uint_acc_value; reflexivity.
Qed.

Lemma to_uint_value (p : positive) : uint_value (Pos.to_uint p) 0 = Z.pos p.
Proof.
  rewrite <- of_uint_value, DecimalPos.Unsigned.of_to. reflexivity.
Qed.

Lemma parseInt_numeral (d : Decimal.uint) :
  JS.parseInt_string (NilEmpty.string_of_uint d) =
  match JS.read_digits 10 (NilEmpty.string_of_uint d) 0 false with
  | Some n => Some (1 * n)%Z
  | None => None
  end.
Proof.
  destruct d as [|d|d|d|d|d|d|d|d|d|d]; try reflexivity;
    destruct d; reflexivity.
Qed.

Lemma parseInt_negative_numeral (d : Decimal.uint) :
  JS.parseInt_string (String "-" (NilEmpty.string_of_uint d)) =
  match JS.read_digits 10 (NilEmpty.string_of_uint d) 0 false with
  | Some n => Some (-1 * n)%Z
  | None => None
  end.
Proof.
  destruct d as [|d|d|d|d|d|d|d|d|d|d]; try reflexivity;
    destruct d; reflexivity.
Qed.

(** [parseInt] of a number is the number. *)
Lemma parseInt_Num (z : Z) : JS.parseInt (JS.Num z) = Some z.
Proof.
  unfold JS.parseInt, JS.ToString. destruct z as [|p|p]; [reflexivity| |].
  - cbn [Z.to_int NilZero.string_of_int].
    pose proof (DecimalPos.Unsigned.to_uint_nonnil p) as N.
    assert (E : NilZero.string_of_uint (Pos.to_uint p) = NilEmpty.string_of_uint (Pos.to_uint p)).
    { destruct (Pos.to_uint p); [congruence|reflexivity..]. }
    rewrite E, parseInt_numeral, (read_digits_numeral_start _ N), to_uint_value.
    reflexivity.
  - cbn [Z.to_int NilZero.string_of_int].
    pose proof (DecimalPos.Unsigned.to_uint_nonnil p) as N.
    assert (E : NilZero.string_of_uint (Pos.to_uint p) = NilEmpty.string_of_uint (Pos.to_uint p)).
    { destruct (Pos.to_uint p); [congruence|reflexivity..]. }
    rewrite E, parseInt_negative_numeral, (read_digits_numeral_start _ N), to_uint_value.
    reflexivity.
Qed.

(** ** Disposition enrichment *)

Lemma set_rows_absent (rows : list DispositionRow.t) (c : string) :
  (forall row, In row rows ->
     DispositionMapping.canonical_name (DispositionRow.dm row) <> c) ->
  JSMap.get c (set_rows rows) = None.
Proof.
  unfold set_rows.
  assert (G : forall m : JSMap.t Disposition.t,
             JSMap.get c m = None ->
             (forall row, In row rows ->
                DispositionMapping.canonical_name (DispositionRow.dm row) <> c) ->
             JSMap.get c (fold_left set_row rows m) = None).
  { induction rows as [|row rows IH]; intros m Gm H; simpl; [exact Gm|].
    apply IH.
    - unfold set_row. rewrite JSMap_get_set.
      destruct (String.eqb _ c) eqn:E; [|exact Gm].
      apply String.eqb_eq in E. exfalso. exact (H row (or_introl eq_refl) E).
    - intros r Hr. apply H. right. exact Hr. }
  intros H. apply G; [reflexivity|exact H].
Qed.

Lemma left_join_dm (d : Database) (dm : DispositionMapping.t) (row : DispositionRow.t) :
  In row (left_join d dm) -> DispositionRow.dm row = dm.
Proof.
  unfold left_join.
  destruct (DispositionMapping.approved_software_id dm) as [k|].
  - destruct (filter _ (approved_software d)) as [|aps matched].
    + intros [<-|[]]. reflexivity.
    + rewrite in_map_iff. intros (x & <- & _). reflexivity.
  - intros [<-|[]]. reflexivity.
Qed.

(** A name without a row in [disposition_mappings] is not a key of the Map
    that the SELECT fills. *)
Lemma select_dispositions_absent (names : list string) (d : Database) (c : string) :
  (forall dm, In dm (disposition_mappings d) -> DispositionMapping.canonical_name dm <> c) ->
  JSMap.get c (set_rows (fst (select_dispositions names d))) = None.
Proof.
  intros H. apply set_rows_absent. intros row. simpl.
  rewrite in_flat_map. intros (dm & Hdm & Hrow).
  apply filter_In in Hdm. destruct Hdm as [Hdm _].
  rewrite (left_join_dm d dm row Hrow). apply H, Hdm.
Qed.

Section Enrichment.
Context {runtime : Runtime}.

(** What [fetch_dispositions] leaves in [dispositionMap]: the rows of the
    SELECT, or nothing when there is no name or the query is rejected. *)
Lemma fetch_dispositions_run (names : list string) (w : World) :
  exists w',
    fetch_dispositions names w =
    (Normal (if ((0 <? List.length names)%nat && negb (hd false (outages w)))%bool
             then set_rows (fst (select_dispositions names (db w)))
             else JSMap.empty),
     w').
Proof.
  unfold fetch_dispositions.
  destruct (0 <? List.length names)%nat; simpl; [|eexists; reflexivity].
  unfold try_catch, bind.
  destruct (hd false (outages w)) eqn:O.
  - rewrite (pool_query_down _ w O). simpl. eexists. reflexivity.
  - rewrite (pool_query_up _ w O). simpl. eexists. reflexivity.
Qed.

Lemma create_pending_run (name : string) (m : JSMap.t Disposition.t) (w : World) :
  exists m' w',
    create_pending name m w = (Normal m', w') /\
    (m' = m \/ m' = JSMap.set name pending m).
Proof.
  unfold create_pending, try_catch, bind.
  destruct (hd false (outages w)) eqn:O.
  - rewrite (pool_query_down _ w O). simpl.
    eexists. eexists. split; [reflexivity|]. left. reflexivity.
  - rewrite (pool_query_up _ w O). simpl.
    eexists. eexists. split; [reflexivity|]. right. reflexivity.
Qed.

(** The loop over the missing names returns, and each key of the Map holds
    what it held or the pending disposition. *)
Lemma create_missing_run (names : list string) (m : JSMap.t Disposition.t) (w : World) :
  exists m' w',
    create_missing names m w = (Normal m', w') /\
    forall k, JSMap.get k m' = JSMap.get k m \/ JSMap.get k m' = Some pending.
Proof.
  revert m w. induction names as [|name names IH]; intros m w.
  - exists m, w. split; [reflexivity|]. intros k. left. reflexivity.
  - destruct (create_pending_run name m w) as (m1 & w1 & R1 & H1).
    destruct (IH m1 w1) as (m2 & w2 & R2 & H2).
    exists m2, w2. split.
    + unfold create_missing in *. simpl. unfold bind. rewrite R1. exact R2.
    + intros k. destruct (H2 k) as [E|E]; [|right; exact E].
      rewrite E. destruct H1 as [-> | ->]; [left; reflexivity|].
      rewrite JSMap_get_set. destruct (String.eqb name k); [right|left]; reflexivity.
Qed.

Lemma with_disposition_default (m : JSMap.t Disposition.t) (i : Included.t) :
  JSMap.get (Included.canonicalName i) m = None \/
  JSMap.get (Included.canonicalName i) m = Some pending ->
  with_disposition m i = Enriched.mk i "pending" None None None.
Proof. unfold with_disposition. intros [-> | ->]; reflexivity. Qed.

Lemma with_disposition_carries (m : JSMap.t Disposition.t) (i : Included.t) :
  Enriched.item (with_disposition m i) = i /\
  Enriched.disposition (with_disposition m i) <> "".
Proof.
  split; [reflexivity|]. simpl. unfold JS.or_string.
  destruct (JSMap.get (Included.canonicalName i) m) as [d|]; [|discriminate].
  destruct (Disposition.disposition d) as [s|]; [|discriminate].
  destruct (String.eqb s "") eqn:E; [discriminate|].
  apply String.eqb_neq. exact E.
Qed.

End Enrichment.

Section EnrichRuns.
Context {runtime : Runtime}.

(** [enrich] returns, whatever the store does: the aggregates in order,
    each merged with what a Map [m1] holds, where a key of [m1] holds the
    fetched disposition or the pending one. *)
Lemma enrich_run (arr : list Included.t) (w : World) :
  exists m1 w',
    enrich arr w = (Normal (map (with_disposition m1) arr), w') /\
    forall k,
      JSMap.get k m1 =
      JSMap.get k
        (if ((0 <? List.length (map Included.canonicalName arr))%nat &&
             negb (hd false (outages w)))%bool
         then set_rows (fst (select_dispositions (map Included.canonicalName arr) (db w)))
         else JSMap.empty) \/
      JSMap.get k m1 = Some pending.
Proof.
  unfold enrich, bind.
  destruct (fetch_dispositions_run (map Included.canonicalName arr) w) as (w1 & R1).
  rewrite R1.
  match goal with
  | |- context [create_missing ?names ?m w1] =>
      destruct (create_missing_run names m w1) as (m1 & w2 & R2 & H2)
  end.
  rewrite R2. exists m1, w2. split; [reflexivity|exact H2].
Qed.

Lemma log_history_run (row : AnalysisHistory.t) (w : World) :
  exists w', log_history row w = (Normal tt, w').
Proof.
  unfold log_history, try_catch.
  destruct (hd false (outages w)) eqn:O.
  - rewrite (pool_query_down _ w O). eexists. reflexivity.
  - rewrite (pool_query_up _ w O). simpl. eexists. reflexivity.
Qed.

(** The handler answers with the sorted lists once the rules have
    loaded. *)
Lemma analyze_handler_run (originalname : string) (agencyName : option string)
    (softwareList : list Item.t) (w : World) :
  rules_load w ->
  Forall text_name softwareList ->
  exists r w1 enriched w2 body w3,
    analyze softwareList w = (Normal r, w1) /\
    enrich (includedArray r) w1 = (Normal enriched, w2) /\
    analyze_handler originalname agencyName softwareList w = (Normal (Json body), w3) /\
    Response.included body = JSArray.sort by_canonicalName enriched /\
    Response.excluded body = excluded r /\
    Response.unmapped body = JSArray.sort by_deviceCount_desc (unmapped r).
Proof.
  intros L Text. pose proof (analyze_run softwareList w L Text) as RA.
  destruct (enrich_run (includedArray
              (place_all (loaded_analyzer w) softwareList (mkResults JSMap.empty [] [])))
              (warn (after_load w) (log_all (loaded_analyzer w) softwareList)))
    as (m1 & w2 & RE & _).
  match goal with
  | |- context [analyze_handler ?o ?a ?l ?w] =>
      unfold analyze_handler, try_catch, bind
  end.
  rewrite RA, RE.
  match goal with
  | |- context [log_history ?row w2] =>
      destruct (log_history_run row w2) as (w3 & RH); rewrite RH
  end.
  do 6 eexists. split; [reflexivity|]. split; [exact RE|].
  split; [reflexivity|]. repeat split; reflexivity.
Qed.

End EnrichRuns.

(** Whatever the store holds and whichever of its operations fail, [enrich]
    returns the aggregates it was given, in order, each with a non-empty
    disposition; a name without a row in [disposition_mappings], and every
    name when the fetch is rejected, gets the defaults. *)
Lemma enrich_defaults (arr : list Included.t) (w : World) :
  exists result w',
    enrich arr w = (Normal result, w') /\
    map Enriched.item result = arr /\
    Forall (fun e => Enriched.disposition e <> "") result /\
    (forall e, In e result ->
       (forall dm, In dm (disposition_mappings (db w)) ->
          DispositionMapping.canonical_name dm <> Enriched.canonicalName e) ->
       e = Enriched.mk (Enriched.item e) "pending" None None None) /\
    (hd false (outages w) = true ->
     forall e, In e result -> e = Enriched.mk (Enriched.item e) "pending" None None None).
Proof.
  destruct (enrich_run arr w) as (m1 & w' & R & H).
  exists (map (with_disposition m1) arr), w'.
  split; [exact R|]. split; [|split; [|split]].
  - rewrite map_map. simpl. apply map_id.
  - rewrite Forall_forall. intros e. rewrite in_map_iff. intros (i & <- & _).
    apply with_disposition_carries.
  - intros e He Hno. rewrite in_map_iff in He. destruct He as (i & <- & _).
    apply (with_disposition_default m1 i).
    destruct (H (Included.canonicalName i)) as [E|E]; [|right; exact E].
    left. rewrite E.
    destruct ((0 <? List.length (map Included.canonicalName arr))%nat &&
              negb (hd false (outages w)))%bool; [|reflexivity].
    apply select_dispositions_absent. exact Hno.
  - intros O e He. rewrite in_map_iff in He. destruct He as (i & <- & _).
    apply (with_disposition_default m1 i).
    destruct (H (Included.canonicalName i)) as [E|E]; [|right; exact E].
    left. rewrite E, O, andb_false_r. reflexivity.
Qed.

(** ** Array.prototype.sort *)

Section SortFacts.
Context {A : Type} (comparefn : A -> A -> option Z).

Lemma insert_permutation (x : A) (l : list A) :
  Permutation (JSArray.insert comparefn x l) (x :: l).
Proof.
  induction l as [|y l IH]; simpl; [apply Permutation_refl|].
  destruct (0 <? JSArray.SortCompare comparefn x y)%Z; [|apply Permutation_refl].
  apply Permutation_trans with (y :: x :: l); [|apply perm_swap].
  apply perm_skip, IH.
Qed.

Lemma sort_permutation (l : list A) : Permutation (JSArray.sort comparefn l) l.
Proof.
  induction l as [|x l IH]; simpl; [apply Permutation_refl|].
  eapply Permutation_trans; [apply insert_permutation|]. apply perm_skip, IH.
Qed.

(** On elements for which the comparator is an order, the result is
    sorted. *)
Variable P : A -> Prop.
Hypothesis total : forall a b, P a -> P b -> (0 < JSArray.SortCompare comparefn a b)%Z -> (JSArray.SortCompare comparefn b a <= 0)%Z.
Hypothesis transitive :
  forall a b c, P a -> P b -> P c -> (JSArray.SortCompare comparefn a b <= 0)%Z -> (JSArray.SortCompare comparefn b c <= 0)%Z -> (JSArray.SortCompare comparefn a c <= 0)%Z.

Lemma insert_sorted (x : A) (l : list A) :
  P x -> Forall P l -> StronglySorted (JSArray.before comparefn) l ->
  StronglySorted (JSArray.before comparefn) (JSArray.insert comparefn x l).
Proof.
  intros Px Pl S. induction S as [|y l S IH Hy]; simpl.
  - constructor; constructor.
  - inversion Pl as [|? ? Py Pl']; subst.
    destruct (0 <? JSArray.SortCompare comparefn x y)%Z eqn:E.
    + apply Z.ltb_lt in E. constructor; [apply IH, Pl'|].
      eapply Permutation_Forall; [apply Permutation_sym, insert_permutation|].
      constructor; [exact (total x y Px Py E)|exact Hy].
    + apply Z.ltb_ge in E. constructor; [constructor; assumption|].
      constructor; [exact E|].
      rewrite Forall_forall in *. intros z Hz.
      exact (transitive x y z Px Py (Pl' z Hz) E (Hy z Hz)).
Qed.

Lemma sort_sorted (l : list A) :
  Forall P l -> StronglySorted (JSArray.before comparefn) (JSArray.sort comparefn l).
Proof.
  induction l as [|x l IH]; intros Pl; simpl; [constructor|].
  inversion Pl as [|? ? Px Pl']; subst.
  apply insert_sorted; [exact Px| |apply IH, Pl'].
  eapply Permutation_Forall; [apply Permutation_sym, sort_permutation|exact Pl'].
Qed.

End SortFacts.

Lemma by_deviceCount_desc_keys (a b : Entry.t) (x y : Z) :
  count_key a = Some x -> count_key b = Some y ->
  JSArray.SortCompare by_deviceCount_desc a b = (y - x)%Z.
Proof.
  unfold count_key, JSArray.SortCompare, by_deviceCount_desc, JS.minus, JS.or.
  destruct (Entry.deviceCount a) as [|za|sa]; intros Ha; try discriminate;
    destruct (Entry.deviceCount b) as [|zb|sb]; intros Hb; try discriminate;
    injection Ha as <-; injection Hb as <-; simpl;
    repeat match goal with
           | |- context [(?z =? 0)%Z] => destruct (Z.eqb_spec z 0); subst; simpl
           end; reflexivity.
Qed.

(** The two sorts of the response do what they are meant to when the
    comparators order the elements: [included] ascends by canonicalName under
    a [localeCompare] that is a collation, and [unmapped] descends by
    deviceCount (missing and zero as 0) when every deviceCount is a number or
    missing.  Both are permutations of their input in any case. *)
Lemma response_sorted {runtime : Runtime} (enriched : list Enriched.t) (entries : list Entry.t) :
  collation runtime ->
  Forall has_count_key entries ->
  StronglySorted
    (fun a b => (localeCompare (Enriched.canonicalName a) (Enriched.canonicalName b) <= 0)%Z)
    (JSArray.sort by_canonicalName enriched) /\
  Permutation (JSArray.sort by_canonicalName enriched) enriched /\
  StronglySorted count_desc (JSArray.sort by_deviceCount_desc entries) /\
  Permutation (JSArray.sort by_deviceCount_desc entries) entries.
Proof.
  intros [T R] K. split; [|split; [apply sort_permutation|split; [|apply sort_permutation]]].
  - apply (sort_sorted by_canonicalName (fun _ => True)).
    + intros a b _ _. apply T.
    + intros a b c _ _ _. apply R.
    + rewrite Forall_forall. intros; exact I.
  - assert (S : StronglySorted
                  (fun a b => (JSArray.SortCompare by_deviceCount_desc a b <= 0)%Z)
                  (JSArray.sort by_deviceCount_desc entries)).
    { apply (sort_sorted by_deviceCount_desc has_count_key); [| |exact K].
      - intros a b Ha Hb. unfold has_count_key in *.
        destruct (count_key a) as [x|] eqn:Ea; [|congruence].
        destruct (count_key b) as [y|] eqn:Eb; [|congruence].
        rewrite (by_deviceCount_desc_keys a b x y Ea Eb),
                (by_deviceCount_desc_keys b a y x Eb Ea). lia.
      - intros a b c Ha Hb Hc. unfold has_count_key in *.
        destruct (count_key a) as [x|] eqn:Ea; [|congruence].
        destruct (count_key b) as [y|] eqn:Eb; [|congruence].
        destruct (count_key c) as [z|] eqn:Ec; [|congruence].
        rewrite (by_deviceCount_desc_keys a b x y Ea Eb),
                (by_deviceCount_desc_keys b c y z Eb Ec),
                (by_deviceCount_desc_keys a c x z Ea Ec). lia. }
    assert (F : Forall has_count_key (JSArray.sort by_deviceCount_desc entries)).
    { eapply Permutation_Forall; [apply Permutation_sym, sort_permutation|exact K]. }
    revert F. induction S as [|a l S IH Ha]; intros F; constructor.
    + apply IH. inversion F; assumption.
    + inversion F as [|? ? Fa Fl]; subst.
      rewrite Forall_forall in *. intros b Hb. specialize (Ha b Hb).
      pose proof (Fl b Hb) as Fb. unfold has_count_key, count_desc in *.
      destruct (count_key a) as [x|] eqn:Ea; [|congruence].
      destruct (count_key b) as [y|] eqn:Eb; [|congruence].
      rewrite (by_deviceCount_desc_keys a b x y Ea Eb) in Ha. lia.
Qed.

(** C7.  Enrichment defaults to pending.  Whatever the store holds and
    whichever of its operations fail, [enrich] returns: the aggregates it was
    given, in order, each with a non-empty disposition.  An aggregate whose
    canonical name has no row in [disposition_mappings] gets the disposition
    "pending" and null replacementId, replacementName and dispositionNotes.
    When the store rejects the fetch, every aggregate gets these defaults,
    whether the inserts that follow fail or not.  And the handler, once the
    rules have loaded, for entries whose names are texts or missing, answers
    with its JSON body, not with the status 500, whatever the store does
    then, and the aggregates of the body have these properties. *)
Theorem enrich_defaults_to_pending {runtime : Runtime} (arr : list Included.t) (w : World)
    (originalname : string) (agencyName : option string) (softwareList : list Item.t)
    (w0 : World) :
  (exists result w',
     enrich arr w = (Normal result, w') /\
     map Enriched.item result = arr /\
     Forall (fun e => Enriched.disposition e <> "") result /\
     (forall e, In e result ->
        (forall dm, In dm (disposition_mappings (db w)) ->
           DispositionMapping.canonical_name dm <> Enriched.canonicalName e) ->
        e = Enriched.mk (Enriched.item e) "pending" None None None) /\
     (hd false (outages w) = true ->
      forall e, In e result -> e = Enriched.mk (Enriched.item e) "pending" None None None)) /\
  (rules_load w0 ->
   Forall text_name softwareList ->
   exists body w',
     analyze_handler originalname agencyName softwareList w0 = (Normal (Json body), w') /\
     Forall (fun e => Enriched.disposition e <> "") (Response.included body) /\
     (forall e, In e (Response.included body) ->
        (forall dm, In dm (disposition_mappings (db w0)) ->
           DispositionMapping.canonical_name dm <> Enriched.canonicalName e) ->
        e = Enriched.mk (Enriched.item e) "pending" None None None) /\
     (hd false (tl (tl (outages w0))) = true ->
      forall e, In e (Response.included body) ->
        e = Enriched.mk (Enriched.item e) "pending" None None None)).
Proof.
  split; [apply enrich_defaults|].
  intros L Text.
  destruct (analyze_handler_run originalname agencyName softwareList w0 L Text)
    as (r & w1 & enriched & w2 & body & w3 & RA & RE & RH & EI & _ & _).
  rewrite (analyze_run softwareList w0 L Text) in RA. injection RA as Er Ew.
  destruct (enrich_defaults (includedArray r) w1) as (result & w' & R & _ & F & N & D).
  rewrite RE in R. injection R as <- <-.
  assert (P : forall e, In e (Response.included body) -> In e enriched).
  { intros e. rewrite EI. apply Permutation_in, sort_permutation. }
  exists body, w3. split; [exact RH|]. split; [|split].
  - rewrite Forall_forall in *. intros e He. apply F, P, He.
  - intros e He Hno. apply N; [apply P, He|]. rewrite <- Ew. exact Hno.
  - intros O e He. apply D; [|apply P, He]. rewrite <- Ew. exact O.
Qed.

(** ** originalCount and totalDevices *)

Lemma or_number_contribution (e : Entry.t) :
  JS.or_number (JS.parseInt (Entry.deviceCount e)) 1 = contribution e.
Proof.
  unfold JS.or_number, contribution.
  destruct (JS.parseInt (Entry.deviceCount e)) as [[|p|p]|]; reflexivity.
Qed.

Lemma sum_devices_from (entries : list Entry.t) (a : Z) :
  fold_left (fun sum e => (sum + JS.or_number (JS.parseInt (Entry.deviceCount e)) 1)%Z) entries a =
  (a + fold_right Z.add 0 (map contribution entries))%Z.
Proof.
  revert a. induction entries as [|e entries IH]; intros a; simpl; [lia|].
  rewrite IH, or_number_contribution. lia.
Qed.

Lemma fold_right_add_from (l : list Z) (a : Z) :
  fold_right Z.add a l = (a + fold_right Z.add 0 l)%Z.
Proof. induction l as [|x l IH]; simpl; lia. Qed.

Lemma sum_devices_contributions (entries : list Entry.t) :
  sum_devices entries = fold_right Z.add 0%Z (map contribution entries).
Proof. unfold sum_devices. rewrite sum_devices_from. lia. Qed.

Lemma includedArray_In (results : Results) (i : Included.t) :
  In i (includedArray results) ->
  Included.originalCount i = List.length (Aggregate.originalEntries (Included.item i)) /\
  Included.totalDevices i = sum_devices (Aggregate.originalEntries (Included.item i)).
Proof.
  unfold includedArray. rewrite in_map_iff. intros (a & <- & _). split; reflexivity.
Qed.

(** C6, as the code has it.  For every element of [includedArray],
    originalCount is the length of [originalEntries] and totalDevices is the
    sum of the contributions of the entries, where the contribution of an
    entry is [parseInt] of its deviceCount, or 1 when that is NaN or 0: a
    missing deviceCount and the text "abc" contribute 1, a number other
    than 0 contributes itself, 0 contributes 1, and a text with leading
    digits contributes the number these spell ("12abc" contributes 12). *)
Theorem included_totals (results : Results) (i : Included.t) :
  In i (includedArray results) ->
  Included.originalCount i = List.length (Aggregate.originalEntries (Included.item i)) /\
  Included.totalDevices i =
    fold_right Z.add 0%Z (map contribution (Aggregate.originalEntries (Included.item i))) /\
  (forall e, Entry.deviceCount e = JS.undefined -> contribution e = 1%Z) /\
  (forall e, Entry.deviceCount e = JS.Str "abc" -> contribution e = 1%Z) /\
  (forall e z, Entry.deviceCount e = JS.Num z -> z <> 0%Z -> contribution e = z) /\
  (forall e, Entry.deviceCount e = JS.Num 0 -> contribution e = 1%Z) /\
  (forall e, Entry.deviceCount e = JS.Str "12abc" -> contribution e = 12%Z).
Proof.
  intros H. destruct (includedArray_In results i H) as [C T].
  split; [exact C|]. split; [rewrite T; apply sum_devices_contributions|].
  repeat split; intros e; unfold contribution.
  - intros ->. reflexivity.
  - intros ->. reflexivity.
  - intros z -> NZ. rewrite parseInt_Num. destruct z; [congruence|reflexivity..].
  - intros ->. reflexivity.
  - intros ->. reflexivity.
Qed.

(** C10.  A deviceCount that parses to 0 counts as 1.  If an entry of an
    aggregate has a deviceCount that [parseInt] reads as 0 (the number 0, the
    text "0"), the aggregate's totalDevices is 1 more than the total of its
    other entries. *)
Theorem zero_deviceCount_counts_one (results : Results) (i : Included.t)
    (earlier later : list Entry.t) (e : Entry.t) :
  In i (includedArray results) ->
  Aggregate.originalEntries (Included.item i) = earlier ++ e :: later ->
  JS.parseInt (Entry.deviceCount e) = Some 0%Z ->
  Included.totalDevices i = (sum_devices (earlier ++ later) + 1)%Z /\
  JS.parseInt (JS.Num 0) = Some 0%Z /\
  JS.parseInt (JS.Str "0") = Some 0%Z.
Proof.
  intros H E P. destruct (includedArray_In results i H) as [_ T].
  split; [|split; reflexivity].
  rewrite T, E, !sum_devices_contributions, !map_app, !fold_right_app. simpl.
  assert (C : contribution e = 1%Z) by (unfold contribution; rewrite P; reflexivity).
  rewrite C.
  rewrite (fold_right_add_from (map contribution earlier) (1 + _)),
          (fold_right_add_from (map contribution earlier) (fold_right _ _ _)).
  lia.
Qed.

(** ** Runs on the sample store *)

Lemma Literal_ignoreCase : ignoreCase_flag Literal.runtime.
Proof.
  intros pattern regex H s t V. simpl in H. unfold Literal.compile in H.
  destruct (Literal.literal pattern); [|discriminate].
  injection H as <-. simpl. unfold Literal.test. simpl.
  rewrite (case_variant_toLowerCase s t V). reflexivity.
Defined.


Lemma sample_text_names : Forall text_name Sample.softwareList.
Proof. repeat (constructor; [exact I|]). constructor. Qed.


Lemma first_exclusion_rule_wins_witness :
  exclusion_matches (runtime := Literal.runtime) Sample.spanish "Dell Command Update - es-es" = true /\
  fst (analyze_item (runtime := Literal.runtime) Sample.dell_item Sample.no_results Sample.loaded) =
  Normal (mkResults []
            [Excluded.mk "Dell Command Update - es-es" "OEM Tools"
               (Some "Dell manufacturer management software")]
            []).
Proof.
  split; [reflexivity|].
  destruct (first_exclusion_rule_wins (runtime := Literal.runtime) Sample.loaded
              [Sample.security_update; Sample.kb_article]
              [Sample.spanish; Sample.broken_exclusion]
              Sample.dell Sample.dell_item "Dell Command Update - es-es" Sample.no_results)
    as (_ & H & _).
  - reflexivity.
  - reflexivity.
  - intros r [<-|[<-|[]]]; reflexivity.
  - reflexivity.
  - rewrite H. reflexivity.
Defined.

Lemma aggregate_seeded_by_first_match_witness :
  exists r w' agg,
    analyze (runtime := Literal.runtime) Sample.softwareList Sample.world = (Normal r, w') /\
    JSMap.get "AMS360" (included r) = Some agg /\
    Aggregate.description agg = "AMS360 transaction processing component".
Proof.
  destruct (aggregate_seeded_by_first_match (runtime := Literal.runtime) Sample.world
              [Sample.update_item; Sample.dell_item]
              [Sample.rev9_item; Sample.rev10_item; Sample.unknown_item; Sample.nameless_item;
               Sample.blank_item; Sample.zoom_item; Sample.chrome_item]
              Sample.transactnow_item Sample.ams_transactnow)
    as (r & w' & agg & R & G & _ & _ & D).
  - split; reflexivity.
  - repeat (constructor; [exact I|]). constructor.
  - repeat (constructor; [exact I|]). constructor.
  - reflexivity.
  - intros earlier m [<-|[<-|[]]] K; vm_compute in K; discriminate.
  - exists r, w', agg. split; [exact R|]. split; [exact G|exact D].
Defined.

Lemma matching_ignores_case_witness :
  ignoreCase_flag Literal.runtime /\
  shouldExclude (runtime := Literal.runtime) "DELL COMMAND UPDATE - ES-ES" Sample.loaded =
  shouldExclude (runtime := Literal.runtime) "Dell Command Update - es-es" Sample.loaded.
Proof.
  split; [exact Literal_ignoreCase|].
  destruct (matching_ignores_case (runtime := Literal.runtime) Literal_ignoreCase) as (H & _).
  apply (H "Dell Command Update - es-es" "DELL COMMAND UPDATE - ES-ES" Sample.loaded).
  same_letters.
Defined.

Lemma invalid_regex_fails_closed_witness :
  RegExp_new (Runtime := Literal.runtime) "(" "i" = None /\
  exclusion_switch (runtime := Literal.runtime) Sample.broken_exclusion "Zoom Workplace"
    Sample.loaded =
  (Normal false, warn Sample.loaded ["Invalid regex pattern: ("]) /\
  exists r w',
    analyze (runtime := Literal.runtime) Sample.softwareList Sample.world = (Normal r, w').
Proof.
  split; [reflexivity|].
  destruct (invalid_regex_fails_closed (runtime := Literal.runtime)
              Sample.broken_exclusion [] Sample.broken_mapping [] "Zoom Workplace"
              Sample.loaded Sample.softwareList Sample.world)
    as (E & _ & _ & _ & R).
  - reflexivity.
  - reflexivity.
  - reflexivity.
  - reflexivity.
  - split; reflexivity.
  - exact sample_text_names.
  - split; [exact E|exact R].
Defined.

Lemma enrich_defaults_to_pending_witness :
  rules_load Sample.world_down /\
  hd false (tl (tl (outages Sample.world_down))) = true /\
  exists body w',
    analyze_handler (runtime := Literal.runtime) "inventory.xlsx" None
      Sample.softwareList Sample.world_down = (Normal (Json body), w') /\
    forall e, In e (Response.included body) ->
      e = Enriched.mk (Enriched.item e) "pending" None None None.
Proof.
  assert (L : rules_load Sample.world_down) by (split; reflexivity).
  split; [exact L|]. split; [reflexivity|].
  destruct (enrich_defaults_to_pending (runtime := Literal.runtime) [] Sample.world_down
              "inventory.xlsx" None Sample.softwareList Sample.world_down)
    as (_ & H).
  destruct (H L sample_text_names) as (body & w' & R & _ & _ & D).
  exists body, w'. split; [exact R|]. exact (D eq_refl).
Defined.

Lemma unhandled_pattern_type_never_matches_witness :
  mapping_switch (runtime := Literal.runtime) Sample.viewer "PDF Viewer" Sample.loaded =
  (Normal false, Sample.loaded) /\
  exclusion_switch (runtime := Literal.runtime)
    (ExclusionRule.mk 80 "wildcard" "*" "Custom" None true) "PDF Viewer" Sample.loaded =
  (Normal false, Sample.loaded).
Proof.
  destruct (unhandled_pattern_type_never_matches (runtime := Literal.runtime)
              (ExclusionRule.mk 80 "wildcard" "*" "Custom" None true) []
              Sample.viewer [] "PDF Viewer" Sample.loaded)
    as (E & _ & M0 & _).
  - simpl. intros [H|[H|[H|[H|[H|[]]]]]]; discriminate.
  - left. reflexivity.
  - split; [exact M0|exact E].
Defined.

Lemma included_totals_witness :
  In Sample.zoom_included (includedArray Sample.results) /\
  Included.totalDevices Sample.zoom_included =
  fold_right Z.add 0%Z
    (map contribution (Aggregate.originalEntries (Included.item Sample.zoom_included))).
Proof.
  assert (H : In Sample.zoom_included (includedArray Sample.results)).
  { vm_compute. right. left. reflexivity. }
  split; [exact H|].
  destruct (included_totals Sample.results Sample.zoom_included H) as (_ & T & _).
  exact T.
Defined.

Lemma zero_deviceCount_counts_one_witness :
  JS.parseInt (Entry.deviceCount Sample.zoom_entry) = Some 0%Z /\
  Included.totalDevices Sample.zoom_included = (sum_devices ([] ++ []) + 1)%Z.
Proof.
  split; [reflexivity|].
  destruct (zero_deviceCount_counts_one Sample.results Sample.zoom_included [] []
              Sample.zoom_entry) as (T & _).
  - vm_compute. right. left. reflexivity.
  - reflexivity.
  - reflexivity.
  - exact T.
Defined.

(** The totals of the specification, read literally, are not those of the
    code: in the run on the sample store the aggregate "Zoom", whose one
    entry has the deviceCount "0", has totalDevices 1 where the deviceCounts
    sum to 0, and the aggregate "Google Chrome", whose one entry has the
    deviceCount "12abc" (not a number), has totalDevices 12 where the
    specification counts 1. *)
Lemma totalDevices_counterexample :
  exists r w',
    analyze (runtime := Literal.runtime) Sample.softwareList Sample.world = (Normal r, w') /\
    In Sample.zoom_included (includedArray r) /\
    Included.totalDevices Sample.zoom_included = 1%Z /\
    spec_totalDevices (Aggregate.originalEntries (Included.item Sample.zoom_included)) = 0%Z /\
    In Sample.chrome_included (includedArray r) /\
    Included.totalDevices Sample.chrome_included = 12%Z /\
    spec_totalDevices (Aggregate.originalEntries (Included.item Sample.chrome_included)) = 1%Z.
Proof.
  eexists. eexists.
  split; [apply analyze_run; [split; reflexivity|exact sample_text_names]|].
  split; [vm_compute; right; left; reflexivity|].
  split; [reflexivity|]. split; [reflexivity|].
  split; [vm_compute; right; right; left; reflexivity|].
  split; reflexivity.
Qed.

(** C8, at an upload with a text deviceCount.  Three entries that no rule
    matches, with the deviceCounts 3, "abc" and 5: the comparator of the sort
    of [unmapped] returns NaN whenever "abc" is compared, the sort leaves the
    three where they are, and the response lists the entry with 3 devices
    before the one with 5. *)
Theorem unmapped_sort_breaks_on_text :
  exists body w',
    analyze_handler (runtime := Literal.runtime) "inventory.xlsx" None
      Sample.unknownList Sample.world = (Normal (Json body), w') /\
    map Entry.deviceCount (Response.unmapped body) = [JS.Num 3; JS.Str "abc"; JS.Num 5] /\
    by_deviceCount_desc
      (Entry.mk "Unknown A" (JS.Str "") (JS.Num 3))
      (Entry.mk "Unknown B" (JS.Str "") (JS.Str "abc")) = None /\
    ~ StronglySorted count_desc (Response.unmapped body).
Proof.
  eexists. eexists. split; [vm_compute; reflexivity|].
  split; [reflexivity|]. split; [reflexivity|].
  intros S. inversion S as [|a l _ F]; subst.
  inversion F as [|b l' _ F']; subst.
  inversion F' as [|c l'' C _]; subst.
  vm_compute in C. apply C. reflexivity.
Qed.

(** ** The scenarios of the specification, run on the sample store *)

Example scenario_security_update :
  fst (analyze (runtime := Literal.runtime)
         [Item.mk (JS.Str "Security Update for Microsoft Office (KB123)") (JS.Str "") JS.undefined]
         Sample.world) =
  Normal (mkResults []
            [Excluded.mk "Security Update for Microsoft Office (KB123)" "Windows Updates"
               (Some "Microsoft security patches - not business applications")]
            []).
Proof. vm_compute. reflexivity. Qed.

Example scenario_ams360 :
  option_map
    (fun r => map (fun i => (Included.canonicalName i, Included.originalCount i))
                (includedArray r))
    (match fst (analyze (runtime := Literal.runtime)
                  [Item.mk (JS.Str "AMS360 Client Rev 9") (JS.Str "") JS.undefined;
                   Item.mk (JS.Str "AMS360 Client Rev 10") (JS.Str "") JS.undefined]
                  Sample.world) with
     | Normal r => Some r
     | Throw _ => None
     end) =
  Some [("AMS360", 2)].
Proof. vm_compute. reflexivity. Qed.

Example scenario_unknown :
  fst (analyze (runtime := Literal.runtime) [Sample.unknown_item] Sample.world) =
  Normal (mkResults [] [] [Entry.mk "TotallyUnknownApp" (JS.Str "") JS.undefined]).
Proof. vm_compute. reflexivity. Qed.

Example scenario_rules_do_not_load :
  fst (analyze_handler (runtime := Literal.runtime) "inventory.xlsx" None Sample.softwareList
         (mkWorld Sample.database [true] (mkAnalyzer [] []) [])) =
  Normal (Status500 "Analysis failed: connection refused").
Proof. vm_compute. reflexivity. Qed.

Example parseInt_examples :
  JS.parseInt (JS.Str "abc") = None /\ JS.parseInt JS.undefined = None /\
  JS.parseInt (JS.Str " 42 devices") = Some 42%Z /\ JS.parseInt (JS.Num 17) = Some 17%Z /\
  JS.parseInt (JS.Str "0x1f") = Some 31%Z /\ JS.parseInt (JS.Num (-3)) = Some (-3)%Z /\
  JS.parseInt (JS.Str "0") = Some 0%Z /\ JS.parseInt (JS.Str "") = None.
Proof. repeat split; reflexivity. Qed.

Example string_examples :
  JS.trim "  Google Chrome  " = "Google Chrome" /\ JS.trim "   " = "" /\
  JS.endsWith "office - es-es" "- es-es" = true /\ JS.includes "a (kb12)" "(kb" = true /\
  JS.StringToNumber "abc" = None /\ JS.StringToNumber " 12 " = Some 12%Z.
Proof. repeat split; reflexivity. Qed.

(** ** Further properties of the analyzer *)

Section Matching.
Context {runtime : Runtime}.

Lemma first_mapping_app (pre post : list MappingRule.t) (rule : MappingRule.t)
    (name : string) :
  (forall r, In r pre -> mapping_matches r name = false) ->
  mapping_matches rule name = true ->
  first_mapping (pre ++ rule :: post) name = Some rule.
Proof.
  induction pre as [|r pre IH]; simpl; intros Hpre Hrule.
  - rewrite Hrule. reflexivity.
  - rewrite (Hpre r (or_introl eq_refl)). apply IH; [|exact Hrule].
    intros r' Hr'. apply Hpre. right. exact Hr'.
Qed.

Lemma first_mapping_Some (rules : list MappingRule.t) (name : string) (rule : MappingRule.t) :
  first_mapping rules name = Some rule ->
  exists pre post,
    rules = pre ++ rule :: post /\
    (forall r, In r pre -> mapping_matches r name = false) /\
    mapping_matches rule name = true.
Proof.
  induction rules as [|r rules IH]; simpl; [discriminate|].
  destruct (mapping_matches r name) eqn:E.
  - intros H. injection H as <-. exists [], rules. split; [reflexivity|].
    split; [intros ? []|exact E].
  - intros H. destruct (IH H) as (pre & post & -> & Hpre & Hrule).
    exists (r :: pre), post. split; [reflexivity|]. split; [|exact Hrule].
    intros r' [<-|Hr']; [exact E|apply Hpre, Hr'].
Qed.

Lemma first_mapping_None (rules : list MappingRule.t) (name : string) :
  first_mapping rules name = None <->
  forall r, In r rules -> mapping_matches r name = false.
Proof.
  induction rules as [|r rules IH]; simpl.
  - split; [intros _ ? []|reflexivity].
  - destruct (mapping_matches r name) eqn:E.
    + split; [discriminate|]. intros H. rewrite (H r (or_introl eq_refl)) in E. discriminate.
    + rewrite IH. split.
      * intros H r' [<-|Hr']; [exact E|apply H, Hr'].
      * intros H r' Hr'. apply H. right. exact Hr'.
Qed.

Lemma first_exclusion_IsExcluded (rules : list ExclusionRule.t) (name : string)
    (rule : ExclusionRule.t) :
  first_exclusion rules name = IsExcluded rule ->
  exists pre post,
    rules = pre ++ rule :: post /\
    (forall r, In r pre -> exclusion_matches r name = false) /\
    exclusion_matches rule name = true.
Proof.
  induction rules as [|r rules IH]; simpl; [discriminate|].
  destruct (exclusion_matches r name) eqn:E.
  - intros H. injection H as <-. exists [], rules. split; [reflexivity|].
    split; [intros ? []|exact E].
  - intros H. destruct (IH H) as (pre & post & -> & Hpre & Hrule).
    exists (r :: pre), post. split; [reflexivity|]. split; [|exact Hrule].
    intros r' [<-|Hr']; [exact E|apply Hpre, Hr'].
Qed.

Lemma first_exclusion_NotExcluded (rules : list ExclusionRule.t) (name : string) :
  first_exclusion rules name = NotExcluded <->
  forall r, In r rules -> exclusion_matches r name = false.
Proof.
  induction rules as [|r rules IH]; simpl.
  - split; [intros _ ? []|reflexivity].
  - destruct (exclusion_matches r name) eqn:E.
    + split; [discriminate|]. intros H. rewrite (H r (or_introl eq_refl)) in E. discriminate.
    + rewrite IH. split.
      * intros H r' [<-|Hr']; [exact E|apply H, Hr'].
      * intros H r' Hr'. apply H. right. exact Hr'.
Qed.

End Matching.

(** X1.  [findMapping] returns the earliest mapping rule that matches, and
    null exactly when none does.  It always returns: a rule it returns is a
    rule of the analyzer that matches the trimmed name and that no matching
    rule precedes; it returns null if and only if no rule of the analyzer
    matches the trimmed name (so always, when there are no rules). *)
Theorem findMapping_earliest_match {runtime : Runtime} (softwareName : string) (w : World) :
  exists result w',
    findMapping softwareName w = (Normal result, w') /\
    (forall rule, result = Some rule <->
       exists pre post,
         mappingRules (analyzer w) = pre ++ rule :: post /\
         (forall r, In r pre -> mapping_matches r (JS.trim softwareName) = false) /\
         mapping_matches rule (JS.trim softwareName) = true) /\
    (result = None <->
       forall r, In r (mappingRules (analyzer w)) ->
                 mapping_matches r (JS.trim softwareName) = false).
Proof.
  eexists. eexists. split; [apply findMapping_run|]. split.
  - intros rule. split.
    + apply first_mapping_Some.
    + intros (pre & post & E & Hpre & Hrule). rewrite E.
      apply first_mapping_app; assumption.
  - apply first_mapping_None.
Qed.

(** X2.  [shouldExclude] answers [{ excluded: false }] exactly when no
    exclusion rule of the analyzer matches the trimmed name, and a rule it
    returns is a rule of the analyzer that matches the trimmed name and that
    no matching rule precedes.  It always returns. *)
Theorem shouldExclude_negative {runtime : Runtime} (softwareName : string) (w : World) :
  exists check w',
    shouldExclude softwareName w = (Normal check, w') /\
    (check = NotExcluded <->
       forall r, In r (exclusionRules (analyzer w)) ->
                 exclusion_matches r (JS.trim softwareName) = false) /\
    (forall rule, check = IsExcluded rule ->
       exists pre post,
         exclusionRules (analyzer w) = pre ++ rule :: post /\
         (forall r, In r pre -> exclusion_matches r (JS.trim softwareName) = false) /\
         exclusion_matches rule (JS.trim softwareName) = true).
Proof.
  eexists. eexists. split; [apply shouldExclude_run|]. split.
  - apply first_exclusion_NotExcluded.
  - intros rule. apply first_exclusion_IsExcluded.
Qed.

(** ** The buckets, entry by entry *)

Lemma JSMap_keys_mutate {V} (k : string) (f : V -> V) (m : JSMap.t V) :
  map fst (JSMap.mutate k f m) = map fst m.
Proof.
  induction m as [|[k' v] m IH]; simpl; [reflexivity|].
  destruct (String.eqb k' k); simpl; [reflexivity|]. rewrite IH. reflexivity.
Qed.

Lemma JSMap_get_None {V} (k : string) (m : JSMap.t V) :
  JSMap.get k m = None <-> ~ In k (map fst m).
Proof.
  induction m as [|[k' v] m IH]; simpl; [tauto|].
  destruct (String.eqb k' k) eqn:E.
  - apply String.eqb_eq in E. split; [discriminate|]. intros H. exfalso. apply H. left. exact E.
  - apply String.eqb_neq in E. rewrite IH. tauto.
Qed.

Lemma JSMap_get_In {V} (k : string) (v : V) (m : JSMap.t V) :
  NoDup (map fst m) -> In (k, v) m -> JSMap.get k m = Some v.
Proof.
  induction m as [|[k' v'] m IH]; simpl; [intros _ []|].
  intros N [H|H].
  - injection H as -> ->. rewrite String.eqb_refl. reflexivity.
  - inversion N as [|? ? Nk N']; subst.
    destruct (String.eqb k' k) eqn:E.
    + apply String.eqb_eq in E. subst k'. exfalso. apply Nk.
      apply in_map_iff. exists (k, v). split; [reflexivity|exact H].
    + apply IH; assumption.
Qed.

Section Buckets.
Context {runtime : Runtime}.

Lemma place_excluded (a : Analyzer) (item : Item.t) (r : Results) :
  excluded (place a item r) = excluded r ++ excluded_of a item.
Proof.
  unfold place, excluded_of. destruct (trimmed_name item); [|symmetry; apply app_nil_r].
  destruct (classify a item); simpl; try reflexivity; symmetry; apply app_nil_r.
Qed.

Lemma place_unmapped (a : Analyzer) (item : Item.t) (r : Results) :
  unmapped (place a item r) = unmapped r ++ unmapped_of a item.
Proof.
  unfold place, unmapped_of. destruct (trimmed_name item); [|symmetry; apply app_nil_r].
  destruct (classify a item); simpl; try reflexivity; symmetry; apply app_nil_r.
Qed.

Lemma place_entries_at (a : Analyzer) (item : Item.t) (r : Results) (c : string) :
  entries_at c (included (place a item r)) =
  entries_at c (included r) ++ contributed_to a c item.
Proof.
  unfold entries_at, contributed_to. rewrite place_included.
  destruct (trimmed_name item) as [name|]; [|symmetry; apply app_nil_r].
  destruct (classify a item) as [| |mapping|]; try (symmetry; apply app_nil_r).
  rewrite get_add_contributor.
  destruct (String.eqb (MappingRule.canonical_name mapping) c); [|symmetry; apply app_nil_r].
  destruct (JSMap.get c (included r)); reflexivity.
Qed.

Lemma place_all_excluded (a : Analyzer) (items : list Item.t) (r : Results) :
  excluded (place_all a items r) = excluded r ++ flat_map (excluded_of a) items.
Proof.
  revert r. induction items as [|item items IH]; intros r; simpl.
  - symmetry. apply app_nil_r.
  - fold (place_all a items (place a item r)). rewrite IH, place_excluded, app_assoc.
    reflexivity.
Qed.

Lemma place_all_unmapped (a : Analyzer) (items : list Item.t) (r : Results) :
  unmapped (place_all a items r) = unmapped r ++ flat_map (unmapped_of a) items.
Proof.
  revert r. induction items as [|item items IH]; intros r; simpl.
  - symmetry. apply app_nil_r.
  - fold (place_all a items (place a item r)). rewrite IH, place_unmapped, app_assoc.
    reflexivity.
Qed.

Lemma place_all_entries_at (a : Analyzer) (items : list Item.t) (r : Results) (c : string) :
  entries_at c (included (place_all a items r)) =
  entries_at c (included r) ++ flat_map (contributed_to a c) items.
Proof.
  revert r. induction items as [|item items IH]; intros r; simpl.
  - symmetry. apply app_nil_r.
  - fold (place_all a items (place a item r)). rewrite IH, place_entries_at, app_assoc.
    reflexivity.
Qed.

Lemma add_contributor_wf (mapping : MappingRule.t) (e : Entry.t) (m : JSMap.t Aggregate.t) :
  aggregates_wf m -> aggregates_wf (add_contributor mapping e m).
Proof.
  intros [N F]. unfold add_contributor.
  set (c := MappingRule.canonical_name mapping).
  destruct (JSMap.has c m) eqn:H; simpl.
  - split; [rewrite JSMap_keys_mutate; exact N|].
    clear N H. induction m as [|[k agg] m IH]; simpl; [constructor|].
    inversion F as [|? ? [Hk He] F']; subst. simpl in *.
    destruct (String.eqb k c).
    + constructor; [|exact F']. simpl. split; [exact Hk|]. intros E.
      apply app_eq_nil in E. destruct E as [_ E]. discriminate.
    + constructor; [split; assumption|]. apply IH, F'.
  - apply JSMap_has_get in H.
    rewrite (JSMap_set_fresh _ _ _ H), (JSMap_mutate_fresh _ _ _ _ H). split.
    + rewrite map_app. simpl.
      apply Permutation_NoDup with (l := c :: map fst m).
      * apply Permutation_cons_append.
      * constructor; [apply JSMap_get_None, H|exact N].
    + apply Forall_app. split; [exact F|]. constructor; [|constructor]. simpl.
      split; [reflexivity|discriminate].
Qed.

Lemma place_wf (a : Analyzer) (item : Item.t) (r : Results) :
  aggregates_wf (included r) -> aggregates_wf (included (place a item r)).
Proof.
  intros W. rewrite place_included.
  destruct (trimmed_name item); [|exact W].
  destruct (classify a item); try exact W. apply add_contributor_wf, W.
Qed.

Lemma place_all_wf (a : Analyzer) (items : list Item.t) (r : Results) :
  aggregates_wf (included r) -> aggregates_wf (included (place_all a items r)).
Proof.
  revert r. induction items as [|item items IH]; intros r W; simpl; [exact W|].
  apply IH, place_wf, W.
Qed.

End Buckets.

(** X3.  The buckets keep the order of the input.  When the rules load and
    the names of the entries are texts or missing, in the result of
    [analyze], [excluded] lists, in input order, one record for each entry
    that an exclusion rule matches; [unmapped] lists, in input order, the
    entries that no rule matches; and the aggregate of a canonical name
    lists, in input order, the entries mapped to that name.  Each record
    carries the trimmed name and, for the last two, the publisher and the
    deviceCount of its entry unchanged. *)
Theorem buckets_in_input_order {runtime : Runtime} (softwareList : list Item.t) (w : World) :
  rules_load w ->
  Forall text_name softwareList ->
  exists r w',
    analyze softwareList w = (Normal r, w') /\
    excluded r = flat_map (excluded_of (loaded_analyzer w)) softwareList /\
    unmapped r = flat_map (unmapped_of (loaded_analyzer w)) softwareList /\
    forall c agg, JSMap.get c (included r) = Some agg ->
      Aggregate.originalEntries agg =
      flat_map (contributed_to (loaded_analyzer w) c) softwareList.
Proof.
  intros L Text. eexists. eexists. split; [exact (analyze_run _ w L Text)|].
  split; [exact (place_all_excluded _ softwareList (mkResults JSMap.empty [] []))|].
  split; [exact (place_all_unmapped _ softwareList (mkResults JSMap.empty [] []))|].
  intros c agg G.
  pose proof (place_all_entries_at (loaded_analyzer w) softwareList
                (mkResults JSMap.empty [] []) c) as E.
  unfold entries_at in E at 1. rewrite G in E. exact E.
Qed.

(** X4.  The aggregates are well formed.  When the rules load and the names
    of the entries are texts or missing, in the result of [analyze] the
    canonical names of [includedArray] are pairwise distinct, every aggregate
    is stored under its own canonical name and has at least one entry
    (originalCount is at least 1), and a canonical name has an aggregate
    exactly when some entry of the input is mapped to it. *)
Theorem aggregates_well_formed {runtime : Runtime} (softwareList : list Item.t) (w : World) :
  rules_load w ->
  Forall text_name softwareList ->
  exists r w',
    analyze softwareList w = (Normal r, w') /\
    NoDup (map Included.canonicalName (includedArray r)) /\
    Forall (fun i => 1 <= Included.originalCount i /\
                     JSMap.get (Included.canonicalName i) (included r) =
                     Some (Included.item i))
           (includedArray r) /\
    forall c, In c (map Included.canonicalName (includedArray r)) <->
      exists item mapping,
        In item softwareList /\
        classify (loaded_analyzer w) item = ToIncluded mapping /\
        MappingRule.canonical_name mapping = c.
Proof.
  intros L Text. eexists. eexists. split; [exact (analyze_run _ w L Text)|].
  set (a := loaded_analyzer w).
  set (r := place_all a softwareList (mkResults JSMap.empty [] [])).
  assert (W : aggregates_wf (included r)).
  { apply place_all_wf. split; constructor. }
  destruct W as [N F].
  assert (K : map Included.canonicalName (includedArray r) = map fst (included r)).
  { unfold includedArray, JSMap.values. rewrite !map_map. apply map_ext_in.
    intros kv H. rewrite Forall_forall in F. apply (F kv H). }
  split; [rewrite K; exact N|]. split.
  - unfold includedArray, JSMap.values. rewrite map_map, Forall_forall.
    intros i Hi. apply in_map_iff in Hi. destruct Hi as ([k agg] & <- & Hkv).
    rewrite Forall_forall in F. destruct (F _ Hkv) as [Hk He]. simpl in *. split.
    + destruct (Aggregate.originalEntries agg); [congruence|simpl; lia].
    + unfold Included.canonicalName. simpl. rewrite Hk.
      apply JSMap_get_In; assumption.
  - intros c. rewrite K.
    pose proof (place_all_entries_at a softwareList (mkResults JSMap.empty [] []) c) as E.
    fold r in E. simpl in E. split.
    + intros Hc.
      destruct (JSMap.get c (included r)) as [agg|] eqn:G;
        [|apply JSMap_get_None in G; contradiction].
      assert (NE : flat_map (contributed_to a c) softwareList <> []).
      { rewrite <- E. unfold entries_at. rewrite G.
        apply in_map_iff in Hc. destruct Hc as ([k agg'] & Hk & Hkv). simpl in Hk. subst k.
        rewrite (JSMap_get_In c agg' _ N Hkv) in G. injection G as <-.
        rewrite Forall_forall in F. apply (F _ Hkv). }
      destruct (flat_map (contributed_to a c) softwareList) as [|e es] eqn:FM; [congruence|].
      assert (He : In e (flat_map (contributed_to a c) softwareList))
        by (rewrite FM; left; reflexivity).
      apply in_flat_map in He. destruct He as (item & Hitem & He).
      unfold contributed_to in He.
      destruct (trimmed_name item); [|contradiction].
      destruct (classify a item) as [| |mapping|] eqn:C; try contradiction.
      destruct (String.eqb (MappingRule.canonical_name mapping) c) eqn:Q; [|contradiction].
      apply String.eqb_eq in Q. exists item, mapping. repeat split; assumption.
    + intros (item & mapping & Hitem & C & Q).
      destruct (JSMap.get c (included r)) as [agg|] eqn:G.
      * clear E. revert G. generalize (included r). intros m.
        induction m as [|[k v] m IH]; simpl; [discriminate|].
        destruct (String.eqb k c) eqn:Ek; [apply String.eqb_eq in Ek; left; exact Ek|].
        intros G. right. apply IH, G.
      * exfalso. unfold entries_at in E. rewrite G in E.
        assert (He : In (entry_of (match trimmed_name item with Some n => n | None => "" end) item)
                        (flat_map (contributed_to a c) softwareList)).
        { apply in_flat_map. exists item. split; [exact Hitem|].
          unfold contributed_to. rewrite C.
          destruct (trimmed_name item) as [n|] eqn:T.
          - rewrite Q, String.eqb_refl. left. reflexivity.
          - unfold classify in C. rewrite T in C. discriminate. }
        rewrite <- E in He. exact He.
Qed.

(** ** What a run does to the store *)

Lemma only_pending_added_refl (names : list string) (d : Database) :
  only_pending_added names d d.
Proof.
  repeat split. exists []. rewrite app_nil_r. repeat split; constructor.
Qed.

Lemma insert_pending_grows (name : string) (names : list string) (d : Database) :
  In name names -> only_pending_added names d (snd (insert_pending name d)).
Proof.
  intros Hn. unfold insert_pending.
  destruct (existsb _ (disposition_mappings d)) eqn:E; simpl.
  - apply only_pending_added_refl.
  - repeat split. exists [pending_row name]. split; [reflexivity|]. split.
    + constructor; [|constructor]. exists name. split; [exact Hn|]. split; [reflexivity|].
      intros HI. apply in_map_iff in HI. destruct HI as (dm & Hdm & HI).
      assert (T : existsb (fun dm => String.eqb (DispositionMapping.canonical_name dm) name)
                    (disposition_mappings d) = true).
      { apply existsb_exists. exists dm. split; [exact HI|]. rewrite Hdm. apply String.eqb_refl. }
      rewrite T in E. discriminate.
    + simpl. constructor; [intros []|constructor].
Qed.

Lemma only_pending_added_trans (names : list string) (d0 d1 d2 : Database) :
  only_pending_added names d0 d1 -> only_pending_added names d1 d2 ->
  only_pending_added names d0 d2.
Proof.
  intros (E1 & S1 & A1 & H1 & add1 & D1 & F1 & N1) (E2 & S2 & A2 & H2 & add2 & D2 & F2 & N2).
  split; [congruence|]. split; [congruence|]. split; [congruence|]. split; [congruence|].
  exists (add1 ++ add2). split; [rewrite D2, D1, app_assoc; reflexivity|].
  rewrite Forall_forall in F1, F2. split.
  - rewrite Forall_forall. intros row Hrow. apply in_app_or in Hrow.
    destruct Hrow as [Hrow|Hrow]; [apply F1, Hrow|].
    destruct (F2 row Hrow) as (c & Hc & Er & Nc). exists c. split; [exact Hc|].
    split; [exact Er|]. intros HI. apply Nc. rewrite D1, map_app. apply in_or_app.
    left. exact HI.
  - rewrite map_app. apply NoDup_app; [exact N1|exact N2|].
    intros x H1x H2x. apply in_map_iff in H2x. destruct H2x as (row & <- & Hrow).
    destruct (F2 row Hrow) as (c & _ & -> & Nc). apply Nc.
    rewrite D1, map_app. apply in_or_app. right. exact H1x.
Qed.

Lemma create_pending_cases (name : string) (m : JSMap.t Disposition.t) (w : World) :
  create_pending name m w =
  if hd false (outages w)
  then (Normal m, mkWorld (db w) (tl (outages w)) (analyzer w) (console w))
  else (Normal (JSMap.set name pending m),
        mkWorld (snd (insert_pending name (db w))) (tl (outages w)) (analyzer w) (console w)).
Proof.
  unfold create_pending, try_catch, bind.
  destruct (hd false (outages w)) eqn:O.
  - rewrite (pool_query_down _ w O). reflexivity.
  - rewrite (pool_query_up _ w O). reflexivity.
Qed.

Lemma create_missing_store (names all : list string) (m : JSMap.t Disposition.t) (w : World) :
  (forall n, In n names -> In n all) ->
  exists m' w',
    create_missing names m w = (Normal m', w') /\
    analyzer w' = analyzer w /\ console w' = console w /\
    only_pending_added all (db w) (db w').
Proof.
  revert m w. induction names as [|name names IH]; intros m w Sub.
  - exists m, w. repeat split. apply only_pending_added_refl.
  - unfold create_missing. simpl. unfold bind. rewrite create_pending_cases.
    assert (Sub' : forall n, In n names -> In n all) by (intros n H; apply Sub; right; exact H).
    destruct (hd false (outages w)).
    + destruct (IH m (mkWorld (db w) (tl (outages w)) (analyzer w) (console w)) Sub')
        as (m' & w' & R & A & C & G).
      exists m', w'. unfold create_missing in R. rewrite R. simpl in *.
      split; [reflexivity|]. split; [exact A|]. split; [exact C|exact G].
    + destruct (IH (JSMap.set name pending m)
                  (mkWorld (snd (insert_pending name (db w))) (tl (outages w))
                     (analyzer w) (console w)) Sub')
        as (m' & w' & R & A & C & G).
      exists m', w'. unfold create_missing in R. rewrite R. simpl in *.
      split; [reflexivity|]. split; [exact A|]. split; [exact C|].
      eapply only_pending_added_trans; [|exact G].
      apply insert_pending_grows, Sub. left. reflexivity.
Qed.

Lemma fetch_dispositions_store (names : list string) (w : World) :
  exists m w',
    fetch_dispositions names w = (Normal m, w') /\
    db w' = db w /\ analyzer w' = analyzer w.
Proof.
  unfold fetch_dispositions.
  destruct (0 <? List.length names)%nat; [|exists JSMap.empty, w; repeat split].
  unfold try_catch, bind.
  destruct (hd false (outages w)) eqn:O.
  - rewrite (pool_query_down _ w O). simpl. eexists. eexists. repeat split.
  - rewrite (pool_query_up _ w O). simpl. eexists. eexists. repeat split.
Qed.

(** [enrich] leaves the tables as they are, but for pending rows added for
    names that had none. *)
Lemma enrich_store (arr : list Included.t) (w : World) :
  exists result w',
    enrich arr w = (Normal result, w') /\
    analyzer w' = analyzer w /\
    only_pending_added (map Included.canonicalName arr) (db w) (db w').
Proof.
  unfold enrich, bind.
  destruct (fetch_dispositions_store (map Included.canonicalName arr) w) as (m & w1 & R1 & D1 & A1).
  rewrite R1.
  match goal with
  | |- context [create_missing ?names m w1] =>
      destruct (create_missing_store names (map Included.canonicalName arr) m w1)
        as (m' & w2 & R2 & A2 & _ & G)
  end.
  { intros n H. apply filter_In in H. apply H. }
  rewrite R2. eexists. eexists. split; [reflexivity|].
  split; [congruence|]. rewrite <- D1. exact G.
Qed.

Lemma log_history_store (row : AnalysisHistory.t) (w : World) :
  exists w',
    log_history row w = (Normal tt, w') /\
    exclusion_rules (db w') = exclusion_rules (db w) /\
    software_mappings (db w') = software_mappings (db w) /\
    disposition_mappings (db w') = disposition_mappings (db w) /\
    approved_software (db w') = approved_software (db w) /\
    (analysis_history (db w') = analysis_history (db w) \/
     analysis_history (db w') = analysis_history (db w) ++ [row]).
Proof.
  unfold log_history, try_catch.
  destruct (hd false (outages w)) eqn:O.
  - rewrite (pool_query_down _ w O). eexists. split; [reflexivity|].
    simpl. repeat split. left. reflexivity.
  - rewrite (pool_query_up _ w O). simpl. eexists. split; [reflexivity|].
    simpl. repeat split. right. reflexivity.
Qed.

Section HandlerRuns.
Context {runtime : Runtime}.

(** The handler, step by step, once the rules have loaded. *)
Lemma analyze_handler_steps (originalname : string) (agencyName : option string)
    (softwareList : list Item.t) (w : World) :
  rules_load w ->
  Forall text_name softwareList ->
  exists r w1 enriched w2 w3,
    analyze softwareList w = (Normal r, w1) /\
    db w1 = db w /\
    enrich (includedArray r) w1 = (Normal enriched, w2) /\
    log_history
      (AnalysisHistory.mk originalname agencyName (List.length softwareList)
         (List.length (includedArray r)) (List.length (excluded r)) "completed") w2 =
    (Normal tt, w3) /\
    analyze_handler originalname agencyName softwareList w =
    (Normal
       (Json
          (Response.mk true agencyName
             (mkSummary (List.length softwareList) (List.length enriched)
                (List.length (excluded r)) (List.length (unmapped r))
                (List.length
                   (filter (fun i => String.eqb (Enriched.disposition i) "pending") enriched)))
             (JSArray.sort by_canonicalName enriched)
             (excluded r)
             (JSArray.sort by_deviceCount_desc (unmapped r)))),
     w3).
Proof.
  intros L Text. pose proof (analyze_run softwareList w L Text) as RA.
  set (r := place_all (loaded_analyzer w) softwareList (mkResults JSMap.empty [] [])) in *.
  set (w1 := warn (after_load w) (log_all (loaded_analyzer w) softwareList)) in *.
  destruct (enrich_run (includedArray r) w1) as (m1 & w2 & RE & _).
  destruct (log_history_run
              (AnalysisHistory.mk originalname agencyName (List.length softwareList)
                 (List.length (includedArray r)) (List.length (excluded r)) "completed") w2)
    as (w3 & RH).
  exists r, w1, (map (with_disposition m1) (includedArray r)), w2, w3.
  split; [exact RA|]. split; [reflexivity|]. split; [exact RE|]. split; [exact RH|].
  unfold analyze_handler, try_catch, bind. rewrite RA, RE, RH. reflexivity.
Qed.

End HandlerRuns.

Lemma list_sum_permutation (l l' : list nat) :
  Permutation l l' -> list_sum l = list_sum l'.
Proof. induction 1; simpl; lia. Qed.

Lemma length_flat_map_sum {A B} (f : A -> list B) (l : list A) :
  List.length (flat_map f l) = list_sum (map (fun x => List.length (f x)) l).
Proof.
  induction l as [|x l IH]; simpl; [reflexivity|]. rewrite length_app, IH. reflexivity.
Qed.

Lemma classified_names_length (items : list Item.t) :
  List.length (classified_names items) <= List.length items.
Proof.
  induction items as [|item items IH]; simpl; [lia|].
  rewrite length_app. destruct (trimmed_name item); simpl; lia.
Qed.

Lemma enrich_items (arr : list Included.t) (w : World) (enriched : list Enriched.t) (w' : World) :
  enrich arr w = (Normal enriched, w') -> map Enriched.item enriched = arr.
Proof.
  intros R. destruct (enrich_run arr w) as (m1 & w2 & R' & _).
  rewrite R in R'. injection R' as -> _. rewrite map_map. simpl. apply map_id.
Qed.

(** X5.  The counters of the response add up.  Once the rules have loaded,
    for entries whose names are texts or missing, the handler answers with a body whose summary satisfies: totalInput is
    the number of entries; the excluded count, the originalCounts of the
    aggregates and the unmapped count sum to the number of entries with a
    non-blank name, which is at most totalInput; totalOutput, the excluded
    count and the unmapped count are the lengths of the three lists of the
    body; and pendingDisposition is at most totalOutput. *)
Theorem summary_counts_add_up {runtime : Runtime} (originalname : string)
    (agencyName : option string) (softwareList : list Item.t) (w : World) :
  rules_load w ->
  Forall text_name softwareList ->
  exists body w',
    analyze_handler originalname agencyName softwareList w = (Normal (Json body), w') /\
    totalInput (Response.summary body) = List.length softwareList /\
    summary_excluded (Response.summary body) +
      list_sum (map (fun e => Included.originalCount (Enriched.item e)) (Response.included body)) +
      summary_unmapped (Response.summary body) =
    List.length (classified_names softwareList) /\
    List.length (classified_names softwareList) <= totalInput (Response.summary body) /\
    totalOutput (Response.summary body) = List.length (Response.included body) /\
    summary_excluded (Response.summary body) = List.length (Response.excluded body) /\
    summary_unmapped (Response.summary body) = List.length (Response.unmapped body) /\
    pendingDisposition (Response.summary body) <= totalOutput (Response.summary body).
Proof.
  intros L Text.
  destruct (analyze_handler_steps originalname agencyName softwareList w L Text)
    as (r & w1 & enriched & w2 & w3 & RA & _ & RE & _ & RH).
  eexists. eexists. split; [exact RH|]. simpl.
  pose proof (sort_permutation by_canonicalName enriched) as PS.
  split; [reflexivity|]. split; [|split; [apply classified_names_length|]].
  - rewrite (list_sum_permutation _ _ (Permutation_map _ PS)).
    rewrite <- (map_map Enriched.item Included.originalCount), (enrich_items _ _ _ _ RE).
    rewrite (analyze_run softwareList w L Text) in RA. injection RA as Er _.
    pose proof (place_all_names (loaded_analyzer w) softwareList (mkResults JSMap.empty [] []))
      as PN.
    rewrite Er in PN. apply Permutation_length in PN. simpl in PN.
    unfold all_names, excluded_names, contributor_names, unmapped_names, contributors in PN.
    rewrite !length_app, !length_map, length_flat_map_sum in PN.
    unfold includedArray. rewrite !map_map. simpl. rewrite <- PN. lia.
  - split; [symmetry; apply Permutation_length, PS|].
    split; [reflexivity|].
    split; [symmetry; apply Permutation_length, sort_permutation|].
    apply filter_length_le.
Qed.

(** X6.  When the rules do not load, the handler answers with the status
    500 and the message of the error, writes nothing to the store, writes to
    the console the line of [console.error] for the Error object (the label
    and the object as the console prints it, its stack included), and
    leaves the mapping rules of the analyzer as they were; the exclusion
    rules of the analyzer are already replaced by the active rows of the
    table when it is the second query that the store rejects, and untouched
    when it is the first: [loadRules] is not atomic. *)
Theorem rules_not_loaded_status500 {runtime : Runtime} (originalname : string)
    (agencyName : option string) (softwareList : list Item.t) (w : World) :
  ~ rules_load w ->
  exists error w',
    analyze_handler originalname agencyName softwareList w =
    (Normal (Status500 ("Analysis failed: " ++ message error)), w') /\
    db w' = db w /\
    console w' = console w ++ [("Analysis error: " ++ inspect error)%string] /\
    mappingRules (analyzer w') = mappingRules (analyzer w) /\
    exclusionRules (analyzer w') =
    if hd false (outages w) then exclusionRules (analyzer w)
    else filter ExclusionRule.is_active (exclusion_rules (db w)).
Proof.
  intros NL. unfold analyze_handler, try_catch, bind, analyze, loadRules, bind.
  destruct (hd false (outages w)) eqn:O1.
  - rewrite (pool_query_down _ w O1).
    exists (DatabaseError "connection refused"). eexists. split; [reflexivity|]. repeat split.
  - rewrite (pool_query_up _ w O1). simpl.
    destruct (hd false (tl (outages w))) eqn:O2.
    + rewrite pool_query_down by exact O2.
      exists (DatabaseError "connection refused"). eexists. split; [reflexivity|]. repeat split.
    + exfalso. apply NL. split; assumption.
Qed.

(** X7.  A run of the handler only adds to the store.  Once the rules have
    loaded, for entries whose names are texts or missing, the handler answers with its body and leaves [exclusion_rules],
    [software_mappings] and [approved_software] as they were; the rows of
    [disposition_mappings] are still there, unchanged and in place, followed
    by the rows added: each the pending row of a canonical name of the body
    that had no row, no two for one name, so that canonical names stay unique
    if they were; and [analysis_history] has at most one row more, with the
    counts of the run. *)
Theorem handler_only_adds_rows {runtime : Runtime} (originalname : string)
    (agencyName : option string) (softwareList : list Item.t) (w : World) :
  rules_load w ->
  Forall text_name softwareList ->
  exists body w',
    analyze_handler originalname agencyName softwareList w = (Normal (Json body), w') /\
    exclusion_rules (db w') = exclusion_rules (db w) /\
    software_mappings (db w') = software_mappings (db w) /\
    approved_software (db w') = approved_software (db w) /\
    (exists added,
       disposition_mappings (db w') = disposition_mappings (db w) ++ added /\
       Forall (fun row => exists c,
                 In c (map Enriched.canonicalName (Response.included body)) /\
                 row = pending_row c /\
                 ~ In c (map DispositionMapping.canonical_name (disposition_mappings (db w))))
              added /\
       NoDup (map DispositionMapping.canonical_name added)) /\
    (NoDup (map DispositionMapping.canonical_name (disposition_mappings (db w))) ->
     NoDup (map DispositionMapping.canonical_name (disposition_mappings (db w')))) /\
    (analysis_history (db w') = analysis_history (db w) \/
     exists row,
       analysis_history (db w') = analysis_history (db w) ++ [row] /\
       AnalysisHistory.input_count row = List.length softwareList /\
       AnalysisHistory.output_count row = List.length (Response.included body) /\
       AnalysisHistory.excluded_count row = List.length (Response.excluded body)).
Proof.
  intros L Text.
  destruct (analyze_handler_steps originalname agencyName softwareList w L Text)
    as (r & w1 & enriched & w2 & w3 & RA & D1 & RE & RL & RH).
  destruct (enrich_store (includedArray r) w1) as (res & w2' & RE' & _ & G).
  rewrite RE in RE'. injection RE' as <- <-.
  destruct G as (GE & GS & GA & GH & added & GD & GF & GN).
  destruct (log_history_store
              (AnalysisHistory.mk originalname agencyName (List.length softwareList)
                 (List.length (includedArray r)) (List.length (excluded r)) "completed") w2)
    as (w3' & RL' & HE & HS & HD & HA & HH).
  rewrite RL in RL'. injection RL' as <-.
  rewrite D1 in *.
  eexists. eexists. split; [exact RH|]. simpl.
  split; [congruence|]. split; [congruence|]. split; [congruence|].
  assert (Names : forall c, In c (map Included.canonicalName (includedArray r)) ->
                    In c (map Enriched.canonicalName (JSArray.sort by_canonicalName enriched))).
  { intros c Hc. rewrite <- (enrich_items _ _ _ _ RE), map_map in Hc.
    eapply Permutation_in; [|exact Hc].
    apply Permutation_map, Permutation_sym, sort_permutation. }
  split; [|split].
  - exists added. rewrite HD. split; [exact GD|]. split; [|exact GN].
    rewrite Forall_forall in *. intros row Hrow.
    destruct (GF row Hrow) as (c & Hc & Er & Nc). exists c.
    split; [apply Names, Hc|]. split; assumption.
  - intros N. rewrite HD, GD, map_app. apply NoDup_app; [exact N|exact GN|].
    intros x Hx Ha. apply in_map_iff in Ha. destruct Ha as (row & <- & Hrow).
    rewrite Forall_forall in GF. destruct (GF row Hrow) as (c & _ & -> & Nc).
    apply Nc. exact Hx.
  - destruct HH as [HH|HH]; [left; congruence|]. right.
    eexists. split; [rewrite HH, GH; reflexivity|]. simpl.
    split; [reflexivity|]. split; [|reflexivity].
    rewrite (Permutation_length (sort_permutation by_canonicalName enriched)).
    rewrite <- (enrich_items _ _ _ _ RE). apply length_map.
Qed.

Section Sorted.
Context {runtime : Runtime}.

Lemma unmapped_of_counted (a : Analyzer) (items : list Item.t) :
  Forall counted items -> Forall has_count_key (flat_map (unmapped_of a) items).
Proof.
  rewrite !Forall_forall. intros H e He. apply in_flat_map in He.
  destruct He as (item & Hitem & He). specialize (H item Hitem).
  unfold unmapped_of in He. destruct (trimmed_name item); [|contradiction].
  destruct (classify a item); try contradiction. destruct He as [<-|[]].
  unfold has_count_key, count_key, counted in *. simpl.
  destruct (Item.deviceCount item); [discriminate|discriminate|contradiction].
Qed.

End Sorted.

(** X8.  The lists of the response are sorted when the comparators order
    their elements.  Once the rules have loaded, for entries whose names are
    texts or missing, if [localeCompare] orders
    the strings and every deviceCount of the input is a number or missing,
    then in the body [included] ascends by canonicalName under
    [localeCompare] and [unmapped] descends by deviceCount, a missing one
    counting as 0. *)
Theorem response_lists_sorted {runtime : Runtime} (originalname : string)
    (agencyName : option string) (softwareList : list Item.t) (w : World) :
  rules_load w ->
  Forall text_name softwareList ->
  collation runtime ->
  Forall counted softwareList ->
  exists body w',
    analyze_handler originalname agencyName softwareList w = (Normal (Json body), w') /\
    StronglySorted
      (fun a b => (localeCompare (Enriched.canonicalName a) (Enriched.canonicalName b) <= 0)%Z)
      (Response.included body) /\
    StronglySorted count_desc (Response.unmapped body).
Proof.
  intros L Text C K.
  destruct (analyze_handler_steps originalname agencyName softwareList w L Text)
    as (r & w1 & enriched & w2 & w3 & RA & _ & _ & _ & RH).
  rewrite (analyze_run softwareList w L Text) in RA. injection RA as Er _.
  assert (U : Forall has_count_key (unmapped r)).
  { rewrite <- Er.
    rewrite (place_all_unmapped (loaded_analyzer w) softwareList (mkResults JSMap.empty [] [])).
    apply unmapped_of_counted, K. }
  destruct (response_sorted enriched (unmapped r) C U) as (S1 & _ & S2 & _).
  eexists. eexists. split; [exact RH|]. split; [exact S1|exact S2].
Qed.

Section Console.
Context {runtime : Runtime}.

Lemma exclusion_log_lines (a : Analyzer) (rules : list ExclusionRule.t) (name : string) :
  (forall r, In r rules -> In r (exclusionRules a)) ->
  Forall (invalid_regex_line a) (exclusion_log rules name).
Proof.
  induction rules as [|rule rules IH]; intros Sub; simpl; [constructor|].
  apply Forall_app. split.
  - unfold exclusion_warnings, regex_warnings.
    destruct (String.eqb (ExclusionRule.pattern_type rule) "regex") eqn:T; [|constructor].
    destruct (RegExp_new (ExclusionRule.pattern_value rule) "i") eqn:R; [constructor|].
    constructor; [|constructor]. exists (ExclusionRule.pattern_value rule).
    split; [reflexivity|]. split; [exact R|]. left. exists rule.
    split; [apply Sub; left; reflexivity|]. split; [apply String.eqb_eq, T|reflexivity].
  - destruct (exclusion_matches rule name); [constructor|].
    apply IH. intros r Hr. apply Sub. right. exact Hr.
Qed.

Lemma mapping_log_lines (a : Analyzer) (rules : list MappingRule.t) (name : string) :
  (forall r, In r rules -> In r (mappingRules a)) ->
  Forall (invalid_regex_line a) (mapping_log rules name).
Proof.
  induction rules as [|rule rules IH]; intros Sub; simpl; [constructor|].
  apply Forall_app. split.
  - unfold mapping_warnings, regex_warnings.
    destruct (String.eqb (MappingRule.pattern_type rule) "regex") eqn:T; [|constructor].
    destruct (RegExp_new (MappingRule.original_pattern rule) "i") eqn:R; [constructor|].
    constructor; [|constructor]. exists (MappingRule.original_pattern rule).
    split; [reflexivity|]. split; [exact R|]. right. exists rule.
    split; [apply Sub; left; reflexivity|]. split; [apply String.eqb_eq, T|reflexivity].
  - destruct (mapping_matches rule name); [constructor|].
    apply IH. intros r Hr. apply Sub. right. exact Hr.
Qed.

Lemma log_all_lines (a : Analyzer) (items : list Item.t) :
  Forall (invalid_regex_line a) (log_all a items).
Proof.
  unfold log_all. induction items as [|item items IH]; simpl; [constructor|].
  apply Forall_app. split; [|exact IH].
  unfold item_log. destruct (trimmed_name item) as [name|]; [|constructor].
  apply Forall_app. split; [apply exclusion_log_lines; auto|].
  destruct (first_exclusion (exclusionRules a) name); [constructor|].
  apply mapping_log_lines. auto.
Qed.

End Console.

(** X9.  [analyze] only reads the store and only warns of invalid regular
    expressions.  When the rules load and the names of the entries are texts
    or missing, [analyze] returns after two queries,
    with the store as it was and the analyzer holding the active rules; every
    line it has written to the console is the warning of a pattern of an
    active rule of type regex that the constructor rejects (so none at all
    when every such pattern compiles). *)
Theorem analyze_reads_and_warns {runtime : Runtime} (softwareList : list Item.t) (w : World) :
  rules_load w ->
  Forall text_name softwareList ->
  exists r w' lines,
    analyze softwareList w = (Normal r, w') /\
    db w' = db w /\
    outages w' = tl (tl (outages w)) /\
    analyzer w' = loaded_analyzer w /\
    console w' = console w ++ lines /\
    Forall (invalid_regex_line (loaded_analyzer w)) lines.
Proof.
  intros L Text. eexists. eexists. exists (log_all (loaded_analyzer w) softwareList).
  split; [exact (analyze_run _ w L Text)|]. repeat split. apply log_all_lines.
Qed.

(** ** Dispositions that the store holds *)

Lemma set_rows_other (rows : list DispositionRow.t) (m : JSMap.t Disposition.t) (c : string) :
  (forall row, In row rows ->
     DispositionMapping.canonical_name (DispositionRow.dm row) <> c) ->
  JSMap.get c (fold_left set_row rows m) = JSMap.get c m.
Proof.
  revert m. induction rows as [|row rows IH]; intros m H; simpl; [reflexivity|].
  rewrite IH by (intros r Hr; apply H; right; exact Hr).
  unfold set_row. rewrite JSMap_get_set.
  destruct (String.eqb _ c) eqn:E; [|reflexivity].
  apply String.eqb_eq in E. exfalso. exact (H row (or_introl eq_refl) E).
Qed.

Lemma set_rows_present (rows : list DispositionRow.t) (m : JSMap.t Disposition.t) (c : string) :
  JSMap.get c (fold_left set_row rows m) <> None ->
  JSMap.get c m <> None \/
  exists row, In row rows /\ DispositionMapping.canonical_name (DispositionRow.dm row) = c.
Proof.
  revert m. induction rows as [|row rows IH]; intros m H; simpl in *; [left; exact H|].
  destruct (IH _ H) as [G|(r & Hr & E)]; [|right; exists r; split; [right|]; assumption].
  unfold set_row in G. rewrite JSMap_get_set in G.
  destruct (String.eqb _ c) eqn:E; [|left; exact G].
  right. exists row. split; [left; reflexivity|apply String.eqb_eq, E].
Qed.

Lemma left_join_last (d : Database) (dm : DispositionMapping.t) :
  exists rows row,
    left_join d dm = rows ++ [row] /\
    DispositionRow.dm row = dm /\
    DispositionRow.replacement_name row = joined_name d dm.
Proof.
  unfold left_join, joined_name.
  destruct (DispositionMapping.approved_software_id dm) as [k|];
    [|exists [], (DispositionRow.mk dm None None); repeat split].
  destruct (filter _ (approved_software d)) as [|aps rest];
    [exists [], (DispositionRow.mk dm None None); repeat split|].
  destruct (@exists_last _ (aps :: rest)) as (l' & a & E); [discriminate|].
  rewrite E, map_app. simpl. eexists. eexists. split; [reflexivity|].
  split; [reflexivity|]. simpl. f_equal. f_equal.
  assert (Q : last rest aps = last (aps :: rest) aps) by (destruct rest; reflexivity).
  rewrite Q, E, last_last. reflexivity.
Qed.

(** What the fetch leaves under the name of a row that is the only one of
    its name. *)
Lemma select_dispositions_unique (names : list string) (d : Database)
    (dm : DispositionMapping.t) (before after : list DispositionMapping.t) :
  disposition_mappings d = before ++ dm :: after ->
  In (DispositionMapping.canonical_name dm) names ->
  (forall row, In row (before ++ after) ->
     DispositionMapping.canonical_name row <> DispositionMapping.canonical_name dm) ->
  JSMap.get (DispositionMapping.canonical_name dm)
    (set_rows (fst (select_dispositions names d))) =
  Some (Disposition.mk (DispositionMapping.disposition dm)
          (DispositionMapping.approved_software_id dm)
          (joined_name d dm)
          (match left_join d dm with
           | [] => None
           | row :: rest => DispositionRow.replacement_category (last rest row)
           end)
          (DispositionMapping.notes dm)).
Proof.
  intros E Hn U. unfold set_rows, select_dispositions. simpl. rewrite E.
  rewrite filter_app. simpl.
  assert (T : existsb (String.eqb (DispositionMapping.canonical_name dm)) names = true).
  { apply existsb_exists. exists (DispositionMapping.canonical_name dm).
    split; [exact Hn|apply String.eqb_refl]. }
  rewrite T, flat_map_app. simpl. rewrite fold_left_app, fold_left_app.
  rewrite set_rows_other.
  2:{ intros row Hrow. apply in_flat_map in Hrow. destruct Hrow as (dm' & Hdm' & Hrow).
      rewrite (left_join_dm d dm' row Hrow). apply U. apply in_or_app. right.
      apply filter_In in Hdm'. apply Hdm'. }
  destruct (left_join_last d dm) as (rows & row & EJ & Hdm & Hname).
  assert (C : match left_join d dm with
              | [] => None
              | row0 :: rest => DispositionRow.replacement_category (last rest row0)
              end = DispositionRow.replacement_category row).
  { rewrite EJ. destruct rows as [|r0 rows]; [reflexivity|].
    change (DispositionRow.replacement_category (last (rows ++ [row]) r0) =
            DispositionRow.replacement_category row).
    rewrite last_last. reflexivity. }
  rewrite C, EJ, fold_left_app. simpl. unfold set_row at 1.
  rewrite JSMap_get_set, Hdm, String.eqb_refl, Hname. reflexivity.
Qed.

Lemma create_missing_other (names : list string) (m : JSMap.t Disposition.t) (w : World)
    (k : string) :
  ~ In k names ->
  exists m' w', create_missing names m w = (Normal m', w') /\ JSMap.get k m' = JSMap.get k m.
Proof.
  revert m w. induction names as [|name names IH]; intros m w Hk.
  - exists m, w. split; reflexivity.
  - unfold create_missing. simpl. unfold bind. rewrite create_pending_cases.
    assert (Hk' : ~ In k names) by (intros H; apply Hk; right; exact H).
    destruct (hd false (outages w)).
    + destruct (IH m (mkWorld (db w) (tl (outages w)) (analyzer w) (console w)) Hk')
        as (m' & w' & R & G).
      exists m', w'. unfold create_missing in R. rewrite R. split; [reflexivity|exact G].
    + destruct (IH (JSMap.set name pending m)
                  (mkWorld (snd (insert_pending name (db w))) (tl (outages w))
                     (analyzer w) (console w)) Hk')
        as (m' & w' & R & G).
      exists m', w'. unfold create_missing in R. rewrite R. split; [reflexivity|].
      rewrite G, JSMap_get_set.
      destruct (String.eqb name k) eqn:E; [|reflexivity].
      apply String.eqb_eq in E. exfalso. apply Hk. left. exact E.
Qed.

Lemma insert_pending_In (name : string) (d : Database) :
  In name (map DispositionMapping.canonical_name (disposition_mappings (snd (insert_pending name d)))).
Proof.
  unfold insert_pending.
  destruct (existsb _ (disposition_mappings d)) eqn:E; simpl.
  - apply existsb_exists in E. destruct E as (dm & Hdm & E). apply String.eqb_eq in E.
    apply in_map_iff. exists dm. split; assumption.
  - rewrite map_app. apply in_or_app. right. left. reflexivity.
Qed.

Lemma only_pending_added_In (names : list string) (d d' : Database) (c : string) :
  only_pending_added names d d' ->
  In c (map DispositionMapping.canonical_name (disposition_mappings d)) ->
  In c (map DispositionMapping.canonical_name (disposition_mappings d')).
Proof.
  intros (_ & _ & _ & _ & added & E & _) H. rewrite E, map_app. apply in_or_app. left. exact H.
Qed.

Lemma store_up_tl (w : World) (d : Database) (a : Analyzer) (c : list string) :
  store_up w -> store_up (mkWorld d (tl (outages w)) a c) /\ hd false (outages w) = false.
Proof.
  unfold store_up. simpl. destruct (outages w) as [|o rest]; simpl.
  - split; [constructor|reflexivity].
  - intros H. inversion H; subst. split; [assumption|reflexivity].
Qed.

Lemma create_missing_up (names : list string) (m : JSMap.t Disposition.t) (w : World) :
  store_up w ->
  exists m' w',
    create_missing names m w = (Normal m', w') /\
    forall c, In c names ->
      In c (map DispositionMapping.canonical_name (disposition_mappings (db w'))).
Proof.
  revert m w. induction names as [|name names IH]; intros m w U.
  - exists m, w. split; [reflexivity|]. intros c [].
  - unfold create_missing. simpl. unfold bind. rewrite create_pending_cases.
    destruct (store_up_tl w (snd (insert_pending name (db w))) (analyzer w) (console w) U)
      as [U1 O].
    rewrite O.
    set (w1 := mkWorld (snd (insert_pending name (db w))) (tl (outages w))
                 (analyzer w) (console w)) in *.
    destruct (IH (JSMap.set name pending m) w1 U1) as (m' & w' & R & H).
    destruct (create_missing_store names names (JSMap.set name pending m) w1 (fun n Hn => Hn))
      as (m'' & w'' & R' & _ & _ & G).
    rewrite R in R'. injection R' as <- <-.
    exists m', w'. unfold create_missing in R. rewrite R. split; [reflexivity|].
    intros c [<-|Hc]; [|apply H, Hc].
    apply (only_pending_added_In names _ _ name G). apply insert_pending_In.
Qed.

(** X10.  A disposition that the store holds is the one reported.  If the
    store accepts the fetch and [disposition_mappings] has exactly one row
    for the canonical name of an aggregate, then [enrich] returns that
    aggregate with the disposition of the row ("pending" when it is null or
    empty), its approved_software_id as replacementId, the name of the
    approved software it refers to as replacementName and its notes as
    dispositionNotes, whether the inserts for other names fail or not. *)
Theorem stored_disposition_reported (arr : list Included.t) (w : World) (i : Included.t)
    (dm : DispositionMapping.t) (before after : list DispositionMapping.t) :
  hd false (outages w) = false ->
  In i arr ->
  disposition_mappings (db w) = before ++ dm :: after ->
  DispositionMapping.canonical_name dm = Included.canonicalName i ->
  (forall row, In row (before ++ after) ->
     DispositionMapping.canonical_name row <> Included.canonicalName i) ->
  exists result w',
    enrich arr w = (Normal result, w') /\
    In (Enriched.mk i
          (JS.or_string (DispositionMapping.disposition dm) "pending")
          (JS.or_null_number (DispositionMapping.approved_software_id dm))
          (JS.or_null (joined_name (db w) dm))
          (JS.or_null (DispositionMapping.notes dm)))
       result.
Proof.
  intros O Hi E Hc U.
  set (names := map Included.canonicalName arr).
  assert (Hn : In (DispositionMapping.canonical_name dm) names).
  { rewrite Hc. apply in_map, Hi. }
  assert (NE : (0 <? List.length names)%nat = true).
  { destruct names; [destruct Hn|reflexivity]. }
  unfold enrich, bind, fetch_dispositions. fold names. rewrite NE.
  unfold try_catch, bind. rewrite (pool_query_up _ w O). simpl.
  set (m0 := set_rows (flat_map (left_join (db w))
                (filter (fun dm0 => existsb (String.eqb (DispositionMapping.canonical_name dm0)) names)
                   (disposition_mappings (db w))))).
  assert (G0 : JSMap.get (Included.canonicalName i) m0 =
               Some (Disposition.mk (DispositionMapping.disposition dm)
                       (DispositionMapping.approved_software_id dm)
                       (joined_name (db w) dm)
                       (match left_join (db w) dm with
                        | [] => None
                        | row :: rest => DispositionRow.replacement_category (last rest row)
                        end)
                       (DispositionMapping.notes dm))).
  { rewrite <- Hc.
    apply (select_dispositions_unique names (db w) dm before after E Hn).
    rewrite Hc. exact U. }
  match goal with
  | |- context [create_missing ?missing m0 ?w1] =>
      destruct (create_missing_other missing m0 w1 (Included.canonicalName i))
        as (m1 & w2 & R & G1)
  end.
  { intros H. apply filter_In in H. destruct H as [_ H].
    unfold JSMap.has in H. rewrite G0 in H. discriminate. }
  rewrite R. eexists. eexists. split; [reflexivity|].
  apply in_map_iff. exists i. split; [|exact Hi].
  unfold with_disposition. rewrite G1, G0. reflexivity.
Qed.

(** X11.  Rows are created once.  With the store up, after [enrich] every
    canonical name it was given has a row in [disposition_mappings]; and to
    enrich the same aggregates again, whatever the store then does, changes
    no table. *)
Theorem enrich_creates_rows_once (arr : list Included.t) (w : World) :
  store_up w ->
  exists result w',
    enrich arr w = (Normal result, w') /\
    (forall i, In i arr ->
       In (Included.canonicalName i)
          (map DispositionMapping.canonical_name (disposition_mappings (db w')))) /\
    forall outages' analyzer' console',
      exists again w'',
        enrich arr (mkWorld (db w') outages' analyzer' console') = (Normal again, w'') /\
        db w'' = db w'.
Proof.
  intros U.
  set (names := map Included.canonicalName arr).
  assert (First : exists result w',
            enrich arr w = (Normal result, w') /\
            forall c, In c names ->
              In c (map DispositionMapping.canonical_name (disposition_mappings (db w')))).
  { unfold enrich, bind. fold names.
    destruct (fetch_dispositions_run names w) as (w1 & R1).
    destruct (fetch_dispositions_store names w) as (m0' & w1' & R1' & D1 & _).
    rewrite R1 in R1'. injection R1' as <- <-. rewrite R1.
    set (m0 := if ((0 <? List.length names)%nat && negb (hd false (outages w)))%bool
               then set_rows (fst (select_dispositions names (db w))) else JSMap.empty) in *.
    assert (U1 : store_up w1).
    { revert R1. unfold fetch_dispositions.
      destruct (0 <? List.length names)%nat;
        [|intros R; apply (f_equal snd) in R; simpl in R; subst w1; exact U].
      unfold try_catch, bind.
      destruct (store_up_tl w (db w) (analyzer w) (console w) U) as [U' O].
      rewrite (pool_query_up _ w O). simpl. intros R.
      apply (f_equal snd) in R. simpl in R. subst w1. exact U'. }
    set (missing := filter (fun name => negb (JSMap.has name m0)) names).
    destruct (create_missing_up missing m0 w1 U1) as (m1 & w2 & R2 & H2).
    destruct (create_missing_store missing names m0 w1) as (m1' & w2' & R2' & _ & _ & G).
    { intros n Hn. apply filter_In in Hn. apply Hn. }
    rewrite R2 in R2'. injection R2' as <- <-.
    rewrite R2. eexists. eexists. split; [reflexivity|].
    intros c Hc. destruct (JSMap.has c m0) eqn:K.
    - apply (only_pending_added_In names _ _ c G). rewrite D1.
      unfold JSMap.has in K. destruct (JSMap.get c m0) eqn:Gc; [|discriminate].
      unfold m0 in Gc.
      destruct ((0 <? List.length names)%nat && negb (hd false (outages w)))%bool;
        [|discriminate].
      assert (P : JSMap.get c (fold_left set_row (fst (select_dispositions names (db w)))
                                 JSMap.empty) <> None)
        by (unfold set_rows in Gc; congruence).
      destruct (set_rows_present _ _ _ P) as [Gm|(row & Hrow & Er)];
        [exfalso; apply Gm; reflexivity|].
      simpl in Hrow. apply in_flat_map in Hrow. destruct Hrow as (dm & Hdm & Hrow).
      rewrite (left_join_dm _ dm row Hrow) in Er. apply filter_In in Hdm.
      apply in_map_iff. exists dm. split; [exact Er|apply Hdm].
    - apply H2. apply filter_In. split; [exact Hc|]. rewrite K. reflexivity. }
  destruct First as (result & w' & R & H).
  exists result, w'. split; [exact R|]. split; [intros i Hi; apply H, in_map, Hi|].
  intros outages' analyzer' console'.
  destruct (enrich_store arr (mkWorld (db w') outages' analyzer' console'))
    as (again & w'' & R' & _ & GE & GS & GA & GH & added & GD & GF & _).
  exists again, w''. split; [exact R'|]. simpl in *.
  assert (A : added = []).
  { destruct added as [|row added]; [reflexivity|]. exfalso.
    inversion GF as [|? ? (c & Hc & _ & Nc) _]; subst. apply Nc, H, Hc. }
  subst added. rewrite app_nil_r in GD.
  destruct (db w''), (db w'). simpl in *. congruence.
Qed.

(** ** Finding the columns of the sheet *)

Lemma property_In (row : Row) (k : string) :
  In k (keys row) -> In (k, property row k) row.
Proof.
  induction row as [|[k' v] row IH]; simpl; [intros []|].
  destruct (String.eqb k' k) eqn:E.
  - apply String.eqb_eq in E. subst k'. intros _. left. reflexivity.
  - intros [H|H]; [apply String.eqb_neq in E; contradiction|]. right. apply IH, H.
Qed.

Lemma found_cell_Some (row : Row) (p : string -> bool) (cell : JS.value) :
  found_cell row (find p (keys row)) = Some cell ->
  JS.truthy cell = true /\
  exists k, In (k, cell) row /\ k <> "" /\ p k = true.
Proof.
  unfold found_cell. destruct (find p (keys row)) as [k|] eqn:F; [|discriminate].
  apply find_some in F. destruct F as [Hk Hp].
  destruct (String.eqb k "") eqn:E; [discriminate|].
  destruct (JS.truthy (property row k)) eqn:T; [|discriminate].
  intros H. injection H as <-. split; [exact T|].
  exists k. split; [apply property_In, Hk|]. split; [apply String.eqb_neq, E|exact Hp].
Qed.

Lemma findColumn_Some (row : Row) (possibleNames : list string) (cell : JS.value) :
  findColumn row possibleNames = Some cell ->
  JS.truthy cell = true /\
  exists k name,
    In (k, cell) row /\ k <> "" /\ In name possibleNames /\
    (exact_key name k = true \/ partial_key name k = true).
Proof.
  induction possibleNames as [|name rest IH]; simpl; [discriminate|].
  destruct (found_cell row (find (exact_key name) (keys row))) as [c1|] eqn:F1.
  - intros H. injection H as <-.
    destruct (found_cell_Some row _ _ F1) as (T & k & Hk & Ne & Hp).
    split; [exact T|]. exists k, name. repeat split; auto.
  - destruct (found_cell row (find (partial_key name) (keys row))) as [c2|] eqn:F2.
    + intros H. injection H as <-.
      destruct (found_cell_Some row _ _ F2) as (T & k & Hk & Ne & Hp).
      split; [exact T|]. exists k, name. repeat split; auto.
    + intros H. destruct (IH H) as (T & k & n & Hk & Ne & Hn & Hp).
      split; [exact T|]. exists k, n. repeat split; auto.
Qed.

(** X12.  [findColumn] returns null or a truthy cell of the row.  A value it
    returns is truthy (never 0, never the empty text) and is the cell of a
    column of the row whose header is not empty and, in lower case, equals
    after trimming or contains one of the candidate names in lower case. *)
Theorem findColumn_returns_truthy_cell (row : Row) (possibleNames : list string)
    (cell : JS.value) :
  findColumn row possibleNames = Some cell ->
  JS.truthy cell = true /\
  exists k name,
    In (k, cell) row /\ k <> "" /\ In name possibleNames /\
    (JS.trim (JS.toLowerCase k) = JS.toLowerCase name \/
     JS.includes (JS.toLowerCase k) (JS.toLowerCase name) = true).
Proof.
  intros H. destruct (findColumn_Some row possibleNames cell H)
    as (T & k & name & Hk & Ne & Hn & Hp).
  split; [exact T|]. exists k, name. repeat split; auto.
  destruct Hp as [Hp|Hp]; [left; apply String.eqb_eq, Hp|right; exact Hp].
Qed.

(** X13.  Earlier candidate names take precedence.  Looking for the names
    [first ++ others] gives what looking for [first] gives, and only when
    that is null what looking for [others] gives; on a row without columns
    the result is null. *)
Theorem findColumn_precedence (row : Row) (first others : list string) :
  findColumn row (first ++ others) =
  match findColumn row first with
  | Some cell => Some cell
  | None => findColumn row others
  end /\
  findColumn [] (first ++ others) = None.
Proof.
  split.
  - induction first as [|name first IH]; simpl; [reflexivity|].
    destruct (found_cell row (find (exact_key name) (keys row))); [reflexivity|].
    destruct (found_cell row (find (partial_key name) (keys row))); [reflexivity|].
    exact IH.
  - induction (first ++ others) as [|name l IH]; simpl; [reflexivity|exact IH].
Qed.

Lemma property_unique (row : Row) (k : string) (v : JS.value) :
  NoDup (keys row) -> In (k, v) row -> property row k = v.
Proof.
  induction row as [|[k' v'] row IH]; simpl; [intros _ []|].
  intros N [H|H].
  - injection H as -> ->. rewrite String.eqb_refl. reflexivity.
  - inversion N as [|? ? Nk N']; subst.
    destruct (String.eqb k' k) eqn:E.
    + apply String.eqb_eq in E. subst k'. exfalso. apply Nk.
      apply in_map_iff. exists (k, v). split; [reflexivity|exact H].
    + apply IH; assumption.
Qed.

Lemma case_variant_empty (s t : string) :
  case_variant s t -> String.eqb s "" = String.eqb t "".
Proof. destruct 1; reflexivity. Qed.

Lemma find_variant (p p' : string -> bool) (row row' : Row) :
  row_variant row row' ->
  (forall k k', case_variant k k' -> p k = p' k') ->
  match find p (keys row), find p' (keys row') with
  | Some k, Some k' => case_variant k k' /\ exists v, In (k, v) row /\ In (k', v) row'
  | None, None => True
  | _, _ => False
  end.
Proof.
  intros V P. unfold row_variant in V.
  induction V as [|[k v] [k' v'] row row' H V IH]; simpl; [exact I|].
  destruct H as [Hk Hv].
  simpl in Hk, Hv. subst v'. rewrite <- (P k k' Hk).
  destruct (p k).
  - split; [exact Hk|]. exists v. split; left; reflexivity.
  - unfold keys in *.
    destruct (find p (map fst row)) as [k0|], (find p' (map fst row')) as [k0'|];
      try exact IH.
    simpl in IH. destruct IH as (Hk0 & v0 & H1 & H2). split; [exact Hk0|].
    exists v0. split; right; assumption.
Qed.

Lemma found_cell_variant (p p' : string -> bool) (row row' : Row) :
  NoDup (keys row) -> NoDup (keys row') ->
  row_variant row row' ->
  (forall k k', case_variant k k' -> p k = p' k') ->
  found_cell row' (find p' (keys row')) = found_cell row (find p (keys row)).
Proof.
  intros N N' V P. pose proof (find_variant p p' row row' V P) as F.
  unfold found_cell.
  destruct (find p (keys row)) as [k|], (find p' (keys row')) as [k'|];
    try contradiction; [|reflexivity].
  destruct F as (Hk & v & H1 & H2).
  rewrite (property_unique row k v N H1), (property_unique row' k' v N' H2).
  rewrite (case_variant_empty k k' Hk). reflexivity.
Qed.

(** X14.  The headers are matched without regard to case.  Between two rows
    with the same cells, in the same order, under headers that differ in the
    case of letters only (the headers of each row distinct), and for
    candidate names that differ in case only, [findColumn] returns the
    same. *)
Theorem findColumn_ignores_case (row row' : Row) (names names' : list string) :
  NoDup (keys row) -> NoDup (keys row') ->
  row_variant row row' ->
  Forall2 case_variant names names' ->
  findColumn row' names' = findColumn row names.
Proof.
  intros N N' V VN. induction VN as [|name name' names names' Hn VN IH]; simpl;
    [reflexivity|].
  rewrite (found_cell_variant (exact_key name) (exact_key name') row row' N N' V).
  2:{ intros k k' Hk. unfold exact_key.
      rewrite (case_variant_toLowerCase k k' Hk), (case_variant_toLowerCase name name' Hn).
      reflexivity. }
  rewrite (found_cell_variant (partial_key name) (partial_key name') row row' N N' V).
  2:{ intros k k' Hk. unfold partial_key.
      rewrite (case_variant_toLowerCase k k' Hk), (case_variant_toLowerCase name name' Hn).
      reflexivity. }
  rewrite IH. reflexivity.
Qed.

Lemma or_else_truthy (found : option JS.value) (fallback : JS.value) :
  JS.truthy fallback = true -> JS.truthy (or_else found fallback) = true.
Proof.
  intros T. unfold or_else, JS.or. destruct found as [cell|]; [|exact T].
  destruct (JS.truthy cell) eqn:E; assumption.
Qed.

Lemma extract_item_named (row : Row) :
  JS.truthy (Item.name (extract_item row)) = true <->
  findColumn row ["software name"; "name"; "application"; "app name"; "program"] <> None \/
  JS.truthy (first_value row) = true.
Proof.
  unfold extract_item. cbn [Item.name]. unfold or_else, JS.or.
  destruct (findColumn row ["software name"; "name"; "application"; "app name"; "program"])
    as [cell|] eqn:F.
  - destruct (findColumn_Some row _ cell F) as [T _]. rewrite T.
    split; [intros _; left; discriminate|intros _; exact T].
  - split; [intros T; right; exact T|intros [H|H]; [congruence|exact H]].
Qed.

(** X15.  What the handler hands to [analyze].  Every element of
    [softwareList] comes from a row of the sheet, in the order of the rows,
    and has a truthy name, a truthy deviceCount (the default 1 stands in for
    a missing or falsy count: no element has the count 0, an empty one or
    none) and a publisher that is truthy or the empty text.  A row gives an
    element exactly when a name column is found or its first cell is
    truthy; so there are at most as many elements as rows. *)
Theorem softwareList_extracted (data : list Row) :
  Forall (fun item =>
            JS.truthy (Item.name item) = true /\
            JS.truthy (Item.deviceCount item) = true /\
            (Item.publisher item = JS.Str "" \/ JS.truthy (Item.publisher item) = true))
         (extract_softwareList data) /\
  (forall row, In row data ->
     (In (extract_item row) (extract_softwareList data) <->
      findColumn row ["software name"; "name"; "application"; "app name"; "program"] <> None \/
      JS.truthy (first_value row) = true)) /\
  (exists kept, extract_softwareList data = map extract_item kept /\
                kept = filter (fun row => JS.truthy (Item.name (extract_item row))) data) /\
  List.length (extract_softwareList data) <= List.length data.
Proof.
  unfold extract_softwareList. split; [|split; [|split]].
  - rewrite Forall_forall. intros item H. apply filter_In in H. destruct H as [H T].
    split; [exact T|]. apply in_map_iff in H. destruct H as (row & <- & _).
    unfold extract_item. cbn [Item.deviceCount Item.publisher]. split.
    + apply or_else_truthy. reflexivity.
    + unfold or_else, JS.or.
      match goal with
      | |- context [findColumn row ?l] => destruct (findColumn row l) as [cell|]
      end; [|left; reflexivity].
      destruct (JS.truthy cell) eqn:E; [right; exact E|left; reflexivity].
  - intros row Hrow. rewrite filter_In, extract_item_named. split.
    + intros [_ H]. exact H.
    + intros H. split; [apply in_map, Hrow|exact H].
  - eexists. split; [|reflexivity].
    induction data as [|row data IH]; simpl; [reflexivity|].
    destruct (JS.truthy (or_else _ (first_value row))); simpl; rewrite IH; reflexivity.
  - rewrite <- (length_map extract_item data). apply filter_length_le.
Qed.

Lemma agency_of_sheets_firstn (sheets : list (list Row)) (agencyName : option string) :
  agency_of_sheets (map (firstn 1) sheets) agencyName = agency_of_sheets sheets agencyName.
Proof.
  revert agencyName. induction sheets as [|sheet sheets IH]; intros agencyName;
    cbn [agency_of_sheets map]; [reflexivity|].
  assert (E : findAgencyInSheet (firstn 1 sheet) = findAgencyInSheet sheet)
    by (destruct sheet; reflexivity).
  rewrite E. destruct (findAgencyInSheet sheet) as [found|]; [|apply IH].
  destruct (String.eqb found ""); [apply IH|reflexivity].
Qed.

Lemma findAgencyInSheet_trimmed (sheet : list Row) (s : string) :
  findAgencyInSheet sheet = Some s -> JS.trim s = s.
Proof.
  unfold findAgencyInSheet. destruct sheet as [|firstRow rest]; [discriminate|].
  destruct (findColumn firstRow customerColumns) as [agency|]; [|discriminate].
  destruct (JS.truthy agency); [|discriminate].
  intros H. injection H as <-. apply trim_idempotent.
Qed.

Lemma agency_of_sheets_found (sheets : list (list Row)) (agencyName : option string) (s : string) :
  agency_of_sheets sheets agencyName = Some s -> s <> "" ->
  agencyName = Some s \/
  exists before sheet after,
    sheets = before ++ sheet :: after /\
    findAgencyInSheet sheet = Some s /\
    Forall (fun sh => findAgencyInSheet sh = None \/ findAgencyInSheet sh = Some "") before.
Proof.
  revert agencyName. induction sheets as [|sheet sheets IH]; intros agencyName; simpl.
  - intros H _. left. exact H.
  - destruct (findAgencyInSheet sheet) as [found|] eqn:F.
    + destruct (String.eqb found "") eqn:E.
      * apply String.eqb_eq in E. subst found. intros H Ne.
        destruct (IH _ H Ne) as [H'|(before & sh & after & -> & Fs & Fb)];
          [injection H' as <-; congruence|].
        right. exists (sheet :: before), sh, after. split; [reflexivity|].
        split; [exact Fs|]. constructor; [right; exact F|exact Fb].
      * intros H _. injection H as <-. right. exists [], sheet, sheets.
        split; [reflexivity|]. split; [exact F|constructor].
    + intros H Ne.
      destruct (IH _ H Ne) as [H'|(before & sh & after & -> & Fs & Fb)]; [discriminate|].
      right. exists (sheet :: before), sh, after. split; [reflexivity|].
      split; [exact Fs|]. constructor; [left; exact F|exact Fb].
Qed.

(** X16.  The agency is read off the first rows of the sheets.  The loop
    over the sheets looks at the first row of each sheet only; a non-empty
    name it ends with is the trimmed text of a truthy cell found by
    [findColumn] in the first row of the earliest sheet that has one, every
    sheet before it giving nothing or a blank; and without sheets, or with
    empty sheets only, it ends with null. *)
Theorem agency_from_first_rows (sheets : list (list Row)) :
  agency_of_sheets sheets None = agency_of_sheets (map (firstn 1) sheets) None /\
  (forall s, agency_of_sheets sheets None = Some s -> s <> "" ->
     JS.trim s = s /\
     exists before sheet after,
       sheets = before ++ sheet :: after /\
       findAgencyInSheet sheet = Some s /\
       Forall (fun sh => findAgencyInSheet sh = None \/ findAgencyInSheet sh = Some "") before) /\
  (Forall (fun sheet => sheet = []) sheets -> agency_of_sheets sheets None = None).
Proof.
  split; [symmetry; apply agency_of_sheets_firstn|]. split.
  - intros s H Ne.
    destruct (agency_of_sheets_found sheets None s H Ne)
      as [H'|(before & sheet & after & E & Fs & Fb)]; [discriminate|].
    split; [exact (findAgencyInSheet_trimmed sheet s Fs)|].
    exists before, sheet, after. repeat split; assumption.
  - induction 1 as [|sheet sheets E _ IH]; simpl; [reflexivity|].
    subst sheet. simpl. exact IH.
Qed.

(** ** The export to CSV *)

Lemma string_append_assoc (a b c : string) : ((a ++ b) ++ c = a ++ (b ++ c))%string.
Proof. induction a as [|x a IH]; simpl; [reflexivity | now rewrite IH]. Qed.

Lemma read_quoted_field (t field rest : string) :
  read_record InField field (double_quotes t ++ String dquote rest)
  = read_record AfterQuote (field ++ t) rest.
Proof.
revert field. induction t as [|c t IH]; intros field.
- simpl. replace (field ++ "")%string with field; [reflexivity|].
  clear. induction field as [|x f IH]; simpl; [reflexivity | now rewrite <- IH].
- cbn [double_quotes]. destruct (Ascii.eqb c dquote) eqn:E.
  + apply Ascii.eqb_eq in E. subst c.
    cbn [append read_record]. rewrite Ascii.eqb_refl.
    rewrite IH. now rewrite string_append_assoc.
  + cbn [append read_record]. rewrite E.
    rewrite IH. now rewrite string_append_assoc.
Qed.

Lemma read_csv_cells (cell : JS.value) (cells : list JS.value) :
  read_record AtStart "" (csv_line (cell :: cells))
  = Some (map cell_text (cell :: cells)).
Proof.
revert cell. induction cells as [|c' cells IH]; intros cell.
- unfold csv_line, csv_cell. cbn [map join read_record].
  rewrite Ascii.eqb_refl. rewrite read_quoted_field. reflexivity.
- unfold csv_line in *. specialize (IH c').
  change (map csv_cell (cell :: c' :: cells))
    with (csv_cell cell :: map csv_cell (c' :: cells)).
  set (l := map csv_cell (c' :: cells)) in *.
  assert (J : join "," (csv_cell cell :: l) = (csv_cell cell ++ "," ++ join "," l)%string)
    by reflexivity.
  rewrite J. clear J.
  set (R := join "," l) in *.
  unfold csv_cell at 1. cbn [append read_record].
  rewrite Ascii.eqb_refl.
  rewrite string_append_assoc. cbn [append].
  rewrite read_quoted_field. cbn [read_record append].
  replace (Ascii.eqb "," dquote) with false by reflexivity.
  rewrite Ascii.eqb_refl. rewrite IH. reflexivity.
Qed.

Lemma ToString_Num_nonempty (z : Z) : JS.ToString (JS.Num z) <> "".
Proof.
unfold JS.ToString. destruct z as [|p|p]; simpl.
- discriminate.
- unfold NilZero.string_of_uint. destruct (Pos.to_uint p); simpl; discriminate.
- discriminate.
Qed.

Lemma safe_char_safe (c : ascii) : filename_safe (safe_char c).
Proof.
unfold safe_char, filename_safe. cbv zeta.
destruct ((48 <=? nat_of_ascii c)%nat && (nat_of_ascii c <=? 57)%nat) eqn:D;
  [apply andb_true_iff in D; destruct D as [D1 D2];
   apply Nat.leb_le in D1; apply Nat.leb_le in D2; simpl; left; lia|].
destruct ((65 <=? nat_of_ascii c)%nat && (nat_of_ascii c <=? 90)%nat) eqn:U;
  [apply andb_true_iff in U; destruct U as [U1 U2];
   apply Nat.leb_le in U1; apply Nat.leb_le in U2; simpl; right; left; lia|].
destruct ((97 <=? nat_of_ascii c)%nat && (nat_of_ascii c <=? 122)%nat) eqn:L;
  [apply andb_true_iff in L; destruct L as [L1 L2];
   apply Nat.leb_le in L1; apply Nat.leb_le in L2; simpl; right; right; left; lia|].
simpl. right; right; right. reflexivity.
Qed.

Lemma safe_char_fixes (c : ascii) : filename_safe c -> safe_char c = c.
Proof.
unfold filename_safe, safe_char. cbv zeta. intros [H | [H | [H | H]]].
- replace ((48 <=? nat_of_ascii c)%nat && (nat_of_ascii c <=? 57)%nat) with true; [reflexivity|].
  symmetry. apply andb_true_iff. split; apply Nat.leb_le; lia.
- replace ((65 <=? nat_of_ascii c)%nat && (nat_of_ascii c <=? 90)%nat) with true;
    [now rewrite orb_true_r|].
  symmetry. apply andb_true_iff. split; apply Nat.leb_le; lia.
- replace ((97 <=? nat_of_ascii c)%nat && (nat_of_ascii c <=? 122)%nat) with true;
    [now rewrite orb_true_r|].
  symmetry. apply andb_true_iff. split; apply Nat.leb_le; lia.
- assert (E : c = "_"%char).
  { rewrite <- (ascii_nat_embedding c). rewrite H. reflexivity. }
  subst c. reflexivity.
Qed.

(** X17. Every line of an item in the CSV export reads back, with a reader of
    quoted fields after RFC 4180, as exactly the nine texts of its cells, in
    the order of the nine headers, whatever commas, double quotes and line
    feeds the cells hold; the header line itself is not quoted, but its
    nine names hold no comma. *)
Theorem csv_line_reads_back (item : ExportItem.t) :
  read_record AtStart "" (csv_line (csv_row item)) = Some (map cell_text (csv_row item)) /\
  List.length (map cell_text (csv_row item)) = List.length csv_headers /\
  Forall (fun h => JS.includes h "," = false) csv_headers.
Proof.
split; [|split].
- unfold csv_row. apply read_csv_cells.
- reflexivity.
- unfold csv_headers. repeat constructor.
Qed.

(** X18. The text of an exported cell is empty exactly when the cell is falsy
    (missing, the empty text or the number 0, so a count of 0 is exported as
    an empty field and not as 0), and is the text of the cell otherwise;
    a missing disposition is exported as pending. *)
Theorem csv_falsy_cell_is_empty (cell : JS.value) :
  (cell_text cell = "" <-> JS.truthy cell = false) /\
  (JS.truthy cell = true -> cell_text cell = JS.ToString cell) /\
  (forall item, JS.truthy (ExportItem.disposition item) = false ->
     nth_error (map cell_text (csv_row item)) 3 = Some "pending").
Proof.
split; [|split].
- unfold cell_text, JS.or. destruct (JS.truthy cell) eqn:T.
  + split; [|discriminate]. intro H. exfalso.
    destruct cell as [|z|s]; cbn [JS.truthy] in T.
    * discriminate.
    * now apply (ToString_Num_nonempty z).
    * cbn [JS.ToString] in H. subst s. discriminate.
  + split; reflexivity.
- intro T. unfold cell_text, JS.or. now rewrite T.
- intros item F. unfold csv_row. cbn [map nth_error].
  unfold cell_text. unfold JS.or at 2. rewrite F. reflexivity.
Qed.

(** X19. The agency part of the exported file name holds only letters,
    digits and underscores and has the length of the agency name; an agency
    name that holds only such characters is kept as it is; without an agency
    name the file name has no agency part. *)
Theorem csv_filename_is_safe (agency isoDate : string) :
  all_chars filename_safe (sanitize agency) /\
  String.length (sanitize agency) = String.length agency /\
  (all_chars filename_safe agency -> sanitize agency = agency) /\
  (agency <> "" ->
     csv_filename (Some agency) isoDate
     = ("software_analysis_" ++ sanitize agency ++ "_" ++ isoDate ++ ".csv")%string) /\
  csv_filename (Some "") isoDate = csv_filename None isoDate /\
  csv_filename None isoDate = ("software_analysis_" ++ isoDate ++ ".csv")%string.
Proof.
split; [|split; [|split; [|split; [|split]]]].
- induction agency as [|c a IH]; simpl; [exact I|]. split; [apply safe_char_safe | exact IH].
- induction agency as [|c a IH]; simpl; [reflexivity | now rewrite IH].
- induction agency as [|c a IH]; simpl; [reflexivity|].
  intros [H1 H2]. rewrite (safe_char_fixes c H1). now rewrite (IH H2).
- intro N. unfold csv_filename.
  destruct (String.eqb agency "") eqn:E; [apply String.eqb_eq in E; contradiction|].
  now rewrite string_append_assoc.
- reflexivity.
- reflexivity.
Qed.

(** ** Runs of the further statements on the sample store *)

Lemma compare_le_trans (a b c : string) :
  String.compare a b <> Gt -> String.compare b c <> Gt -> String.compare a c <> Gt.
Proof.
intros AB BC.
destruct (String.compare a b) eqn:E1; [| |congruence].
- apply String.compare_eq_iff in E1. now subst b.
- destruct (String.compare b c) eqn:E2; [| |congruence].
  + apply String.compare_eq_iff in E2. subst c. rewrite E1. discriminate.
  + apply OrderedTypeEx.String_as_OT.cmp_lt in E1.
    apply OrderedTypeEx.String_as_OT.cmp_lt in E2.
    pose proof (OrderedTypeEx.String_as_OT.lt_trans _ _ _ E1 E2) as L.
    apply OrderedTypeEx.String_as_OT.cmp_lt in L.
    unfold OrderedTypeEx.String_as_OT.cmp in L. rewrite L. discriminate.
Qed.

Lemma Literal_collation : collation Literal.runtime.
Proof.
split.
- intros a b. simpl. unfold Literal.compare.
  rewrite (String.compare_antisym a b).
  destruct (String.compare b a); simpl; lia.
- intros a b c. simpl. unfold Literal.compare. intros AB BC.
  assert (N : String.compare a c <> Gt).
  { apply (compare_le_trans a b c).
    - destruct (String.compare a b); [discriminate|discriminate|lia].
    - destruct (String.compare b c); [discriminate|discriminate|lia]. }
  destruct (String.compare a c); [lia|lia|congruence].
Qed.

Lemma sample_rules_load : rules_load Sample.world.
Proof. split; reflexivity. Qed.

Lemma buckets_in_input_order_witness :
  rules_load Sample.world /\
  exists r w',
    analyze (runtime := Literal.runtime) Sample.softwareList Sample.world = (Normal r, w') /\
    excluded r =
    flat_map (excluded_of (runtime := Literal.runtime) (loaded_analyzer Sample.world))
      Sample.softwareList /\
    unmapped r =
    flat_map (unmapped_of (runtime := Literal.runtime) (loaded_analyzer Sample.world))
      Sample.softwareList.
Proof.
split; [exact sample_rules_load|].
destruct (buckets_in_input_order (runtime := Literal.runtime) Sample.softwareList Sample.world
            sample_rules_load sample_text_names) as (r & w' & R & E & U & _).
exists r, w'. split; [exact R|split; [exact E|exact U]].
Defined.

Lemma aggregates_well_formed_witness :
  rules_load Sample.world /\
  exists r w',
    analyze (runtime := Literal.runtime) Sample.softwareList Sample.world = (Normal r, w') /\
    NoDup (map Included.canonicalName (includedArray r)).
Proof.
split; [exact sample_rules_load|].
destruct (aggregates_well_formed (runtime := Literal.runtime) Sample.softwareList Sample.world
            sample_rules_load sample_text_names) as (r & w' & R & N & _).
exists r, w'. split; [exact R|exact N].
Defined.

Lemma summary_counts_add_up_witness :
  rules_load Sample.world /\
  exists body w',
    analyze_handler (runtime := Literal.runtime) "inventory.xlsx" None Sample.softwareList
      Sample.world = (Normal (Json body), w') /\
    totalInput (Response.summary body) = List.length Sample.softwareList.
Proof.
split; [exact sample_rules_load|].
destruct (summary_counts_add_up (runtime := Literal.runtime) "inventory.xlsx" None
            Sample.softwareList Sample.world sample_rules_load sample_text_names) as (body & w' & R & T & _).
exists body, w'. split; [exact R|exact T].
Defined.

Lemma rules_not_loaded_status500_witness :
  ~ rules_load Upload.world_half_loaded /\
  exists error w',
    analyze_handler (runtime := Literal.runtime) "inventory.xlsx" None Sample.softwareList
      Upload.world_half_loaded =
    (Normal (Status500 ("Analysis failed: " ++ message error)), w') /\
    db w' = db Upload.world_half_loaded /\
    exclusionRules (analyzer w') =
    filter ExclusionRule.is_active (exclusion_rules Sample.database).
Proof.
assert (N : ~ rules_load Upload.world_half_loaded) by (intros [_ H]; discriminate H).
split; [exact N|].
destruct (rules_not_loaded_status500 (runtime := Literal.runtime) "inventory.xlsx" None
            Sample.softwareList Upload.world_half_loaded N) as (error & w' & R & D & _ & _ & X).
exists error, w'. split; [exact R|split; [exact D|exact X]].
Defined.

Lemma handler_only_adds_rows_witness :
  rules_load Sample.world /\
  exists body w',
    analyze_handler (runtime := Literal.runtime) "inventory.xlsx" None Sample.softwareList
      Sample.world = (Normal (Json body), w') /\
    exclusion_rules (db w') = exclusion_rules Sample.database /\
    software_mappings (db w') = software_mappings Sample.database /\
    approved_software (db w') = approved_software Sample.database.
Proof.
split; [exact sample_rules_load|].
destruct (handler_only_adds_rows (runtime := Literal.runtime) "inventory.xlsx" None
            Sample.softwareList Sample.world sample_rules_load sample_text_names)
  as (body & w' & R & E & M & A & _).
exists body, w'. split; [exact R|split; [exact E|split; [exact M|exact A]]].
Defined.

Lemma response_lists_sorted_witness :
  rules_load Sample.world /\ collation Literal.runtime /\
  Forall counted Upload.counted_list /\
  exists body w',
    analyze_handler (runtime := Literal.runtime) "inventory.xlsx" None Upload.counted_list
      Sample.world = (Normal (Json body), w') /\
    StronglySorted count_desc (Response.unmapped body).
Proof.
assert (C : Forall counted Upload.counted_list) by (repeat constructor).
assert (T : Forall text_name Upload.counted_list) by (repeat constructor).
split; [exact sample_rules_load|split; [exact Literal_collation|split; [exact C|]]].
destruct (response_lists_sorted (runtime := Literal.runtime) "inventory.xlsx" None
            Upload.counted_list Sample.world sample_rules_load T Literal_collation C)
  as (body & w' & R & _ & U).
exists body, w'. split; [exact R|exact U].
Defined.

Lemma analyze_reads_and_warns_witness :
  rules_load Sample.world /\
  exists r w',
    analyze (runtime := Literal.runtime) Sample.softwareList Sample.world = (Normal r, w') /\
    db w' = Sample.database /\
    analyzer w' = loaded_analyzer Sample.world.
Proof.
split; [exact sample_rules_load|].
destruct (analyze_reads_and_warns (runtime := Literal.runtime) Sample.softwareList Sample.world
            sample_rules_load sample_text_names) as (r & w' & lines & R & D & _ & A & _).
exists r, w'. split; [exact R|split; [exact D|exact A]].
Defined.

Lemma stored_disposition_reported_witness :
  hd false (outages Sample.world) = false /\
  In Upload.ams360_included [Sample.zoom_included; Upload.ams360_included] /\
  disposition_mappings (db Sample.world) = [] ++ Upload.ams360_row :: [] /\
  exists result w',
    enrich [Sample.zoom_included; Upload.ams360_included] Sample.world = (Normal result, w') /\
    In (Enriched.mk Upload.ams360_included "replace" (Some 1%Z) (Some "Applied Epic")
          (Some "moving to Epic"))
       result.
Proof.
assert (I : In Upload.ams360_included [Sample.zoom_included; Upload.ams360_included])
  by (right; left; reflexivity).
split; [reflexivity|split; [exact I|split; [reflexivity|]]].
destruct (stored_disposition_reported [Sample.zoom_included; Upload.ams360_included]
            Sample.world Upload.ams360_included Upload.ams360_row [] [])
  as (result & w' & R & H).
- reflexivity.
- exact I.
- reflexivity.
- reflexivity.
- intros row [].
- exists result, w'. split; [exact R|exact H].
Defined.

Lemma enrich_creates_rows_once_witness :
  store_up Sample.world /\
  exists result w',
    enrich [Sample.zoom_included; Sample.chrome_included] Sample.world = (Normal result, w') /\
    In "Zoom" (map DispositionMapping.canonical_name (disposition_mappings (db w'))).
Proof.
assert (U : store_up Sample.world) by constructor.
split; [exact U|].
destruct (enrich_creates_rows_once [Sample.zoom_included; Sample.chrome_included]
            Sample.world U) as (result & w' & R & H & _).
exists result, w'. split; [exact R|].
apply (H Sample.zoom_included). left; reflexivity.
Defined.

Lemma findColumn_returns_truthy_cell_witness :
  findColumn Upload.zoom_row ["number of devices"; "device count"; "count"] =
  Some (JS.Num 3) /\
  JS.truthy (JS.Num 3) = true.
Proof.
split; [reflexivity|].
destruct (findColumn_returns_truthy_cell Upload.zoom_row
            ["number of devices"; "device count"; "count"] (JS.Num 3) eq_refl) as (T & _).
exact T.
Defined.

Lemma findColumn_ignores_case_witness :
  NoDup (keys Upload.zoom_row) /\ NoDup (keys Upload.zoom_row_upper) /\
  row_variant Upload.zoom_row Upload.zoom_row_upper /\
  Forall2 case_variant ["publisher"; "vendor"] ["Publisher"; "VENDOR"] /\
  findColumn Upload.zoom_row_upper ["Publisher"; "VENDOR"] =
  findColumn Upload.zoom_row ["publisher"; "vendor"].
Proof.
assert (N : NoDup (keys Upload.zoom_row)).
{ repeat (constructor;
    [simpl; intros H; repeat (destruct H as [H|H]; [discriminate H|]); exact H|]).
  constructor. }
assert (N' : NoDup (keys Upload.zoom_row_upper)).
{ repeat (constructor;
    [simpl; intros H; repeat (destruct H as [H|H]; [discriminate H|]); exact H|]).
  constructor. }
assert (V : row_variant Upload.zoom_row Upload.zoom_row_upper).
{ unfold row_variant, Upload.zoom_row, Upload.zoom_row_upper.
  repeat (constructor; [split; [simpl; same_letters|reflexivity]|]).
  constructor. }
assert (F : Forall2 case_variant ["publisher"; "vendor"] ["Publisher"; "VENDOR"]).
{ repeat (constructor; [same_letters|]). constructor. }
split; [exact N|split; [exact N'|split; [exact V|split; [exact F|]]]].
exact (findColumn_ignores_case Upload.zoom_row Upload.zoom_row_upper
         ["publisher"; "vendor"] ["Publisher"; "VENDOR"] N N' V F).
Defined.

(** ** The list of categories *)

Lemma Set_values_In (l seen : list string) (x : string) :
  In x (Set_values l seen) <-> In x l /\ ~ In x seen.
Proof.
revert seen. induction l as [|y l IH]; intros seen; simpl.
- tauto.
- destruct (existsb (String.eqb y) seen) eqn:E.
  + apply existsb_exists in E. destruct E as (z & Hz & Ez).
    apply String.eqb_eq in Ez. subst z.
    rewrite IH. split.
    * intros [H1 H2]. tauto.
    * intros [[H1 | H1] H2]; [subst; contradiction | tauto].
  + assert (N : ~ In y seen).
    { intro H. assert (X : existsb (String.eqb y) seen = true).
      { apply existsb_exists. exists y. split; [exact H | apply String.eqb_refl]. }
      congruence. }
    simpl. rewrite IH. simpl. split.
    * intros [H | [H1 H2]]; [subst; tauto | tauto].
    * intros [[H | H] H2]; [tauto|].
      destruct (string_dec y x) as [->|D]; [tauto|]. right. split; [exact H|].
      intros [H3 | H3]; [contradiction | contradiction].
Qed.

Lemma Set_values_NoDup (l seen : list string) : NoDup (Set_values l seen).
Proof.
revert seen. induction l as [|y l IH]; intros seen; simpl; [constructor|].
destruct (existsb (String.eqb y) seen); [apply IH|].
constructor; [|apply IH].
rewrite Set_values_In. intros [_ H]. apply H. left; reflexivity.
Qed.

Lemma default_compare_order :
  (forall a b, (0 < JSArray.SortCompare default_compare a b)%Z ->
               (JSArray.SortCompare default_compare b a <= 0)%Z) /\
  (forall a b c, (JSArray.SortCompare default_compare a b <= 0)%Z ->
                 (JSArray.SortCompare default_compare b c <= 0)%Z ->
                 (JSArray.SortCompare default_compare a c <= 0)%Z).
Proof.
exact Literal_collation.
Qed.

Lemma sorted_distinct_ascending (l : list string) :
  StronglySorted (JSArray.before default_compare) l -> NoDup l -> ascending l.
Proof.
unfold ascending. induction 1 as [|x l S IH F]; intros N; [constructor|].
inversion N as [|? ? X N']; subst.
constructor; [apply IH, N'|].
rewrite Forall_forall in *. intros y Hy. specialize (F y Hy).
unfold JSArray.before, JSArray.SortCompare, default_compare in F.
destruct (String.compare x y) eqn:E; [|reflexivity|lia].
apply String.compare_eq_iff in E. subst y. contradiction.
Qed.

(** X20.  The list of categories.  Whatever the store's order and choice
    among equal values in its two SELECT DISTINCT, when it accepts both the
    handler answers with the categories of all rows of [exclusion_rules] and
    the non-null categories of all rows of [software_mappings], inactive rows
    included, each once, strictly ascending by code units, and leaves the
    store as it was; when it rejects one of the two, the handler answers with
    the status 500 and the message of the error. *)
Theorem categories_sorted_distinct (select : list string -> list string) (w : World) :
  selects_values select ->
  (rules_load w ->
   exists cats w',
     categories_handler select w = (Normal (CategoriesJson cats), w') /\
     db w' = db w /\
     ascending cats /\
     forall c, In c cats <->
       (exists rule, In rule (exclusion_rules (db w)) /\ ExclusionRule.category rule = c) \/
       (exists rule, In rule (software_mappings (db w)) /\
                     MappingRule.category rule = Some c)) /\
  (~ rules_load w ->
   exists error w',
     categories_handler select w = (Normal (CategoriesStatus500 (message error)), w') /\
     db w' = db w).
Proof.
intros V. split.
- intros [U1 U2].
  unfold categories_handler, try_catch, bind.
  rewrite (pool_query_up _ w U1). cbn [fst snd select_exclusion_categories].
  set (w1 := mkWorld (db w) (tl (outages w)) (analyzer w) (console w)).
  rewrite (pool_query_up _ w1 U2). cbn [fst snd select_mapping_categories db w1].
  unfold ret.
  eexists. eexists. split; [reflexivity|]. split; [reflexivity|]. split.
  + apply sorted_distinct_ascending.
    * apply (sort_sorted default_compare (fun _ => True)).
      -- intros a b _ _. apply default_compare_order.
      -- intros a b c _ _ _. apply default_compare_order.
      -- rewrite Forall_forall. intros; exact I.
    * eapply Permutation_NoDup; [apply Permutation_sym, sort_permutation|].
      apply Set_values_NoDup.
  + intro c. split.
    * intro H.
      apply (Permutation_in _ (sort_permutation default_compare _)) in H.
      apply Set_values_In in H. destruct H as [H _].
      apply in_app_or in H. destruct H as [H | H]; apply (proj1 (V _ _)) in H.
      -- left. apply in_map_iff in H. destruct H as (rule & E & H). exists rule. tauto.
      -- right. unfold not_null in H. apply in_flat_map in H.
         destruct H as (o & Ho & Hc). apply in_map_iff in Ho.
         destruct Ho as (rule & E & Hr). exists rule. split; [exact Hr|].
         rewrite E. destruct o as [c'|]; simpl in Hc; [|contradiction].
         destruct Hc as [-> | []]. reflexivity.
    * intro H.
      apply (Permutation_in _ (Permutation_sym (sort_permutation default_compare _))).
      apply Set_values_In. split; [|intros []].
      apply in_or_app. destruct H as [(rule & Hr & E) | (rule & Hr & E)].
      -- left. apply V. apply in_map_iff. exists rule. tauto.
      -- right. apply V. unfold not_null. apply in_flat_map.
         exists (Some c). split; [|left; reflexivity].
         apply in_map_iff. exists rule. tauto.
- intros N. unfold categories_handler, try_catch, bind.
  destruct (hd false (outages w)) eqn:U1.
  + rewrite (pool_query_down _ w U1).
    exists (DatabaseError "connection refused"). eexists. split; reflexivity.
  + rewrite (pool_query_up _ w U1). cbn [fst snd select_exclusion_categories].
    set (w1 := mkWorld (db w) (tl (outages w)) (analyzer w) (console w)).
    destruct (hd false (outages w1)) eqn:U2.
    * rewrite (pool_query_down _ w1 U2).
      exists (DatabaseError "connection refused"). eexists. split; reflexivity.
    * exfalso. apply N. split; [exact U1|exact U2].
Qed.

Lemma categories_sorted_distinct_witness :
  selects_values (fun l => l) /\
  rules_load Sample.world /\
  exists cats w',
    categories_handler (fun l => l) Sample.world = (Normal (CategoriesJson cats), w') /\
    ascending cats /\
    In "Drivers" cats.
Proof.
assert (V : selects_values (fun l => l)) by (intros l x; tauto).
split; [exact V|]. split; [exact sample_rules_load|].
destruct (categories_sorted_distinct (fun l => l) Sample.world V) as (H & _).
destruct (H sample_rules_load) as (cats & w' & R & _ & A & I).
exists cats, w'. split; [exact R|split; [exact A|]].
apply I. left. exists Sample.driver. split; [|reflexivity].
simpl. tauto.
Defined.

(** ** Patterns with white space around them *)

Lemma isWhiteSpace_toLowerCase_char (c : ascii) :
  JS.isWhiteSpace (JS.toLowerCase_char c) = JS.isWhiteSpace c.
Proof.
symmetry. apply alter_case_isWhiteSpace. right; right; reflexivity.
Qed.

Lemma toLowerCase_trimStart (s : string) :
  JS.toLowerCase (JS.trimStart s) = JS.trimStart (JS.toLowerCase s).
Proof.
induction s as [|c s IH]; [reflexivity|].
cbn [JS.trimStart JS.toLowerCase]. rewrite isWhiteSpace_toLowerCase_char.
destruct (JS.isWhiteSpace c); [exact IH | reflexivity].
Qed.

Lemma toLowerCase_trimEnd (s : string) :
  JS.toLowerCase (JS.trimEnd s) = JS.trimEnd (JS.toLowerCase s).
Proof.
induction s as [|c s IH]; [reflexivity|].
cbn [JS.trimEnd JS.toLowerCase]. rewrite <- IH. rewrite isWhiteSpace_toLowerCase_char.
destruct (JS.trimEnd s) as [|d t]; cbn [JS.toLowerCase]; [|reflexivity].
destruct (JS.isWhiteSpace c); reflexivity.
Qed.

Lemma toLowerCase_trim (s : string) :
  JS.toLowerCase (JS.trim s) = JS.trim (JS.toLowerCase s).
Proof.
unfold JS.trim. rewrite toLowerCase_trimStart, toLowerCase_trimEnd. reflexivity.
Qed.

Lemma toLowerCase_length (s : string) : String.length (JS.toLowerCase s) = String.length s.
Proof. induction s as [|c s IH]; simpl; [reflexivity | now rewrite IH]. Qed.

Lemma trimStart_length (s : string) : String.length (JS.trimStart s) <= String.length s.
Proof.
induction s as [|c s IH]; simpl; [lia|].
destruct (JS.isWhiteSpace c); simpl; lia.
Qed.

Lemma trimStart_same_length (s : string) :
  String.length (JS.trimStart s) = String.length s -> JS.trimStart s = s.
Proof.
destruct s as [|c s]; [reflexivity|]. simpl.
destruct (JS.isWhiteSpace c); [|reflexivity].
intro H. pose proof (trimStart_length s). lia.
Qed.

Lemma trimEnd_length (s : string) : String.length (JS.trimEnd s) <= String.length s.
Proof.
induction s as [|c s IH]; simpl; [lia|].
destruct (JS.trimEnd s) as [|d t].
- destruct (JS.isWhiteSpace c); simpl; lia.
- simpl in *. lia.
Qed.

Lemma trimEnd_same_length (s : string) :
  String.length (JS.trimEnd s) = String.length s -> JS.trimEnd s = s.
Proof.
induction s as [|c s IH]; [reflexivity|]. simpl.
pose proof (trimEnd_length s) as L.
destruct (JS.trimEnd s) as [|d t].
- destruct (JS.isWhiteSpace c); simpl; intro H; [lia|].
  destruct s; [reflexivity | simpl in H; lia].
- simpl. intro H. rewrite IH; [reflexivity|]. simpl in *. lia.
Qed.

Lemma trim_same_length (s : string) :
  String.length (JS.trim s) = String.length s -> JS.trim s = s.
Proof.
unfold JS.trim. intro H.
pose proof (trimStart_length (JS.trimEnd s)) as L1.
pose proof (trimEnd_length s) as L2.
assert (E : JS.trimEnd s = s) by (apply trimEnd_same_length; lia).
rewrite E in *. apply trimStart_same_length. exact H.
Qed.

Lemma trimmed_matches_trimmed (name pattern : string) :
  JS.toLowerCase (JS.trim name) = JS.toLowerCase pattern -> JS.trim pattern = pattern.
Proof.
intro E. apply trim_same_length.
rewrite <- (toLowerCase_length (JS.trim pattern)), <- (toLowerCase_length pattern).
f_equal. rewrite toLowerCase_trim, <- E, <- toLowerCase_trim, trim_idempotent. reflexivity.
Qed.

(** X21.  A pattern with white space around it never matches exactly.  The
    name is trimmed before it is compared and the pattern is not: a rule of
    type exact whose pattern begins or ends with white space is never the
    rule that [shouldExclude] returns, nor the rule that [findMapping]
    returns, whatever the name. *)
Theorem padded_exact_pattern_never_matches {runtime : Runtime} (pattern : string)
    (softwareName : string) (w : World) :
  JS.trim pattern <> pattern ->
  (forall rule,
     fst (shouldExclude softwareName w) = Normal (IsExcluded rule) ->
     ExclusionRule.pattern_type rule = "exact" ->
     ExclusionRule.pattern_value rule <> pattern) /\
  (forall rule,
     fst (findMapping softwareName w) = Normal (Some rule) ->
     MappingRule.pattern_type rule = "exact" ->
     MappingRule.original_pattern rule <> pattern).
Proof.
intro P. split.
- intros rule R T E. rewrite shouldExclude_run in R. simpl in R.
  injection R as R. apply first_exclusion_IsExcluded in R.
  destruct R as (_ & _ & _ & _ & M).
  unfold exclusion_matches in M. rewrite T in M. simpl in M.
  apply String.eqb_eq in M. rewrite E in M.
  apply P. exact (trimmed_matches_trimmed softwareName pattern M).
- intros rule R T E. rewrite findMapping_run in R. simpl in R.
  injection R as R. apply first_mapping_Some in R.
  destruct R as (_ & _ & _ & _ & M).
  unfold mapping_matches in M. rewrite T in M. simpl in M.
  apply String.eqb_eq in M. rewrite E in M.
  apply P. exact (trimmed_matches_trimmed softwareName pattern M).
Qed.

Lemma padded_exact_pattern_never_matches_witness :
  JS.trim " Zoom Workplace" <> " Zoom Workplace" /\
  forall rule,
    fst (shouldExclude (runtime := Literal.runtime) "Zoom Workplace" Sample.loaded) =
    Normal (IsExcluded rule) ->
    ExclusionRule.pattern_type rule = "exact" ->
    ExclusionRule.pattern_value rule <> " Zoom Workplace".
Proof.
assert (P : JS.trim " Zoom Workplace" <> " Zoom Workplace") by discriminate.
split; [exact P|].
destruct (padded_exact_pattern_never_matches (runtime := Literal.runtime) " Zoom Workplace"
            "Zoom Workplace" Sample.loaded P) as (H & _).
exact H.
Defined.

(** ** Exclusion before mapping, and a bound on the totals *)

Section Precedence.
Context {runtime : Runtime}.

Lemma contribution_at_least_one (e : Entry.t) :
  match JS.parseInt (Entry.deviceCount e) with
  | Some z => (0 <= z)%Z
  | None => True
  end ->
  (1 <= contribution e)%Z.
Proof.
unfold contribution. destruct (JS.parseInt (Entry.deviceCount e)) as [z|]; [|lia].
destruct z; lia.
Qed.

Lemma contributions_at_least_length (entries : list Entry.t) :
  Forall (fun e => (1 <= contribution e)%Z) entries ->
  (Z.of_nat (List.length entries) <= fold_right Z.add 0%Z (map contribution entries))%Z.
Proof.
induction 1 as [|e entries H _ IH]; [simpl; lia|].
cbn [List.length map fold_right]. lia.
Qed.

(** X22.  Exclusion comes before mapping.  When the rules load and the
    names of the entries are texts or missing, an entry whose trimmed name an active exclusion rule matches is listed in
    [excluded], and its name is in no aggregate and not in [unmapped],
    whatever mapping rules match it as well. *)
Theorem exclusion_precedes_mapping (softwareList : list Item.t) (w : World)
    (item : Item.t) (name : string) (rule : ExclusionRule.t) :
  rules_load w ->
  Forall text_name softwareList ->
  In item softwareList ->
  trimmed_name item = Some name ->
  In rule (exclusion_rules (db w)) ->
  ExclusionRule.is_active rule = true ->
  exclusion_matches rule name = true ->
  exists r w',
    analyze softwareList w = (Normal r, w') /\
    In name (excluded_names r) /\
    ~ In name (contributor_names r) /\
    ~ In name (unmapped_names r).
Proof.
intros L Text Hitem T Hrule Active M.
eexists. eexists. split; [exact (analyze_run _ w L Text)|].
set (a := loaded_analyzer w).
set (r := place_all a softwareList (mkResults JSMap.empty [] [])).
assert (W : well_placed a r).
{ apply place_all_well_placed. repeat split; constructor. }
assert (Tag : bucket_tag (classify_name a name) = 1).
{ unfold classify_name.
  destruct (first_exclusion (exclusionRules a) name) as [hit|] eqn:F; [reflexivity|].
  exfalso. rewrite first_exclusion_NotExcluded in F.
  assert (X : exclusion_matches rule name = false).
  { apply F. unfold a, loaded_analyzer. cbn [exclusionRules].
    apply filter_In. split; assumption. }
  congruence. }
assert (A : In name (all_names r)).
{ apply (Permutation_in _ (Permutation_sym (place_all_names a softwareList
                                               (mkResults JSMap.empty [] [])))).
  apply in_or_app. right. exact (classified_names_in softwareList item name Hitem T). }
destruct W as (HE & HC & HU). rewrite Forall_forall in HC, HU.
assert (NC : ~ In name (contributor_names r)).
{ intro H. apply HC in H. congruence. }
assert (NU : ~ In name (unmapped_names r)).
{ intro H. apply HU in H. congruence. }
split; [|split; assumption].
unfold all_names in A. apply in_app_or in A. destruct A as [A | A]; [exact A|].
apply in_app_or in A. destruct A as [A | A]; contradiction.
Qed.

(** X23.  A bound on the totals.  When the rules load, the names of the
    entries are texts or missing and no deviceCount of the input reads as a
    negative number, the totalDevices of every element
    of [includedArray] is at least its originalCount, so at least 1. *)
Theorem totalDevices_at_least_originalCount (softwareList : list Item.t) (w : World) :
  rules_load w ->
  Forall text_name softwareList ->
  Forall no_negative_count softwareList ->
  exists r w',
    analyze softwareList w = (Normal r, w') /\
    Forall (fun i => (Z.of_nat (Included.originalCount i) <= Included.totalDevices i)%Z /\
                     (1 <= Included.totalDevices i)%Z)
           (includedArray r).
Proof.
intros L Text C. eexists. eexists. split; [exact (analyze_run _ w L Text)|].
set (a := loaded_analyzer w).
set (r := place_all a softwareList (mkResults JSMap.empty [] [])).
assert (W : aggregates_wf (included r)).
{ apply place_all_wf. split; constructor. }
destruct W as [N F]. rewrite Forall_forall in F.
unfold includedArray, JSMap.values. rewrite map_map, Forall_forall.
intros i Hi. apply in_map_iff in Hi. destruct Hi as ([k agg] & <- & Hkv).
cbn [snd Included.originalCount Included.totalDevices].
destruct (F _ Hkv) as [_ NE]. cbn [snd] in NE.
assert (B : (Z.of_nat (List.length (Aggregate.originalEntries agg))
             <= sum_devices (Aggregate.originalEntries agg))%Z).
{ rewrite sum_devices_contributions. apply contributions_at_least_length.
  pose proof (place_all_entries_at a softwareList (mkResults JSMap.empty [] []) k) as E.
  fold r in E. unfold entries_at in E at 1.
  rewrite (JSMap_get_In k agg _ N Hkv) in E. simpl in E. rewrite E.
  rewrite Forall_forall. intros e He. apply in_flat_map in He.
  destruct He as (item & Hitem & He). unfold contributed_to in He.
  destruct (trimmed_name item) as [n|]; [|contradiction].
  destruct (classify a item) as [| |mapping|]; try contradiction.
  destruct (String.eqb (MappingRule.canonical_name mapping) k); [|contradiction].
  destruct He as [<- | []].
  apply contribution_at_least_one. unfold entry_of. cbn [Entry.deviceCount].
  rewrite Forall_forall in C. exact (C item Hitem). }
split; [exact B|].
destruct (Aggregate.originalEntries agg) as [|e es]; [congruence|].
cbn [List.length] in B. lia.
Qed.

End Precedence.

Lemma exclusion_precedes_mapping_witness :
  rules_load Sample.world /\
  In Sample.update_item Sample.softwareList /\
  trimmed_name Sample.update_item = Some "Security Update for Microsoft Office (KB123)" /\
  In Sample.kb_article (exclusion_rules (db Sample.world)) /\
  ExclusionRule.is_active Sample.kb_article = true /\
  exclusion_matches (runtime := Literal.runtime) Sample.kb_article
    "Security Update for Microsoft Office (KB123)" = true /\
  exists r w',
    analyze (runtime := Literal.runtime) Sample.softwareList Sample.world = (Normal r, w') /\
    In "Security Update for Microsoft Office (KB123)" (excluded_names r).
Proof.
assert (I : In Sample.update_item Sample.softwareList) by (left; reflexivity).
assert (R : In Sample.kb_article (exclusion_rules (db Sample.world)))
  by (right; left; reflexivity).
split; [exact sample_rules_load|]. split; [exact I|]. split; [reflexivity|].
split; [exact R|]. split; [reflexivity|]. split; [reflexivity|].
destruct (exclusion_precedes_mapping (runtime := Literal.runtime) Sample.softwareList
            Sample.world Sample.update_item "Security Update for Microsoft Office (KB123)"
            Sample.kb_article sample_rules_load sample_text_names I eq_refl R eq_refl eq_refl)
  as (r & w' & A & E & _).
exists r, w'. split; [exact A|exact E].
Defined.

Lemma totalDevices_at_least_originalCount_witness :
  rules_load Sample.world /\
  Forall no_negative_count Sample.softwareList /\
  exists r w',
    analyze (runtime := Literal.runtime) Sample.softwareList Sample.world = (Normal r, w') /\
    Forall (fun i => (1 <= Included.totalDevices i)%Z) (includedArray r).
Proof.
assert (C : Forall no_negative_count Sample.softwareList).
{ repeat (constructor; [vm_compute; first [exact I | intro H; discriminate H]|]).
  constructor. }
split; [exact sample_rules_load|]. split; [exact C|].
destruct (totalDevices_at_least_originalCount (runtime := Literal.runtime)
            Sample.softwareList Sample.world sample_rules_load sample_text_names C) as (r & w' & A & F).
exists r, w'. split; [exact A|].
rewrite Forall_forall in *. intros i Hi. apply (F i Hi).
Defined.

(** ** A name that is a number *)

(** X24.  A name that is a number fails the whole upload.  Once the rules
    have loaded, if an entry has a number for its name, the entries before
    it having texts or none, the handler answers with the status 500 and
    the message of the TypeError of [item.name?.trim()]; the store is as it
    was (no disposition row, no history row), the analyzer holds the loaded
    rules, and the console has the warnings of the entries before it and
    the line of [console.error].  The extraction does hand such entries to
    [analyze]: a sheet with a row whose name is a number other than 0 gets
    this answer. *)
Theorem numeric_name_status500 {runtime : Runtime} (originalname : string)
    (agencyName : option string) (w : World) :
  rules_load w ->
  (forall (pre post : list Item.t) (item : Item.t) (z : Z),
     Forall text_name pre ->
     Item.name item = JS.Num z ->
     exists w',
       analyze_handler originalname agencyName (pre ++ item :: post) w =
       (Normal (Status500 "Analysis failed: item.name?.trim is not a function"), w') /\
       db w' = db w /\
       analyzer w' = loaded_analyzer w /\
       console w' =
       (console w ++ log_all (loaded_analyzer w) pre) ++
       [("Analysis error: " ++ inspect (TypeError "item.name?.trim is not a function"))%string]) /\
  (forall (data : list Row) (row : Row) (z : Z),
     In row data ->
     Item.name (extract_item row) = JS.Num z ->
     z <> 0%Z ->
     exists w',
       analyze_sheet originalname agencyName data w =
       (Normal (Status500 "Analysis failed: item.name?.trim is not a function"), w') /\
       db w' = db w).
Proof.
intros L.
assert (P : forall (pre post : list Item.t) (item : Item.t) (z : Z),
     Forall text_name pre ->
     Item.name item = JS.Num z ->
     exists w',
       analyze_handler originalname agencyName (pre ++ item :: post) w =
       (Normal (Status500 "Analysis failed: item.name?.trim is not a function"), w') /\
       db w' = db w /\
       analyzer w' = loaded_analyzer w /\
       console w' =
       (console w ++ log_all (loaded_analyzer w) pre) ++
       [("Analysis error: " ++ inspect (TypeError "item.name?.trim is not a function"))%string]).
{ intros pre post item z T E.
  unfold analyze_handler, try_catch, bind.
  rewrite (analyze_throws pre post item z w L T E).
  unfold console_error, console_warn, ret.
  eexists. split; [reflexivity|]. repeat split. }
split; [exact P|].
intros data row z Hrow E NZ.
assert (N : ~ Forall text_name (extract_softwareList data)).
{ intros F. rewrite Forall_forall in F.
  assert (I : In (extract_item row) (extract_softwareList data)).
  { unfold extract_softwareList. apply filter_In. split.
    - apply in_map. exact Hrow.
    - rewrite E. simpl. apply Z.eqb_neq in NZ. rewrite NZ. reflexivity. }
  specialize (F _ I). unfold text_name in F. rewrite E in F. exact F. }
destruct (first_numeric_name _ N) as (pre & item & post & z' & S & T & E').
unfold analyze_sheet. rewrite S.
destruct (P pre post item z' T E') as (w' & R & D & _).
exists w'. split; [exact R|exact D].
Qed.

Lemma numeric_name_status500_witness :
  rules_load Sample.world /\
  exists w',
    analyze_sheet (runtime := Literal.runtime) "inventory.xlsx" None
      [Upload.zoom_row; Upload.year_row] Sample.world =
    (Normal (Status500 "Analysis failed: item.name?.trim is not a function"), w') /\
    db w' = db Sample.world.
Proof.
split; [exact sample_rules_load|].
destruct (numeric_name_status500 (runtime := Literal.runtime) "inventory.xlsx" None
            Sample.world sample_rules_load) as (_ & H).
apply (H [Upload.zoom_row; Upload.year_row] Upload.year_row 2024%Z).
- right. left. reflexivity.
- reflexivity.
- discriminate.
Defined.
